(** * BitrixSDK: credential manager, rate limiter, error classifier and
      retry handler, embedded from the TypeScript sources.

    Conventions of the embedding.
    - A JavaScript [number] that the code uses as an integer (HTTP status,
      epoch seconds and milliseconds, priorities, counters, configured
      limits) is a [Z]; an instant obtained as [Date.now() / 1000] is a
      rational, and a comparison with it is written on the milliseconds.
    - A string is a sequence of characters below 256.
    - A value that may be [undefined] or [null] is an [option]; JavaScript
      truthiness is written out ([truthyStr], [truthyNum]).
    - [async] functions are cut at their [await]s: the synchronous part
      up to an [await] and the continuation after it are separate
      functions ([f_start], [f_resume]). A synchronous part runs to
      completion at one instant, which is the value of every [Date.now()]
      in it; what runs next is chosen by a schedule.
    - Callbacks of the caller (event hooks, [resolve], [reject], the unit
      of work) are recorded in a trace when the code invokes them; hooks
      are assumed to return normally, and what a unit of work throws is an
      [Error] with a message. *)

From Stdlib Require Import ZArith QArith List Bool Ascii String Sorting.Sorted Sorting.Permutation Lia.
From stdpp Require Import base strings list gmap pretty sorting.
Import ListNotations.

Local Open Scope string_scope.
Local Open Scope Z_scope.

(** ** JavaScript helpers *)

(** [hay.includes(needle)] *)
Fixpoint includes (hay needle : string) : bool :=
  String.prefix needle hay ||
  match hay with
  | EmptyString => false
  | String _ rest => includes rest needle
  end.

(** truthiness of a possibly missing string: [undefined] and [''] are falsy *)
Definition truthyStr (s : option string) : bool :=
  match s with
  | Some s => negb (String.eqb s "")
  | None => false
  end.

(** truthiness of a possibly missing integer: [undefined] and [0] are falsy *)
Definition truthyNum (n : option Z) : bool :=
  match n with
  | Some n => negb (n =? 0)
  | None => false
  end.

(** [a || b] on possibly missing strings *)
Definition orStr (a : option string) (b : string) : string :=
  match a with
  | Some s => if String.eqb s "" then b else s
  | None => b
  end.

(** [list.includes(x)] on strings *)
Definition inList (x : string) (l : list string) : bool :=
  existsb (String.eqb x) l.

(** ** error/types.ts *)

Record BitrixErrorResponse := {
  error : string;
  error_description : option string
}.

Record BitrixErrorDetails := {
  code : string;
  message : string;
  httpStatus : Z;
  isSystemError : bool;
  isRetryable : bool;
  requiresAuth : bool
}.

(** [Partial<BitrixErrorDetails>] as the table uses it (no [code] field). *)
Record PartialDetails := {
  p_httpStatus : option Z;
  p_isSystemError : option bool;
  p_isRetryable : option bool;
  p_requiresAuth : option bool;
  p_message : option string
}.

(** ** error/bitrixError.ts: a [BitrixError] carries exactly its details. *)
Module BitrixError.

Definition isAuthError (e : BitrixErrorDetails) : bool :=
  requiresAuth e ||
  inList (code e) ["NO_AUTH_FOUND"; "expired_token"; "INVALID_CREDENTIALS"].

Definition isRateLimitError (e : BitrixErrorDetails) : bool :=
  inList (code e) ["QUERY_LIMIT_EXCEEDED"; "OVERLOAD_LIMIT"].

Definition isTemporaryError (e : BitrixErrorDetails) : bool := isRetryable e.

Definition getRetryAfter (e : BitrixErrorDetails) : Z :=
  if isRateLimitError e then 60000
  else if 500 <=? httpStatus e then 5000
  else 0.

End BitrixError.

(** ** error/ErrorMapper.ts *)
Module ErrorMapper.

Definition entry (st : Z) (sys retry auth : bool) (msg : string) : PartialDetails :=
  {| p_httpStatus := Some st; p_isSystemError := Some sys;
     p_isRetryable := Some retry; p_requiresAuth := Some auth;
     p_message := Some msg |}.

(** The own properties of the [SYSTEM_ERRORS] object literal. *)
Definition SYSTEM_ERRORS : list (string * PartialDetails) :=
  [ ("INTERNAL_SERVER_ERROR", entry 500 true true false "Internal server error has occurred");
    ("ERROR_UNEXPECTED_ANSWER", entry 500 true true false "Server returned an unexpected response");
    ("QUERY_LIMIT_EXCEEDED", entry 503 true true false "Request intensity limit has been exceeded");
    ("OVERLOAD_LIMIT", entry 503 true true false "REST API is blocked due to overload");
    ("ERROR_BATCH_METHOD_NOT_ALLOWED", entry 405 true false false "Method is not allowed for batch usage");
    ("ERROR_BATCH_LENGTH_EXCEEDED", entry 400 true false false "Maximum batch length exceeded");
    ("INVALID_REQUEST", entry 400 true false false "HTTPS protocol is required for calling REST methods");
    ("NO_AUTH_FOUND", entry 401 true false true "Invalid access token or webhook code");
    ("expired_token", entry 401 true false true "The provided access token has expired");
    ("ACCESS_DENIED", entry 403 true false false "REST API is available only on commercial plans");
    ("INVALID_CREDENTIALS", entry 403 true false true "User lacks required permissions");
    ("insufficient_scope", entry 403 true false true
       "The request requires higher privileges than provided by the webhook token");
    ("user_access_error", entry 403 true false false "User does not have access to the application");
    ("ERROR_MANIFEST_IS_NOT_AVAILABLE", entry 404 true false false "Manifest is not available") ].

(** [SYSTEM_ERRORS] is a plain object literal, so [SYSTEM_ERRORS[code]]
    walks the prototype chain: besides the own properties above, the
    property names of [Object.prototype] are found as well, and yield a
    function (or, for [__proto__], the prototype object): a truthy value
    with none of the detail fields. *)
Definition objectPrototypeKeys : list string :=
  [ "constructor"; "__defineGetter__"; "__defineSetter__"; "hasOwnProperty";
    "__lookupGetter__"; "__lookupSetter__"; "isPrototypeOf";
    "propertyIsEnumerable"; "toString"; "valueOf"; "__proto__";
    "toLocaleString" ].

Inductive Lookup :=
| Own (e : PartialDetails)   (* an entry of the table *)
| Inherited                  (* a member of Object.prototype *)
| Undefined.

Fixpoint assoc (k : string) (l : list (string * PartialDetails)) : option PartialDetails :=
  match l with
  | [] => None
  | (k', v) :: l' => if String.eqb k k' then Some v else assoc k l'
  end.

(** [this.SYSTEM_ERRORS[code]] *)
Definition lookup (c : string) : Lookup :=
  match assoc c SYSTEM_ERRORS with
  | Some e => Own e
  | None => if inList c objectPrototypeKeys then Inherited else Undefined
  end.

(** [systemError?.httpStatus || httpStatus] *)
Definition pickStatus (l : Lookup) (transport : Z) : Z :=
  match l with
  | Own e => if truthyNum (p_httpStatus e) then default transport (p_httpStatus e) else transport
  | _ => transport
  end.

(** [systemError?.f || false] *)
Definition pickFlag (f : PartialDetails -> option bool) (l : Lookup) : bool :=
  match l with
  | Own e => default false (f e)
  | _ => false
  end.

(** [!!systemError] *)
Definition found (l : Lookup) : bool :=
  match l with
  | Undefined => false
  | _ => true
  end.

Definition mapApiError (errorResponse : BitrixErrorResponse) (transport : Z)
  : BitrixErrorDetails :=
  let c := error errorResponse in
  let description := orStr (error_description errorResponse) "Unknown error" in
  let systemError := lookup c in
  {| code := c;
     message := description;
     httpStatus := pickStatus systemError transport;
     isSystemError := found systemError;
     isRetryable := pickFlag p_isRetryable systemError;
     requiresAuth := pickFlag p_requiresAuth systemError |}.

Definition mkHttp (c msg : string) (st : Z) (retry auth : bool) : BitrixErrorDetails :=
  {| code := c; message := msg; httpStatus := st; isSystemError := false;
     isRetryable := retry; requiresAuth := auth |}.

Definition mapHttpStatus (st : Z) : BitrixErrorDetails :=
  if st =? 400 then mkHttp "BAD_REQUEST" "Bad request" st false false
  else if st =? 401 then mkHttp "UNAUTHORIZED" "Unauthorized access" st false true
  else if st =? 403 then mkHttp "FORBIDDEN" "Access forbidden" st false false
  else if st =? 404 then mkHttp "NOT_FOUND" "Resource not found" st false false
  else if st =? 405 then mkHttp "METHOD_NOT_ALLOWED" "Method not allowed" st false false
  else if st =? 429 then mkHttp "TOO_MANY_REQUESTS" "Too many requests" st true false
  else if st =? 500 then mkHttp "INTERNAL_SERVER_ERROR" "Internal server error" st true false
  else if st =? 502 then mkHttp "BAD_GATEWAY" "Bad gateway" st true false
  else if st =? 503 then mkHttp "SERVICE_UNAVAILABLE" "Service unavailable" st true false
  else if st =? 504 then mkHttp "GATEWAY_TIMEOUT" "Gateway timeout" st true false
  else mkHttp "UNKNOWN_HTTP_ERROR" ("HTTP " +:+ pretty st +:+ " error") st (500 <=? st) false.

(** The [responseBody?: any] argument of [mapHttpResponse]: absent, a
    non-object (text), or an object with a possibly missing [error]. *)
Inductive ResponseBody :=
| NoBody
| TextBody (s : string)
| ObjectBody (err : option string) (descr : option string).

Definition mapHttpResponse (status : Z) (body : ResponseBody) : BitrixErrorDetails :=
  match body with
  | ObjectBody (Some e) d =>
      if truthyStr (Some e)
      then mapApiError {| error := e; error_description := d |} status
      else mapHttpStatus status
  | _ => mapHttpStatus status
  end.

(** the static method [isSystemError(code)]: [code in this.SYSTEM_ERRORS],
    which walks the prototype chain as well *)
Definition isSystemErrorCode (c : string) : bool := found (lookup c).

End ErrorMapper.

(** ** error/ErrorHandler.ts *)
Module ErrorHandler.

(** The hooks [onRetry], [onAuthRequired], [onRateLimit] are recorded in
    the trace when invoked. [maxRetries] is a non-negative count. *)
Record ErrorHandlerOptions := {
  maxRetries : nat;
  retryDelay : Z
}.

(** What [operation()] can throw: a [BitrixError], or any other value
    with a possibly missing [message]. *)
Inductive Thrown :=
| ThrownBitrix (e : BitrixErrorDetails)
| ThrownOther (msg : option string).

Inductive Outcome (T : Type) :=
| Returned (v : T)
| Threw (e : Thrown).
Arguments Returned {T} v.
Arguments Threw {T} e.

(** [Rejected None] is [throw lastError] with [lastError] never assigned. *)
Inductive Result (T : Type) :=
| Resolved (v : T)
| Rejected (e : option BitrixErrorDetails).
Arguments Resolved {T} v.
Arguments Rejected {T} e.

Inductive Event :=
| EvOperation (attempt : nat)                       (* operation() is called *)
| EvAuthRequired (e : BitrixErrorDetails)           (* await onAuthRequired(e) *)
| EvRateLimit (e : BitrixErrorDetails)              (* await onRateLimit(e) *)
| EvRetry (e : BitrixErrorDetails) (attempt : nat)  (* onRetry(e, attempt) *)
| EvSleep (ms : Z).                                 (* await sleep(ms) *)

Definition ensureBitrixError (t : Thrown) : BitrixErrorDetails :=
  match t with
  | ThrownBitrix e => e
  | ThrownOther msg =>
      {| code := "UNKNOWN_ERROR";
         message := orStr msg "Unknown error occurred";
         httpStatus := 500;
         isSystemError := false;
         isRetryable := false;
         requiresAuth := false |}
  end.

Section Loop.
Context {T : Type}.
Variable options : ErrorHandlerOptions.
(** the outcome of the k-th call of [operation] (one call per attempt) *)
Variable operation : nat -> Outcome T.

(** [getRetryAfter() || retryDelay] *)
Definition delayFor (e : BitrixErrorDetails) : Z :=
  if BitrixError.getRetryAfter e =? 0 then retryDelay options
  else BitrixError.getRetryAfter e.

(** The [for] loop from [attempt] on; [fuel] bounds the iterations
    left, [lastError] is the variable of that name. *)
Fixpoint loop (fuel attempt : nat) (lastError : option BitrixErrorDetails)
  : list Event * Result T :=
  match fuel with
  | O => ([], Rejected lastError)
  | S fuel' =>
      match operation attempt with
      | Returned v => ([EvOperation attempt], Resolved v)
      | Threw t =>
          let e := ensureBitrixError t in
          if Nat.eqb attempt (maxRetries options) then
            ([EvOperation attempt], Rejected (Some e))
          else if negb (isRetryable e) then
            ([EvOperation attempt], Rejected (Some e))
          else if BitrixError.isAuthError e then
            let '(evs, r) := loop fuel' (S attempt) (Some e) in
            (EvOperation attempt :: EvAuthRequired e :: evs, r)
          else
            let hook := if BitrixError.isRateLimitError e then [EvRateLimit e] else [] in
            let '(evs, r) := loop fuel' (S attempt) (Some e) in
            (EvOperation attempt :: hook ++
               EvRetry e (S attempt) :: EvSleep (delayFor e) :: evs, r)
      end
  end.

(** the loop entered at [attempt] (iterations [attempt .. maxRetries]) *)
Definition loopFrom (attempt : nat) (lastError : option BitrixErrorDetails) :=
  loop (S (maxRetries options) - attempt) attempt lastError.

Definition handleWithRetry : list Event * Result T := loopFrom 0%nat None.
End Loop.

End ErrorHandler.

(** ** auth/oauth2.ts *)

Record TokenResponse := {
  access_token : option string;
  refresh_token : option string;
  expires_in : option Z;
  scope : option string;
  domain : option string;
  server_endpoint : option string
}.

Module BitrixOAuth2.

(** A JSON object of the token endpoint, read either as an error
    ([error], [error_description]) or as a token envelope. *)
Record JsonObject := {
  j_error : option string;
  j_error_description : option string;
  j_tokens : TokenResponse
}.

(** [Unparseable m]: reading the body raised an exception with message
    [m] ([JSON.parse] failed, or the value was [null]). *)
Inductive Body :=
| Unparseable (m : string)
| Parsed (o : JsonObject).

Record HttpResponse := {
  ok : bool;
  status : Z;
  statusText : string;
  body : Body
}.

(** what [await fetch(...)] yields *)
Inductive Fetched :=
| FetchFailed (m : string)
| FetchResponse (r : HttpResponse).

(** the settled value of the promise of [refreshToken]; an [Err] is an
    [Error] with that message *)
Inductive Settled :=
| Ok (t : TokenResponse)
| Err (m : string).

(** [errorJson.error_description || errorJson.error || errorMessage] *)
Definition pickMessage (o : JsonObject) (dflt : string) : string :=
  orStr (j_error_description o) (orStr (j_error o) dflt).

Definition reauthMessage : string :=
  "Refresh token expired or invalid. Re-authentication required.".

(** [refreshToken] after the [fetch] has settled *)
Definition refreshToken (f : Fetched) : Settled :=
  match f with
  | FetchFailed m => Err m
  | FetchResponse r =>
      if negb (ok r) then
        let errorMessage := "Token refresh failed" in
        let wrapped := errorMessage +:+ ": " +:+ pretty (status r) +:+ " " +:+ statusText r in
        match body r with
        | Unparseable m =>
            if includes m "Re-authentication required" then Err m else Err wrapped
        | Parsed o =>
            if bool_decide (j_error o = Some "invalid_grant")
            then (* thrown inside [try], caught, recognised and rethrown *)
              if includes reauthMessage "Re-authentication required"
              then Err reauthMessage
              else Err (pickMessage o errorMessage +:+ ": " +:+ pretty (status r) +:+ " " +:+ statusText r)
            else Err (pickMessage o errorMessage)
        end
      else
        match body r with
        | Unparseable m => Err m
        | Parsed o =>
            let t := j_tokens o in
            if negb (truthyStr (access_token t)) || negb (truthyNum (expires_in t))
            then Err "Invalid refresh token response from server"
            else Ok t
        end
  end.

(** [exchangeCodeForToken] after the [fetch] has settled; its [catch] has
    no binding, every exception of the [try] gets the status appended *)
Definition exchangeCodeForToken (f : Fetched) : Settled :=
  match f with
  | FetchFailed m => Err m
  | FetchResponse r =>
      if negb (ok r) then
        let errorMessage := "Token exchange failed" in
        match body r with
        | Unparseable _ =>
            Err (errorMessage +:+ ": " +:+ pretty (status r) +:+ " " +:+ statusText r)
        | Parsed o => Err (pickMessage o errorMessage)
        end
      else
        match body r with
        | Unparseable m => Err m
        | Parsed o =>
            let t := j_tokens o in
            if negb (truthyStr (access_token t)) || negb (truthyNum (expires_in t))
            then Err "Invalid token response from server"
            else Ok t
        end
  end.

(** [handleCallback(code, redirectUri)]: the exchange, whatever the
    redirect URI *)
Definition handleCallback (f : Fetched) : Settled := exchangeCodeForToken f.

End BitrixOAuth2.

(** ** auth/token-manager.ts *)
Module TokenManager.
Import BitrixOAuth2.

Inductive PromiseState :=
| Pending
| Fulfilled (t : TokenResponse)
| RejectedWith (m : string).

Inductive Event :=
| EvTokenRefreshed (t : TokenResponse)   (* events.onTokenRefreshed *)
| EvTokenExpired                         (* events.onTokenExpired *)
| EvRefreshFailed (m : string)           (* events.onRefreshFailed *)
| EvNetworkRefresh (refreshTok : string) (* oauth.refreshToken(...) issues its fetch *).

(** The object's fields, then the bookkeeping of the event loop: the
    promises created by [refreshTokens()] (a promise is named by its
    index) and the trace of hooks and network calls. *)
Record t := {
  tokens : option TokenResponse;
  tokenIssuedAt : option Z;
  refreshPromise : option nat;
  promises : list PromiseState;
  trace : list Event
}.

Inductive Result :=
| Return (accessToken : option string)
| Throw (m : string).

(** an [async] call either has finished or is suspended on a promise *)
Inductive Step :=
| Done (r : Result)
| Await (p : nat).

(** [Math.floor(Date.now() / 1000)] *)
Definition seconds (nowMs : Z) : Z := nowMs / 1000.

Definition isNetworkRefresh (e : Event) : bool :=
  match e with
  | EvNetworkRefresh _ => true
  | _ => false
  end.

(** how many times [oauth.refreshToken] has been called so far *)
Definition networkRefreshes (tm : t) : nat :=
  length (List.filter isNetworkRefresh (trace tm)).

Definition isTokenExpired (marginMinutes : Z) (tm : t) (nowMs : Z) : bool :=
  match tokens tm, tokenIssuedAt tm with
  | Some tk, Some issued =>
      if issued =? 0 then true              (* !this.tokenIssuedAt *)
      else
        let now := seconds nowMs in
        let marginSeconds := marginMinutes * 60 in
        match expires_in tk with
        | Some e => (issued + e - marginSeconds <=? now)
        | None => false                     (* NaN <= now *)
        end
  | _, _ => true
  end.

Definition isTokenExpiringSoon (tm : t) (nowMs : Z) : bool :=
  isTokenExpired 5 tm nowMs.

Definition hasTokens (tm : t) : bool := bool_decide (tokens tm <> None).

Definition hasValidTokens (tm : t) (nowMs : Z) : bool :=
  match tokens tm with
  | None => false
  | Some _ => negb (isTokenExpired 60 tm nowMs)
  end.

(** [validateTokenStructure]: [None] when it returns, [Some m] when it
    throws [Error(m)]. [expires_in] is a number or missing. *)
Definition validateTokenStructure (tk : TokenResponse) : option string :=
  let missing :=
    ((if truthyStr (access_token tk) then [] else ["access_token"]) ++
     (if truthyNum (expires_in tk) then [] else ["expires_in"]) ++
     (if truthyStr (domain tk) then [] else ["domain"]))%list in
  match missing with
  | _ :: _ =>
      Some ("Invalid token structure. Missing fields: " +:+ String.concat ", " missing)
  | [] =>
      match expires_in tk with
      | Some e => if e <=? 0 then Some "Invalid expires_in value in token response" else None
      | None => Some "Invalid expires_in value in token response"
      end
  end.

(** [setTokens]: the exception, if any, and the object afterwards *)
Definition setTokens (tk : TokenResponse) (nowMs : Z) (tm : t) : option string * t :=
  match validateTokenStructure tk with
  | Some m => (Some m, tm)
  | None =>
      (None, {| tokens := Some tk;
                tokenIssuedAt := Some (seconds nowMs);
                refreshPromise := refreshPromise tm;
                promises := promises tm;
                trace := trace tm |})
  end.

(** [new TokenManager(oauth, tokens)]: the exception of [setTokens], if
    any, and the object *)
Definition create (tk : option TokenResponse) (nowMs : Z) : option string * t :=
  let fresh :=
    {| tokens := None; tokenIssuedAt := None; refreshPromise := None;
       promises := []; trace := [] |} in
  match tk with
  | Some tk => setTokens tk nowMs fresh
  | None => (None, fresh)
  end.

Definition clearTokens (tm : t) : t :=
  {| tokens := None; tokenIssuedAt := None; refreshPromise := None;
     promises := promises tm; trace := trace tm |}.

(** [refreshTokens()] up to its [await]: the promise it returns, and the
    object afterwards. *)
Definition refreshTokens_start (tm : t) : nat * t :=
  let p := length (promises tm) in
  match tokens tm with
  | Some tk =>
      match refresh_token tk with
      | Some r =>
          if truthyStr (Some r) then
            (p, {| tokens := tokens tm; tokenIssuedAt := tokenIssuedAt tm;
                   refreshPromise := refreshPromise tm;
                   promises := promises tm ++ [Pending];
                   trace := trace tm ++ [EvNetworkRefresh r] |})
          else
            (p, {| tokens := tokens tm; tokenIssuedAt := tokenIssuedAt tm;
                   refreshPromise := refreshPromise tm;
                   promises := promises tm ++ [RejectedWith "No refresh token available"];
                   trace := trace tm |})
      | None =>
          (p, {| tokens := tokens tm; tokenIssuedAt := tokenIssuedAt tm;
                 refreshPromise := refreshPromise tm;
                 promises := promises tm ++ [RejectedWith "No refresh token available"];
                 trace := trace tm |})
      end
  | None =>
      (p, {| tokens := tokens tm; tokenIssuedAt := tokenIssuedAt tm;
             refreshPromise := refreshPromise tm;
             promises := promises tm ++ [RejectedWith "No refresh token available"];
             trace := trace tm |})
  end.

Definition settlePromise (p : nat) (s : PromiseState) (tm : t) : t :=
  {| tokens := tokens tm; tokenIssuedAt := tokenIssuedAt tm;
     refreshPromise := refreshPromise tm;
     promises := <[p := s]> (promises tm);
     trace := trace tm |}.

(** [refreshTokens()] after [await this.oauth.refreshToken(...)] has
    settled with [s]: the rest of the [try] or the [catch]. Promise [p]
    is the one [refreshTokens_start] returned. *)
Definition refreshTokens_resume (p : nat) (s : Settled) (nowMs : Z) (tm : t) : t :=
  match promises tm !! p with
  | Some Pending =>
      match s with
      | Ok newTokens =>
          settlePromise p (Fulfilled newTokens)
            {| tokens := tokens tm; tokenIssuedAt := Some (seconds nowMs);
               refreshPromise := refreshPromise tm;
               promises := promises tm; trace := trace tm |}
      | Err m =>
          if includes m "invalid_grant" then
            settlePromise p (RejectedWith "Refresh token expired. Re-authentication required.")
              (clearTokens tm)
          else settlePromise p (RejectedWith m) tm
      end
  | _ => tm
  end.

Definition withRefreshPromise (rp : option nat) (tm : t) : t :=
  {| tokens := tokens tm; tokenIssuedAt := tokenIssuedAt tm;
     refreshPromise := rp; promises := promises tm; trace := trace tm |}.

Definition logEvent (e : Event) (tm : t) : t :=
  {| tokens := tokens tm; tokenIssuedAt := tokenIssuedAt tm;
     refreshPromise := refreshPromise tm; promises := promises tm;
     trace := trace tm ++ [e] |}.

(** [getValidToken()] up to its [await] *)
Definition getValidToken_start (nowMs : Z) (tm : t) : Step * t :=
  match tokens tm with
  | None => (Done (Throw "No tokens available. Please authorize first."), tm)
  | Some tk =>
      if isTokenExpiringSoon tm nowMs then
        if negb (truthyStr (refresh_token tk)) then
          (Done (Throw "Access token expired and no refresh token available. Re-authentication required."),
           logEvent EvTokenExpired tm)
        else
          match refreshPromise tm with
          | Some p => (Await p, tm)
          | None =>
              let '(p, tm1) := refreshTokens_start tm in
              (Await p, withRefreshPromise (Some p) tm1)
          end
      else (Done (Return (access_token tk)), tm)
  end.

(** [getValidToken()] from [await this.refreshPromise] on, once promise
    [p] is settled; while it is pending the call stays suspended. *)
Definition getValidToken_resume (p : nat) (tm : t) : Step * t :=
  match promises tm !! p with
  | Some (Fulfilled newTokens) =>
      let tm1 :=
        {| tokens := Some newTokens; tokenIssuedAt := tokenIssuedAt tm;
           refreshPromise := refreshPromise tm; promises := promises tm;
           trace := trace tm |} in
      let tm2 := logEvent (EvTokenRefreshed newTokens) tm1 in
      (Done (Return (access_token newTokens)), withRefreshPromise None tm2)
  | Some (RejectedWith m) =>
      (Done (Throw m), withRefreshPromise None (logEvent (EvRefreshFailed m) tm))
  | _ => (Await p, tm)
  end.

(** [n] callers enter one after the other, at the given instants. *)
Fixpoint startAll (times : list Z) (tm : t) : list Step * t :=
  match times with
  | [] => ([], tm)
  | now :: rest =>
      let '(s, tm1) := getValidToken_start now tm in
      let '(ss, tm2) := startAll rest tm1 in
      (s :: ss, tm2)
  end.

(** the suspended callers are resumed in the order in which they awaited *)
Fixpoint resumeAll (steps : list Step) (tm : t) : list Step * t :=
  match steps with
  | [] => ([], tm)
  | Done r :: rest =>
      let '(ss, tm1) := resumeAll rest tm in (Done r :: ss, tm1)
  | Await p :: rest =>
      let '(s, tm1) := getValidToken_resume p tm in
      let '(ss, tm2) := resumeAll rest tm1 in
      (s :: ss, tm2)
  end.

(** [getTokenExpiresIn()]; [None] is [NaN], the result when the held
    envelope has no [expires_in] *)
Definition getTokenExpiresIn (tm : t) (nowMs : Z) : option Z :=
  match tokens tm, tokenIssuedAt tm with
  | Some tk, Some issued =>
      if issued =? 0 then Some 0
      else
        let now := seconds nowMs in
        match expires_in tk with
        | Some e => Some (Z.max 0 (issued + e - now))
        | None => None
        end
  | _, _ => Some 0
  end.

End TokenManager.

(** ** rateLimiter/rateLimiter.ts *)
Module BitrixRateLimiter.

Inductive BackoffStrategy := linear | exponential.

Record RateLimitConfig := {
  maxRequestsPerSecond : Z;
  burstLimit : Z;
  maxOperatingTimePerWindow : Z;
  operatingTimeWindow : Z;
  enableRetry : bool;
  maxRetries : Z;
  retryBackoffStrategy : BackoffStrategy;
  retryBaseDelay : Z;
  enableQueueing : bool;
  maxQueueSize : Z;
  queueTimeout : Z
}.

(** [operatingWindowStart] is the field [operatingTimeWindow] of
    [RateLimitState] (the name is taken by the configuration). Instants
    obtained as [Date.now() / 1000] are rationals. *)
Record RateLimitState := {
  requestCounter : Z;
  lastRequestTime : Z;
  operatingTimeUsed : Q;
  operatingWindowStart : Q;
  operatingResetAt : option Z;
  blockedMethods : gset string;
  isBlocked : bool
}.

(** [params], [resolve] and [reject] are closures of the caller; the
    trace records when they are invoked, under the request's [id]. *)
Record QueuedRequest := {
  reqId : string;
  method : string;
  priority : Z;
  timestamp : Z;
  retryCount : Z
}.

(** what the unit of work settles with: a result, of which the limiter
    reads [time.operating] and [time.operating_reset_at], or an [Error] *)
Inductive Outcome :=
| Success (operating : option Q) (operating_reset_at : option Z)
| Failure (msg : string).

Inductive Event :=
| EvDispatched (id : string)                (* request.params() is called *)
| EvResolved (id : string)                  (* request.resolve(result) *)
| EvRejected (id : string) (msg : string)   (* request.reject(new Error(msg)) *)
| EvRetryIn (id : string) (delay : Z)       (* setTimeout(re-enqueue, delay) *)
| EvSleep (ms : option Z).                  (* await sleep(ms); None is Infinity *)

(** where a call of [processQueue] is suspended *)
Inductive LoopCont :=
| AwaitWait                 (* at [await this.waitForAvailability(...)] *)
| AwaitExec (p : nat).      (* at [await this.executeQueuedRequest(...)] *)

(** The object's fields, then the bookkeeping of the event loop: the
    suspended calls of [processQueue], the units of work in flight (each
    with the promise of its [executeQueuedRequest]), the pending retry
    timers, and the trace. *)
Record t := {
  config : RateLimitConfig;
  state : RateLimitState;
  requestQueue : list QueuedRequest;
  processingQueue : bool;
  counterDecreaseInterval : bool;
  loops : list LoopCont;
  running : list (nat * QueuedRequest);
  timers : list QueuedRequest;
  nextPromise : nat;
  trace : list Event
}.

Definition defaultConfig : RateLimitConfig :=
  {| maxRequestsPerSecond := 2; burstLimit := 50;
     maxOperatingTimePerWindow := 480; operatingTimeWindow := 600;
     enableRetry := true; maxRetries := 3;
     retryBackoffStrategy := exponential; retryBaseDelay := 1000;
     enableQueueing := true; maxQueueSize := 1000; queueTimeout := 300000 |}.

(** [new BitrixRateLimiter(config)] at instant [nowMs] *)
Definition create (cfg : RateLimitConfig) (nowMs : Z) : t :=
  {| config := cfg;
     state := {| requestCounter := 0; lastRequestTime := nowMs;
                 operatingTimeUsed := 0%Q; operatingWindowStart := inject_Z nowMs;
                 operatingResetAt := None; blockedMethods := ∅;
                 isBlocked := false |};
     requestQueue := []; processingQueue := false;
     counterDecreaseInterval := true;
     loops := []; running := []; timers := []; nextPromise := 0%nat; trace := [] |}.

(** *** Field updates *)

Definition setBlocked (b : bool) (st : RateLimitState) : RateLimitState :=
  {| requestCounter := requestCounter st; lastRequestTime := lastRequestTime st;
     operatingTimeUsed := operatingTimeUsed st;
     operatingWindowStart := operatingWindowStart st;
     operatingResetAt := operatingResetAt st;
     blockedMethods := blockedMethods st; isBlocked := b |}.

Definition setReset (r : option Z) (st : RateLimitState) : RateLimitState :=
  {| requestCounter := requestCounter st; lastRequestTime := lastRequestTime st;
     operatingTimeUsed := operatingTimeUsed st;
     operatingWindowStart := operatingWindowStart st;
     operatingResetAt := r;
     blockedMethods := blockedMethods st; isBlocked := isBlocked st |}.

Definition setMethods (s : gset string) (st : RateLimitState) : RateLimitState :=
  {| requestCounter := requestCounter st; lastRequestTime := lastRequestTime st;
     operatingTimeUsed := operatingTimeUsed st;
     operatingWindowStart := operatingWindowStart st;
     operatingResetAt := operatingResetAt st;
     blockedMethods := s; isBlocked := isBlocked st |}.

Definition setCounter (c : Z) (st : RateLimitState) : RateLimitState :=
  {| requestCounter := c; lastRequestTime := lastRequestTime st;
     operatingTimeUsed := operatingTimeUsed st;
     operatingWindowStart := operatingWindowStart st;
     operatingResetAt := operatingResetAt st;
     blockedMethods := blockedMethods st; isBlocked := isBlocked st |}.

Definition setOperating (used start : Q) (st : RateLimitState) : RateLimitState :=
  {| requestCounter := requestCounter st; lastRequestTime := lastRequestTime st;
     operatingTimeUsed := used; operatingWindowStart := start;
     operatingResetAt := operatingResetAt st;
     blockedMethods := blockedMethods st; isBlocked := isBlocked st |}.

Definition withState (st : RateLimitState) (w : t) : t :=
  {| config := config w; state := st; requestQueue := requestQueue w;
     processingQueue := processingQueue w;
     counterDecreaseInterval := counterDecreaseInterval w;
     loops := loops w; running := running w; timers := timers w;
     nextPromise := nextPromise w; trace := trace w |}.

Definition withConfig (cfg : RateLimitConfig) (w : t) : t :=
  {| config := cfg; state := state w; requestQueue := requestQueue w;
     processingQueue := processingQueue w;
     counterDecreaseInterval := counterDecreaseInterval w;
     loops := loops w; running := running w; timers := timers w;
     nextPromise := nextPromise w; trace := trace w |}.

Definition withQueue (q : list QueuedRequest) (w : t) : t :=
  {| config := config w; state := state w; requestQueue := q;
     processingQueue := processingQueue w;
     counterDecreaseInterval := counterDecreaseInterval w;
     loops := loops w; running := running w; timers := timers w;
     nextPromise := nextPromise w; trace := trace w |}.

Definition withProcessing (b : bool) (w : t) : t :=
  {| config := config w; state := state w; requestQueue := requestQueue w;
     processingQueue := b;
     counterDecreaseInterval := counterDecreaseInterval w;
     loops := loops w; running := running w; timers := timers w;
     nextPromise := nextPromise w; trace := trace w |}.

Definition withLoops (l : list LoopCont) (w : t) : t :=
  {| config := config w; state := state w; requestQueue := requestQueue w;
     processingQueue := processingQueue w;
     counterDecreaseInterval := counterDecreaseInterval w;
     loops := l; running := running w; timers := timers w;
     nextPromise := nextPromise w; trace := trace w |}.

Definition withRunning (r : list (nat * QueuedRequest)) (n : nat) (w : t) : t :=
  {| config := config w; state := state w; requestQueue := requestQueue w;
     processingQueue := processingQueue w;
     counterDecreaseInterval := counterDecreaseInterval w;
     loops := loops w; running := r; timers := timers w;
     nextPromise := n; trace := trace w |}.

Definition withTimers (l : list QueuedRequest) (w : t) : t :=
  {| config := config w; state := state w; requestQueue := requestQueue w;
     processingQueue := processingQueue w;
     counterDecreaseInterval := counterDecreaseInterval w;
     loops := loops w; running := running w; timers := l;
     nextPromise := nextPromise w; trace := trace w |}.

Definition emit (evs : list Event) (w : t) : t :=
  {| config := config w; state := state w; requestQueue := requestQueue w;
     processingQueue := processingQueue w;
     counterDecreaseInterval := counterDecreaseInterval w;
     loops := loops w; running := running w; timers := timers w;
     nextPromise := nextPromise w; trace := trace w ++ evs |}.

Definition stopInterval (w : t) : t :=
  {| config := config w; state := state w; requestQueue := requestQueue w;
     processingQueue := processingQueue w;
     counterDecreaseInterval := false;
     loops := loops w; running := running w; timers := timers w;
     nextPromise := nextPromise w; trace := trace w |}.

Definition setPlan (rate burst : Z) (cfg : RateLimitConfig) : RateLimitConfig :=
  {| maxRequestsPerSecond := rate; burstLimit := burst;
     maxOperatingTimePerWindow := maxOperatingTimePerWindow cfg;
     operatingTimeWindow := operatingTimeWindow cfg;
     enableRetry := enableRetry cfg; maxRetries := maxRetries cfg;
     retryBackoffStrategy := retryBackoffStrategy cfg;
     retryBaseDelay := retryBaseDelay cfg;
     enableQueueing := enableQueueing cfg; maxQueueSize := maxQueueSize cfg;
     queueTimeout := queueTimeout cfg |}.

Definition setEnterprisePlan (w : t) : t := withConfig (setPlan 5 250 (config w)) w.
Definition setStandardPlan (w : t) : t := withConfig (setPlan 2 50 (config w)) w.

(** *** canMakeRequest *)

(** [this.state.operatingResetAt && now < this.state.operatingResetAt]
    with [now = Date.now() / 1000]: in exact arithmetic
    [nowMs / 1000 < r] is [nowMs < 1000 * r]. *)
Definition resetPending (st : RateLimitState) (nowMs : Z) : bool :=
  match operatingResetAt st with
  | Some r => negb (r =? 0) && (nowMs <? 1000 * r)
  | None => false
  end.

(** the second half of [canMakeRequest] *)
Definition checkCounter (cfg : RateLimitConfig) (st : RateLimitState)
  : bool * RateLimitState :=
  if burstLimit cfg <=? requestCounter st
  then (false, setBlocked true st)
  else (true, setBlocked false st).

Definition canMakeRequest (cfg : RateLimitConfig) (m : string) (nowMs : Z)
  (st : RateLimitState) : bool * RateLimitState :=
  if bool_decide (m ∈ blockedMethods st) then
    if resetPending st nowMs then (false, st)
    else checkCounter cfg (setReset None (setMethods (blockedMethods st ∖ {[m]}) st))
  else checkCounter cfg st.

(** *** handleResourceLimitExceeded *)

Definition charCode (c : ascii) : nat := Ascii.nat_of_ascii c.

(** [\d] *)
Definition isDigit (c : ascii) : bool :=
  (48 <=? charCode c)%nat && (charCode c <=? 57)%nat.

(** the character class of the pattern (quote, double quote, colon,
    white space), on characters below 256 *)
Definition isSeparator (c : ascii) : bool :=
  let n := charCode c in
  (n =? 39)%nat || (n =? 34)%nat || (n =? 58)%nat ||
  (n =? 32)%nat || ((9 <=? n)%nat && (n <=? 13)%nat) || (n =? 160)%nat.

Fixpoint skipSeparators (s : string) : string :=
  match s with
  | String c r => if isSeparator c then skipSeparators r else s
  | EmptyString => EmptyString
  end.

(** [parseInt] of the longest run of digits that starts [s]; [acc] is
    the value read so far, [None] while no digit has been seen *)
Fixpoint digitsValue (s : string) (acc : option Z) : option Z :=
  match s with
  | String c r =>
      if isDigit c
      then digitsValue r (Some (10 * default 0 acc + Z.of_nat (charCode c - 48)))
      else acc
  | EmptyString => acc
  end.

Fixpoint stripPrefix (p s : string) : option string :=
  match p, s with
  | EmptyString, _ => Some s
  | String a p', String b s' => if Ascii.eqb a b then stripPrefix p' s' else None
  | String _ _, EmptyString => None
  end.

(** [parseInt] of the digits captured by the pattern of
    [error.message.match]: the literal operating_reset_at, any number of
    separators, one or more digits. [None] when the pattern does not
    match; otherwise the leftmost match counts. *)
Fixpoint matchResetAt (s : string) : option Z :=
  let here :=
    match stripPrefix "operating_reset_at" s with
    | Some rest => digitsValue (skipSeparators rest) None
    | None => None
    end in
  match here with
  | Some n => Some n
  | None =>
      match s with
      | String _ r => matchResetAt r
      | EmptyString => None
      end
  end.

Definition handleResourceLimitExceeded (m : string) (msg : string)
  (st : RateLimitState) : RateLimitState :=
  let st1 := setMethods (blockedMethods st ∪ {[m]}) st in
  match matchResetAt msg with
  | Some r => setReset (Some r) st1
  | None => st1
  end.

(** *** processResponseTimeInfo *)

Definition truthyQ (q : option Q) : bool :=
  match q with
  | Some q => negb (Qeq_bool q 0)
  | None => false
  end.

Definition processResponseTimeInfo (cfg : RateLimitConfig) (operating : option Q)
  (reset : option Z) (nowMs : Z) (st : RateLimitState) : RateLimitState :=
  match operating with
  | Some operatingTime =>
      if truthyQ operating then
        let now := (inject_Z nowMs / 1000)%Q in
        let st1 :=
          if negb (Qle_bool (now - operatingWindowStart st) (inject_Z (operatingTimeWindow cfg)))
          then setOperating 0%Q now st
          else st in
        let st2 := setOperating (operatingTimeUsed st1 + operatingTime)%Q
                                (operatingWindowStart st1) st1 in
        if truthyNum reset then setReset reset st2 else st2
      else st
  | None => st
  end.

(** *** waitForAvailability, up to its [await]: the sleep it starts *)

(** [Math.ceil(1000 / maxRequestsPerSecond)]; [None] is [Infinity] *)
Definition baseDelay (cfg : RateLimitConfig) : option Z :=
  if maxRequestsPerSecond cfg =? 0 then None
  else Some (- ((-1000) / maxRequestsPerSecond cfg)).

Definition waitForAvailability (cfg : RateLimitConfig) (m : string) (nowMs : Z)
  (st : RateLimitState) : list Event :=
  let waitTime :=
    match operatingResetAt st with
    | Some r =>
        if bool_decide (m ∈ blockedMethods st) && negb (r =? 0)
        then Z.max 0 (1000 * r - nowMs) else 0
    | None => 0
    end in
  if 0 <? waitTime then [EvSleep (Some waitTime)]
  else if isBlocked st then [EvSleep (baseDelay cfg)]
  else [].

(** *** Counter *)

Definition incrementCounter (nowMs : Z) (st : RateLimitState) : RateLimitState :=
  {| requestCounter := requestCounter st + 1; lastRequestTime := nowMs;
     operatingTimeUsed := operatingTimeUsed st;
     operatingWindowStart := operatingWindowStart st;
     operatingResetAt := operatingResetAt st;
     blockedMethods := blockedMethods st; isBlocked := isBlocked st |}.

(** one firing of the interval started by [startCounterDecrease] *)
Definition counterDecrease (cfg : RateLimitConfig) (st : RateLimitState) : RateLimitState :=
  let st1 :=
    if 0 <? requestCounter st
    then setCounter (Z.max 0 (requestCounter st - maxRequestsPerSecond cfg)) st
    else st in
  if requestCounter st1 =? 0 then setBlocked false st1 else st1.

Definition calculateRetryDelay (cfg : RateLimitConfig) (retries : Z) : Z :=
  match retryBackoffStrategy cfg with
  | exponential => retryBaseDelay cfg * 2 ^ retries
  | linear => retryBaseDelay cfg * (retries + 1)
  end.

(** *** The queue *)

(** the comparator given to [sort]:
    [b.priority - a.priority || a.timestamp - b.timestamp] *)
Definition compareFn (a b : QueuedRequest) : Z :=
  if priority b - priority a =? 0 then timestamp a - timestamp b
  else priority b - priority a.

(** [Array.prototype.sort] is stable: an element goes in front of the
    first element that must not precede it, and behind its equals. *)
Fixpoint insertSorted (x : QueuedRequest) (l : list QueuedRequest) : list QueuedRequest :=
  match l with
  | [] => [x]
  | y :: l' => if compareFn x y <? 0 then x :: y :: l' else y :: insertSorted x l'
  end.

(** stable sort of [l]; [l] is given last element first *)
Fixpoint sortRev (l : list QueuedRequest) : list QueuedRequest :=
  match l with
  | [] => []
  | x :: l' => insertSorted x (sortRev l')
  end.

Definition sort (l : list QueuedRequest) : list QueuedRequest := sortRev (rev l).

Definition expired (cfg : RateLimitConfig) (nowMs : Z) (r : QueuedRequest) : bool :=
  queueTimeout cfg <? nowMs - timestamp r.

Definition cleanupExpiredRequests (nowMs : Z) (w : t) : t :=
  let expiredRequests := List.filter (expired (config w) nowMs) (requestQueue w) in
  let w1 := emit (map (fun r => EvRejected (reqId r) "Request expired in queue") expiredRequests) w in
  withQueue (List.filter (fun r => negb (expired (config w) nowMs r)) (requestQueue w)) w1.

Definition addToQueue (request : QueuedRequest) (nowMs : Z) (w : t) : t :=
  if maxQueueSize (config w) <=? Z.of_nat (length (requestQueue w)) then
    emit [EvRejected (reqId request) "Rate limiter queue is full. Try again later."] w
  else
    cleanupExpiredRequests nowMs (withQueue (sort (requestQueue w ++ [request])) w).

(** *** executeQueuedRequest *)

(** up to [await request.params()]: the promise of this call, and the
    limiter afterwards *)
Definition executeQueuedRequest_start (request : QueuedRequest) (nowMs : Z) (w : t)
  : nat * t :=
  let p := nextPromise w in
  let w1 := withState (incrementCounter nowMs (state w)) w in
  let w2 := emit [EvDispatched (reqId request)] w1 in
  (p, withRunning (running w2 ++ [(p, request)]) (S p) w2).

Definition bumpRetry (r : QueuedRequest) : QueuedRequest :=
  {| reqId := reqId r; method := method r; priority := priority r;
     timestamp := timestamp r; retryCount := retryCount r + 1 |}.

Definition handleRequestError (request : QueuedRequest) (msg : string) (w : t) : t :=
  let rateLimited := includes msg "QUERY_LIMIT_EXCEEDED" || includes msg "503" in
  let w1 := if rateLimited then withState (setBlocked true (state w)) w else w in
  if rateLimited && enableRetry (config w) && (retryCount request <? maxRetries (config w))
  then
    let delay := calculateRetryDelay (config w) (retryCount request) in
    emit [EvRetryIn (reqId request) delay] (withTimers (timers w1 ++ [request]) w1)
  else
    let w2 :=
      if includes msg "operating_reset_at"
      then withState (handleResourceLimitExceeded (method request) msg (state w1)) w1
      else w1 in
    emit [EvRejected (reqId request) msg] w2.

(** from the [await] on, once the unit of work has settled with [o] *)
Definition executeQueuedRequest_resume (request : QueuedRequest) (o : Outcome)
  (nowMs : Z) (w : t) : t :=
  match o with
  | Success operating reset =>
      emit [EvResolved (reqId request)]
        (withState (processResponseTimeInfo (config w) operating reset nowMs (state w)) w)
  | Failure msg => handleRequestError request msg w
  end.

(** *** processQueue *)

(** how the [while] loop leaves the synchronous part of an iteration *)
Inductive DrainStop :=
| LoopExit                          (* the queue is empty *)
| LoopWait                          (* await waitForAvailability *)
| LoopExecute (r : QueuedRequest).  (* shift, then await executeQueuedRequest *)

(** The [while] loop up to its next [await], on queue [q]: the events,
    the queue and state left, and where it stops. *)
Fixpoint drain (cfg : RateLimitConfig) (nowMs : Z) (q : list QueuedRequest)
  (st : RateLimitState) : list Event * list QueuedRequest * RateLimitState * DrainStop :=
  match q with
  | [] => ([], [], st, LoopExit)
  | request :: q' =>
      if expired cfg nowMs request then
        let '(evs, q2, st2, stop) := drain cfg nowMs q' st in
        (EvRejected (reqId request) "Request timeout in queue" :: evs, q2, st2, stop)
      else
        let '(ok, st1) := canMakeRequest cfg (method request) nowMs st in
        if ok then ([], q', st1, LoopExecute request)
        else (waitForAvailability cfg (method request) nowMs st1, q, st1, LoopWait)
  end.

(** a call of [processQueue] runs from the test of the [while] to its
    next [await], or to the end *)
Definition processQueue_loop (nowMs : Z) (w : t) : t :=
  let '(evs, q, st, stop) := drain (config w) nowMs (requestQueue w) (state w) in
  let w1 := emit evs (withQueue q (withState st w)) in
  match stop with
  | LoopExit => withProcessing false w1
  | LoopWait => withLoops (loops w1 ++ [AwaitWait]) w1
  | LoopExecute request =>
      let '(p, w2) := executeQueuedRequest_start request nowMs w1 in
      withLoops (loops w2 ++ [AwaitExec p]) w2
  end.

Definition processQueue (nowMs : Z) (w : t) : t :=
  if processingQueue w || bool_decide (requestQueue w = []) then w
  else processQueue_loop nowMs (withProcessing true w).

(** *** executeRequest, destroy *)

Definition executeRequest (id m : string) (prio : Z) (nowMs : Z) (w : t) : t :=
  let queuedRequest :=
    {| reqId := id; method := m; priority := prio; timestamp := nowMs; retryCount := 0 |} in
  if enableQueueing (config w) then
    processQueue nowMs (addToQueue queuedRequest nowMs w)
  else
    snd (executeQueuedRequest_start queuedRequest nowMs w).

Definition destroy (w : t) : t :=
  let w1 := if counterDecreaseInterval w then stopInterval w else w in
  withQueue []
    (emit (map (fun r => EvRejected (reqId r) "Rate limiter destroyed") (requestQueue w1)) w1).

(** *** The event loop *)

(** What can happen next; each runs to completion at one instant. *)
Inductive Label :=
| CallExecuteRequest (id m : string) (prio : Z)
| CallCanMakeRequest (m : string)
| CallSetEnterprisePlan
| CallSetStandardPlan
| CallDestroy
| Settle (k : nat) (o : Outcome)   (* the k-th unit of work in flight settles *)
| Resume (k : nat)                 (* the k-th suspended processQueue continues *)
| Timer (k : nat)                  (* the k-th retry timer fires *)
| Tick.                            (* the decay interval fires *)

(** may the suspended loop go on: its sleep is over, or the
    [executeQueuedRequest] it awaits has finished *)
Definition runnable (c : LoopCont) (w : t) : bool :=
  match c with
  | AwaitWait => true
  | AwaitExec p => negb (existsb (fun pr => Nat.eqb (fst pr) p) (running w))
  end.

Definition step (nowMs : Z) (l : Label) (w : t) : t :=
  match l with
  | CallExecuteRequest id m prio => executeRequest id m prio nowMs w
  | CallCanMakeRequest m =>
      withState (snd (canMakeRequest (config w) m nowMs (state w))) w
  | CallSetEnterprisePlan => setEnterprisePlan w
  | CallSetStandardPlan => setStandardPlan w
  | CallDestroy => destroy w
  | Settle k o =>
      match running w !! k with
      | Some (p, request) =>
          executeQueuedRequest_resume request o nowMs
            (withRunning (delete k (running w)) (nextPromise w) w)
      | None => w
      end
  | Resume k =>
      match loops w !! k with
      | Some c =>
          if runnable c w
          then processQueue_loop nowMs (withLoops (delete k (loops w)) w)
          else w
      | None => w
      end
  | Timer k =>
      match timers w !! k with
      | Some request =>
          processQueue nowMs
            (addToQueue (bumpRetry request) nowMs (withTimers (delete k (timers w)) w))
      | None => w
      end
  | Tick =>
      if counterDecreaseInterval w
      then withState (counterDecrease (config w) (state w)) w
      else w
  end.

(** a schedule: what happens, and when *)
Fixpoint run (sched : list (Z * Label)) (w : t) : t :=
  match sched with
  | [] => w
  | (now, l) :: rest => run rest (step now l w)
  end.

(** the ids of the units of work, in the order of their dispatch *)
Fixpoint serviceOrder (tr : list Event) : list string :=
  match tr with
  | [] => []
  | EvDispatched id :: rest => id :: serviceOrder rest
  | _ :: rest => serviceOrder rest
  end.

(** the order the invariant of the queue speaks of *)
Definition queueOrder (a b : QueuedRequest) : Prop :=
  priority b < priority a \/ (priority a = priority b /\ timestamp a <= timestamp b).

End BitrixRateLimiter.

(** ** client/BitrixClient.ts: the parts of [BitrixSDK] around the core *)
Module BitrixSDK.

(** The [catch] of [apiCall]: a [BitrixError] passes; any other value is
    given to [mapHttpResponse] as the body of a response with status 500.
    An [Error] is an object without an [error] property. *)
Definition toBitrixError (t : ErrorHandler.Thrown) : BitrixErrorDetails :=
  match t with
  | ErrorHandler.ThrownBitrix e => e
  | ErrorHandler.ThrownOther _ =>
      ErrorMapper.mapHttpResponse 500 (ErrorMapper.ObjectBody None None)
  end.

(** the error handler [BitrixSDK] builds in its constructor *)
Definition errorHandlerOptions : ErrorHandler.ErrorHandlerOptions :=
  {| ErrorHandler.maxRetries := 3; ErrorHandler.retryDelay := 1000 |}.

Inductive CallbackResult :=
| Installed (tokens : TokenResponse)   (* events.onAuthSuccess(tokens); return tokens *)
| Failed (m : string).                 (* the error is thrown on *)

(** [handleCallback(code, redirectUri)] once the exchange has settled *)
Definition handleCallback (f : BitrixOAuth2.Fetched) (nowMs : Z) (tm : TokenManager.t)
  : CallbackResult * TokenManager.t :=
  match BitrixOAuth2.handleCallback f with
  | BitrixOAuth2.Err m => (Failed m, tm)
  | BitrixOAuth2.Ok tokens =>
      match TokenManager.setTokens tokens nowMs tm with
      | (Some m, tm1) => (Failed m, tm1)
      | (None, tm1) => (Installed tokens, tm1)
      end
  end.

(** how [ensureAuthenticated] ends *)
Inductive Ensured :=
| Authenticated     (* it returns *)
| Authorizes        (* events.onAuthRequired(); await this.authorize() *)
| AuthRequired.     (* events.onAuthRequired(); throw 'Authentication required...' *)

Inductive EnsureStep :=
| EnsureDone (r : Ensured)
| EnsureAwait (p : nat).   (* suspended in getValidToken, on promise p *)

(** [ensureAuthenticated] from [this.events.onAuthRequired?.()] on *)
Definition noValidTokens (autoAuth : bool) (tm : TokenManager.t)
  : EnsureStep * TokenManager.t :=
  (EnsureDone (if autoAuth then Authorizes else AuthRequired), tm).

(** what follows [await this.tokenManager.getValidToken()] in the [try] *)
Definition afterGetValidToken (autoAuth : bool)
  (r : TokenManager.Step * TokenManager.t) : EnsureStep * TokenManager.t :=
  match r with
  | (TokenManager.Done (TokenManager.Return _), tm1) => (EnsureDone Authenticated, tm1)
  | (TokenManager.Done (TokenManager.Throw _), tm1) =>
      noValidTokens autoAuth (TokenManager.clearTokens tm1)
  | (TokenManager.Await p, tm1) => (EnsureAwait p, tm1)
  end.

(** [ensureAuthenticated()] up to the [await] inside [getValidToken] *)
Definition ensureAuthenticated_start (autoAuth : bool) (nowMs : Z) (tm : TokenManager.t)
  : EnsureStep * TokenManager.t :=
  if TokenManager.hasValidTokens tm nowMs then (EnsureDone Authenticated, tm)
  else if TokenManager.hasTokens tm then
    afterGetValidToken autoAuth (TokenManager.getValidToken_start nowMs tm)
  else noValidTokens autoAuth tm.

(** and from there on, once promise [p] is settled *)
Definition ensureAuthenticated_resume (autoAuth : bool) (p : nat) (tm : TokenManager.t)
  : EnsureStep * TokenManager.t :=
  afterGetValidToken autoAuth (TokenManager.getValidToken_resume p tm).

(** [apiCallRaw]: the guard in front of [apiCall]; [Some m] is the
    exception thrown *)
Definition apiCallRaw_guard (nowMs : Z) (tm : TokenManager.t) : option string :=
  if negb (TokenManager.hasValidTokens tm nowMs)
  then Some "No valid tokens available. Call ensureAuthenticated() first."
  else None.

(** [calls.slice(i, j)] for [i <= j] *)
Definition slice {A : Type} (i j : nat) (calls : list A) : list A :=
  firstn (j - i) (skipn i calls).

Definition chunkSize : nat := 50.

(** the first loop of [batchWithChunking], from index [i] on: the chunks
    it pushes; [fuel] bounds the iterations *)
Fixpoint chunkLoop {A : Type} (fuel i : nat) (calls : list A) : list (list A) :=
  match fuel with
  | O => []
  | S fuel' =>
      if (i <? length calls)%nat
      then slice i (i + chunkSize) calls :: chunkLoop fuel' (i + chunkSize) calls
      else []
  end.

(** no more iterations than calls *)
Definition chunks {A : Type} (calls : list A) : list (list A) :=
  chunkLoop (length calls) 0 calls.

(** [batch]: does it go through [batchWithChunking] *)
Definition batchUsesChunking {A : Type} (rateLimiter : bool) (calls : list A) : bool :=
  rateLimiter && (10 <? length calls)%nat.

End BitrixSDK.

(** * Predicates and scenarios *)

Section ClassificationData.
Import ErrorMapper.

(** The four table entries that are retryable system errors. *)
Definition retryableSystemCodes : list string :=
  ["INTERNAL_SERVER_ERROR"; "ERROR_UNEXPECTED_ANSWER"; "QUERY_LIMIT_EXCEEDED"; "OVERLOAD_LIMIT"].

End ClassificationData.

Section RetryScenarios.
Import ErrorHandler.

(** what the classifier makes of the code [NO_AUTH_FOUND] *)
Definition authFailure : BitrixErrorDetails :=
  ErrorMapper.mapApiError {| error := "NO_AUTH_FOUND"; error_description := None |} 401.

(** an error built by the unit of work itself, retryable and in need of
    authentication *)
Definition retryableAuthFailure : BitrixErrorDetails :=
  {| code := "TOKEN_STALE"; message := "stale"; httpStatus := 401;
     isSystemError := false; isRetryable := true; requiresAuth := true |}.

(** three retries, and a unit of work that always fails with [authFailure] *)
Definition threeRetries : ErrorHandlerOptions := {| maxRetries := 3; retryDelay := 1000 |}.

Definition alwaysUnauthorized : nat -> Outcome unit :=
  fun _ => Threw (ThrownBitrix authFailure).

(** two retries, and a unit of work that fails once with
    [retryableAuthFailure] and then returns 7 *)
Definition twoRetries : ErrorHandlerOptions := {| maxRetries := 2; retryDelay := 1000 |}.

Definition staleOnce : nat -> Outcome Z :=
  fun k => if Nat.eqb k 0 then Threw (ThrownBitrix retryableAuthFailure) else Returned 7.

End RetryScenarios.

Section CredentialScenarios.
Import BitrixOAuth2 TokenManager.

(** a token envelope that [validateTokenStructure] must refuse *)
Definition malformed (tk : TokenResponse) : Prop :=
  truthyStr (access_token tk) = false \/
  truthyStr (domain tk) = false \/
  match expires_in tk with
  | Some e => e <= 0
  | None => True
  end.

(** credentials that live one hour *)
Definition heldTokens : TokenResponse :=
  {| access_token := Some "old-access"; refresh_token := Some "old-refresh";
     expires_in := Some 3600; scope := Some "crm"; domain := Some "example.bitrix24.com";
     server_endpoint := None |}.

(** a manager that received [heldTokens] at second [issued] *)
Definition holding (issued : Z) : TokenManager.t :=
  {| tokens := Some heldTokens; tokenIssuedAt := Some issued;
     refreshPromise := None; promises := []; trace := [] |}.

(** an envelope without [domain] *)
Definition noDomain : TokenResponse :=
  {| access_token := Some "new-access"; refresh_token := Some "new-refresh";
     expires_in := Some 3600; scope := None; domain := None; server_endpoint := None |}.

End CredentialScenarios.

Section RefreshScenarios.
Import BitrixOAuth2 TokenManager.

(** the token endpoint answers a refresh with [invalid_grant] *)
Definition invalidGrant (st : Z) (stText : string) (descr : option string)
  (other : TokenResponse) : Fetched :=
  FetchResponse
    {| ok := false; status := st; statusText := stText;
       body := Parsed {| j_error := Some "invalid_grant";
                         j_error_description := descr; j_tokens := other |} |}.

(** an envelope with nothing in it *)
Definition noTokens : TokenResponse :=
  {| access_token := None; refresh_token := None; expires_in := None;
     scope := None; domain := None; server_endpoint := None |}.

(** the manager of [holding], after a caller at [issued + 3595] has
    started a refresh that the endpoint answers with [invalid_grant] *)
Definition afterInvalidGrant : TokenManager.t :=
  let started := getValidToken_start 1700003595000 (holding 1700000000) in
  refreshTokens_resume 0
    (refreshToken (invalidGrant 400 "Bad Request" (Some "refresh token revoked") noTokens))
    1700003596000 (snd started).

(** the manager once the first caller has started the refresh with
    refresh token [r] *)
Definition refreshing (r : string) (tm : TokenManager.t) : TokenManager.t :=
  {| tokens := tokens tm; tokenIssuedAt := tokenIssuedAt tm;
     refreshPromise := Some (length (promises tm));
     promises := promises tm ++ [Pending];
     trace := trace tm ++ [EvNetworkRefresh r] |}.

(** the error the callers of a failed refresh see *)
Definition refreshFailure (m : string) : string :=
  if includes m "invalid_grant"
  then "Refresh token expired. Re-authentication required."
  else m.

(** the credentials a successful refresh brings *)
Definition refreshedTokens : TokenResponse :=
  {| access_token := Some "new-access"; refresh_token := Some "new-refresh";
     expires_in := Some 3600; scope := Some "crm"; domain := Some "example.bitrix24.com";
     server_endpoint := None |}.

(** three callers within the last second before second [issued + 3596] *)
Definition threeCallers : list Z := [1700003595000; 1700003595200; 1700003595900].

End RefreshScenarios.

Section AdmissionScenarios.
Import BitrixRateLimiter.

(** the failure of a method whose operating time is used up *)
Definition resourceError (resetAt : string) : Outcome :=
  Failure ("Method is blocked due to operation time limit. operating_reset_at: " +:+ resetAt).

(** the default configuration with a burst limit of one *)
Definition burstOne : RateLimitConfig := setPlan 2 1 defaultConfig.

(** Method X is answered resource-exhausted at 1.1 s, to be reset at
    second 121. The decay empties the counter; at 121.5 s a unit for
    another method is dispatched and takes the whole burst of one. *)
Definition busyAfterReset : list (Z * Label) :=
  [ (1000, CallExecuteRequest "x1" "X" 0);
    (1100, Settle 0 (resourceError "121"));
    (1100, Resume 0);
    (2000, Tick);
    (121500, CallExecuteRequest "y1" "Y" 0) ].

(** Method X is blocked as before; at 2.1 s a call of method Y succeeds
    and its answer carries a reset instant of its own, second 10. *)
Definition resetOverwritten : list (Z * Label) :=
  [ (1000, CallExecuteRequest "x1" "X" 0);
    (1100, Settle 0 (resourceError "121"));
    (1100, Resume 0);
    (2000, CallExecuteRequest "y1" "Y" 0);
    (2100, Settle 0 (Success (Some (1 # 10)) (Some 10)));
    (2100, Resume 0) ].

(** queueing disabled, burst limit one *)
Definition inlineConfig : RateLimitConfig :=
  {| maxRequestsPerSecond := 2; burstLimit := 1;
     maxOperatingTimePerWindow := 480; operatingTimeWindow := 600;
     enableRetry := true; maxRetries := 3;
     retryBackoffStrategy := exponential; retryBaseDelay := 1000;
     enableQueueing := false; maxQueueSize := 1000; queueTimeout := 300000 |}.

(** one unit has been submitted and is in flight *)
Definition oneInFlight : BitrixRateLimiter.t :=
  run [(1000, CallExecuteRequest "a" "crm.deal.list" 0)] (create inlineConfig 0).

End AdmissionScenarios.

Section ServiceScenarios.
Import BitrixRateLimiter.

(** three units with priorities 0, 100 and -100, submitted in that order *)
Definition threeUnits : list (Z * Label) :=
  [ (1000, CallExecuteRequest "prio0" "crm.deal.list" 0);
    (1001, CallExecuteRequest "prio100" "crm.deal.list" 100);
    (1002, CallExecuteRequest "prio-100" "crm.deal.list" (-100)) ].

(** the unit in flight succeeds and the drain loop goes on *)
Definition serveOne (nowMs : Z) : list (Z * Label) :=
  [ (nowMs, Settle 0 (Success None None)); (nowMs, Resume 0) ].

(** the three units are submitted to an idle limiter *)
Definition submittedIdle : list (Z * Label) :=
  (threeUnits ++ serveOne 1100 ++ serveOne 1200 ++ serveOne 1300)%list.

(** the three units are submitted while an earlier unit is in flight *)
Definition submittedBusy : list (Z * Label) :=
  ((900, CallExecuteRequest "earlier" "crm.deal.list" 0) :: threeUnits ++
   serveOne 1100 ++ serveOne 1200 ++ serveOne 1300 ++ serveOne 1400)%list.

End ServiceScenarios.

Section DrainLoopInvariant.
Import BitrixRateLimiter.

(** the flag is set exactly while one call of [processQueue] is
    suspended, and no second one ever is *)
Definition loopInv (w : BitrixRateLimiter.t) : Prop :=
  (processingQueue w = false /\ loops w = []) \/
  (processingQueue w = true /\ exists c, loops w = [c]).

End DrainLoopInvariant.

Section FacadeScenarios.
Import BitrixOAuth2 TokenManager.

(** credentials that live a day *)
Definition dayTokens : TokenResponse :=
  {| access_token := Some "day-access"; refresh_token := Some "day-refresh";
     expires_in := Some 86400; scope := Some "crm"; domain := Some "example.bitrix24.com";
     server_endpoint := None |}.

(** a manager that received [dayTokens] at second [issued] *)
Definition holdingDay (issued : Z) : TokenManager.t :=
  {| tokens := Some dayTokens; tokenIssuedAt := Some issued;
     refreshPromise := None; promises := []; trace := [] |}.

(** a manager whose only caller waits for the refresh it has started *)
Definition refreshInFlight : TokenManager.t :=
  snd (getValidToken_start 1700003595000 (holding 1700000000)).

(** when [getValidToken] issues a network refresh: credentials held and
    expiring, a refresh token among them, no refresh in flight *)
Definition startsRefresh (tm : TokenManager.t) (nowMs : Z) : bool :=
  match tokens tm with
  | Some tk =>
      isTokenExpiringSoon tm nowMs && truthyStr (refresh_token tk) &&
      bool_decide (refreshPromise tm = None)
  | None => false
  end.

End FacadeScenarios.

Section RetryMeasures.
Import ErrorHandler.

(** the attempts at which the operation was called, in order *)
Definition attemptsOf (evs : list Event) : list nat :=
  flat_map (fun ev => match ev with EvOperation k => [k] | _ => [] end) evs.

(** the delays slept, in order *)
Definition sleepsOf (evs : list Event) : list Z :=
  flat_map (fun ev => match ev with EvSleep ms => [ms] | _ => [] end) evs.

(** the errors handed to the auth-required hook, in order *)
Definition authHooksOf (evs : list Event) : list BitrixErrorDetails :=
  flat_map (fun ev => match ev with EvAuthRequired e => [e] | _ => [] end) evs.

(** an attempt after which the loop goes on, if attempts remain *)
Definition retried {T : Type} (o : Outcome T) : bool :=
  match o with
  | Returned _ => false
  | Threw t => isRetryable (ensureBitrixError t)
  end.

(** how [handleWithRetry] settles when the attempt with outcome [o] is
    its last *)
Definition resultOf {T : Type} (o : Outcome T) : Result T :=
  match o with
  | Returned v => Resolved v
  | Threw t => Rejected (Some (ensureBitrixError t))
  end.

(** what is slept after a retried attempt with outcome [o] *)
Definition pauseAfter {T : Type} (options : ErrorHandlerOptions) (o : Outcome T) : list Z :=
  match o with
  | Returned _ => []
  | Threw t =>
      let e := ensureBitrixError t in
      if BitrixError.isAuthError e then [] else [delayFor options e]
  end.

(** the errors [ErrorMapper] builds *)
Inductive classified : BitrixErrorDetails -> Prop :=
| classified_api (r : BitrixErrorResponse) (st : Z) :
    classified (ErrorMapper.mapApiError r st)
| classified_status (st : Z) : classified (ErrorMapper.mapHttpStatus st).

(** a unit of work that throws nothing but classified errors and plain
    values *)
Definition throwsClassified {T : Type} (operation : nat -> Outcome T) : Prop :=
  forall k e, operation k = Threw (ThrownBitrix e) -> classified e.

(** [executeRequest] of [apiCall]: whatever the body throws goes through
    the [catch] *)
Definition caught {T : Type} (o : Outcome T) : Outcome T :=
  match o with
  | Returned v => Returned v
  | Threw t => Threw (ThrownBitrix (BitrixSDK.toBitrixError t))
  end.

(** a unit of work that fails with a plain [Error] every time *)
Definition alwaysPlainError (msg : option string) : nat -> Outcome unit :=
  fun _ => Threw (ThrownOther msg).

(** a table error answered by the server twice, then a result *)
Definition overloadedTwice : nat -> Outcome Z :=
  fun k =>
    if (k <? 2)%nat
    then Threw (ThrownBitrix
                  (ErrorMapper.mapApiError
                     {| error := "OVERLOAD_LIMIT"; error_description := None |} 200))
    else Returned 7.

End RetryMeasures.

Section LimiterMeasures.
Import BitrixRateLimiter.

(** a request has been settled: [resolve] or [reject] was called *)
Definition isSettled (ev : Event) : bool :=
  match ev with
  | EvResolved _ | EvRejected _ _ => true
  | _ => false
  end.

Definition settledCount (tr : list Event) : nat := length (List.filter isSettled tr).

Definition isSubmit (l : Label) : bool :=
  match l with
  | CallExecuteRequest _ _ _ => true
  | _ => false
  end.

(** the calls of [executeRequest] in a schedule *)
Definition submitted (sched : list (Z * Label)) : nat :=
  length (List.filter (fun x => isSubmit (snd x)) sched).

(** the requests the limiter still owes an answer: queued, in flight, or
    waiting for their retry timer *)
Definition pendingCount (w : BitrixRateLimiter.t) : nat :=
  (length (requestQueue w) + length (running w) + length (timers w))%nat.



(** the decay interval fires at the given instants, and nothing else
    happens *)
Definition ticks (times : list Z) : list (Z * Label) :=
  map (fun now => (now, Tick)) times.

(** the retry counts the limiter can hold under [cfg] *)
Definition retryBounded (cfg : RateLimitConfig) (r : QueuedRequest) : Prop :=
  0 <= retryCount r <= Z.max 0 (maxRetries cfg).

(** a request waiting for its retry timer has a retry left *)
Definition retryLeft (cfg : RateLimitConfig) (r : QueuedRequest) : Prop :=
  0 <= retryCount r < maxRetries cfg.

(** every instant of the schedule is at most [limit] *)
Definition instantsUpTo (limit : Z) (sched : list (Z * Label)) : Prop :=
  Forall (fun x => fst x <= limit) sched.

(** a request that failed with a 503 and waits for its retry timer, on
    a limiter whose drain loop has ended *)
Definition retryPending : BitrixRateLimiter.t :=
  run [ (1000, CallExecuteRequest "a" "crm.deal.list" 0);
        (1100, Settle 0 (Failure "503 Service Unavailable"));
        (1100, Resume 0) ]
      (create defaultConfig 0).

(** two responses, twenty minutes apart, each reporting 300 seconds of
    operating time *)
Definition twoSlowResponses : list (Z * Label) :=
  [ (1700000000000, CallExecuteRequest "a" "crm.deal.list" 0);
    (1700000001000, Settle 0 (Success (Some 300%Q) None));
    (1700000001000, Resume 0);
    (1700001200000, CallExecuteRequest "b" "crm.deal.list" 0);
    (1700001201000, Settle 0 (Success (Some 300%Q) None)) ].

End LimiterMeasures.

(** * Properties *)

(** ** Error classification *)
Section Classification.
Import ErrorMapper.

Lemma retryableSystemCodes_complete (c : string) (e : PartialDetails) :
  assoc c SYSTEM_ERRORS = Some e ->
  p_isRetryable e = Some true ->
  In c retryableSystemCodes.
Proof.
  unfold SYSTEM_ERRORS; cbn [assoc].
  repeat match goal with
  | |- context [String.eqb c ?k] =>
      destruct (String.eqb_spec c k) as [->|_];
      [ intros [= <-]; cbn; first [ discriminate | intros _; tauto ] | ]
  end.
  discriminate.
Qed.

(** A known code whose entry is retryable and a system error keeps the
    entry's flags and status, whatever the transport status. *)
Lemma mapApiError_known_retryable (c : string) (e : PartialDetails)
  (descr : option string) (transport : Z) :
  assoc c SYSTEM_ERRORS = Some e ->
  p_isRetryable e = Some true ->
  p_isSystemError e = Some true ->
  let r := mapApiError {| error := c; error_description := descr |} transport in
  isRetryable r = true /\ isSystemError r = true /\
  Some (httpStatus r) = p_httpStatus e /\ requiresAuth r = false.
Proof.
  intros Ha Hr _.
  pose proof (retryableSystemCodes_complete c e Ha Hr) as Hin.
  cbn in Hin.
  destruct Hin as [<-|[<-|[<-|[<-|[]]]]]; cbn in Ha; injection Ha as <-; cbn; auto.
Qed.

(** A code that the lookup does not find gets the defaults and the
    transport status. *)
Lemma mapApiError_not_found (c : string) (descr : option string) (transport : Z) :
  lookup c = Undefined ->
  let r := mapApiError {| error := c; error_description := descr |} transport in
  isRetryable r = false /\ requiresAuth r = false /\ isSystemError r = false /\
  httpStatus r = transport.
Proof.
  intros H. unfold mapApiError. cbn [error]. rewrite H. cbn. auto.
Qed.

(** A response with status 500 and no body is retryable. *)
Lemma mapHttpResponse_bodyless_500 :
  isRetryable (mapHttpResponse 500 NoBody) = true /\
  isSystemError (mapHttpResponse 500 NoBody) = false.
Proof. split; reflexivity. Qed.

(** No error that the classifier produces is both retryable and in need of
    authentication: every table entry with [requiresAuth] is not
    retryable, and so is the bare status 401. *)
Lemma assoc_auth_not_retryable (c : string) (e : PartialDetails) :
  assoc c SYSTEM_ERRORS = Some e ->
  p_requiresAuth e = Some true ->
  p_isRetryable e = Some false.
Proof.
  unfold SYSTEM_ERRORS; cbn [assoc].
  repeat match goal with
  | |- context [String.eqb c ?k] =>
      destruct (String.eqb_spec c k) as [->|_];
      [ intros [= <-]; cbn; first [ discriminate | reflexivity ] | ]
  end.
  discriminate.
Qed.

Lemma mapApiError_auth_not_retryable (r : BitrixErrorResponse) (transport : Z) :
  requiresAuth (mapApiError r transport) = true ->
  isRetryable (mapApiError r transport) = false.
Proof.
  unfold mapApiError, lookup. cbn [requiresAuth isRetryable].
  destruct (assoc (error r) SYSTEM_ERRORS) as [e|] eqn:Ha.
  - cbn [pickFlag]. intros Hauth.
    destruct (p_requiresAuth e) as [[|]|] eqn:Hp; try discriminate.
    rewrite (assoc_auth_not_retryable _ _ Ha Hp). reflexivity.
  - destruct (inList (error r) objectPrototypeKeys); discriminate.
Qed.

Lemma mapHttpStatus_auth_not_retryable (st : Z) :
  requiresAuth (mapHttpStatus st) = true -> isRetryable (mapHttpStatus st) = false.
Proof.
  unfold mapHttpStatus.
  repeat match goal with
  | |- context [if ?b then _ else _] => destruct b; [cbn; first [discriminate | reflexivity]|]
  end.
  cbn. discriminate.
Qed.

(** C8. The claim: a known code that the table marks retryable and system
    error is classified so whatever the transport status, an unknown code
    gets [isRetryable], [requiresAuth] and [isSystemError] false and the
    transport status, and a bodyless 500 is retryable. On the code the
    second part fails for a code that is no entry of the table but names
    a member of [Object.prototype]: for the code [constructor] the lookup
    [SYSTEM_ERRORS[code]] finds the inherited member, and [!!systemError]
    makes [isSystemError] true. *)
Theorem mapApiError_inherited_member_is_system_error :
  let r := mapApiError {| error := "constructor"; error_description := Some "boom" |} 400 in
  assoc "constructor" SYSTEM_ERRORS = None /\
  isSystemErrorCode "constructor" = true /\
  isSystemError r = true /\
  isRetryable r = false /\ requiresAuth r = false /\ httpStatus r = 400.
Proof. cbn. repeat split; reflexivity. Qed.

End Classification.

(** ** The retry loop *)
Section Retry.
Import ErrorHandler.

Lemma loopFrom_unfold {T : Type} (options : ErrorHandlerOptions)
  (operation : nat -> Outcome T) (attempt : nat) (last : option BitrixErrorDetails) :
  (attempt <= maxRetries options)%nat ->
  loopFrom options operation attempt last =
  loop options operation (S (maxRetries options - attempt)) attempt last.
Proof.
  intros H. unfold loopFrom. f_equal. lia.
Qed.

(** the loop entered at an attempt within bounds starts by calling the
    operation *)
Lemma loopFrom_calls_operation {T : Type} (options : ErrorHandlerOptions)
  (operation : nat -> Outcome T) (attempt : nat) (last : option BitrixErrorDetails) :
  (attempt <= maxRetries options)%nat ->
  exists evs, fst (loopFrom options operation attempt last) = EvOperation attempt :: evs.
Proof.
  intros H. rewrite loopFrom_unfold by exact H. cbn [loop].
  destruct (operation attempt) as [v|t]; [eexists; reflexivity|].
  destruct (Nat.eqb attempt (maxRetries options)); [eexists; reflexivity|].
  destruct (negb (isRetryable (ensureBitrixError t))); [eexists; reflexivity|].
  destruct (BitrixError.isAuthError (ensureBitrixError t));
    destruct (loop options operation _ _ _); eexists; reflexivity.
Qed.

(** C5, as stated, fails: the classifier's [NO_AUTH_FOUND] error has
    [requiresAuth] true, attempts remain, and yet the loop ends at once:
    the hook is not invoked and nothing is retried, because the error is
    not retryable. *)
Lemma auth_error_not_retryable_no_hook :
  requiresAuth authFailure = true /\
  (0 < maxRetries threeRetries)%nat /\
  handleWithRetry threeRetries alwaysUnauthorized
    = ([EvOperation 0], Rejected (Some authFailure)) /\
  ~ In (EvAuthRequired authFailure) (fst (handleWithRetry threeRetries alwaysUnauthorized)).
Proof.
  cbn. repeat split; try reflexivity; try lia.
  intros [H|[]]. discriminate H.
Qed.

(** C5, amended: an attempt that fails with a canonical error that is
    retryable and has [requiresAuth] true, while attempts remain, invokes
    the auth-required hook and goes on to the next attempt at once: the
    next event after the hook is the next call of the operation, with no
    sleep in between. *)
Theorem retryable_auth_error_retried_at_once {T : Type}
  (options : ErrorHandlerOptions) (operation : nat -> Outcome T)
  (attempt : nat) (last : option BitrixErrorDetails) (t : Thrown) :
  (attempt < maxRetries options)%nat ->
  operation attempt = Threw t ->
  isRetryable (ensureBitrixError t) = true ->
  requiresAuth (ensureBitrixError t) = true ->
  let e := ensureBitrixError t in
  let next := loopFrom options operation (S attempt) (Some e) in
  loopFrom options operation attempt last =
    (EvOperation attempt :: EvAuthRequired e :: fst next, snd next) /\
  exists evs, fst next = EvOperation (S attempt) :: evs.
Proof.
  intros Hlt Hop Hretry Hauth e next. subst e next. split.
  - rewrite loopFrom_unfold by lia. cbn [loop]. rewrite Hop.
    replace (Nat.eqb attempt (maxRetries options)) with false
      by (symmetry; apply Nat.eqb_neq; lia).
    rewrite Hretry. cbn [negb].
    unfold BitrixError.isAuthError. rewrite Hauth. cbn [orb].
    unfold loopFrom.
    replace (S (maxRetries options) - S attempt)%nat with (maxRetries options - attempt)%nat by lia.
    destruct (loop options operation _ _ _). reflexivity.
  - apply loopFrom_calls_operation. lia.
Qed.

(** the amended law at work: the hook, then the second attempt at once *)
Lemma retryable_auth_error_retried_at_once_witness :
  handleWithRetry twoRetries staleOnce =
    ([EvOperation 0; EvAuthRequired retryableAuthFailure; EvOperation 1], Resolved 7).
Proof.
  destruct (retryable_auth_error_retried_at_once twoRetries staleOnce 0 None
              (ThrownBitrix retryableAuthFailure)) as [H _];
    [cbn; lia | reflexivity | reflexivity | reflexivity |].
  exact H.
Defined.

End Retry.

(** ** The credential manager *)
Section Credentials.
Import BitrixOAuth2 TokenManager.

Lemma validateTokenStructure_malformed (tk : TokenResponse) :
  malformed tk -> exists m, validateTokenStructure tk = Some m.
Proof.
  unfold malformed, validateTokenStructure.
  destruct (truthyStr (access_token tk)) eqn:Ha; [|intros _; eexists; reflexivity].
  destruct (expires_in tk) as [e|] eqn:He; cbn [truthyNum]; [|intros _; eexists; reflexivity].
  destruct (e =? 0) eqn:He0; cbn [negb]; [intros _; eexists; reflexivity|].
  destruct (truthyStr (domain tk)) eqn:Hd; [|intros _; eexists; reflexivity].
  cbn [app]. intros [Hm|[Hm|Hm]]; try discriminate.
  destruct (Z.leb_spec e 0) as [Hle|Hgt]; [eexists; reflexivity | lia].
Qed.

Lemma validateTokenStructure_wellformed (tk : TokenResponse) :
  validateTokenStructure tk = None -> ~ malformed tk.
Proof.
  unfold malformed, validateTokenStructure.
  destruct (truthyStr (access_token tk)); [|discriminate].
  destruct (expires_in tk) as [e|]; cbn [truthyNum]; [|discriminate].
  destruct (e =? 0); cbn [negb]; [discriminate|].
  destruct (truthyStr (domain tk)); [|discriminate].
  cbn [app]. destruct (Z.leb_spec e 0) as [Hle|Hgt]; [discriminate|].
  intros _ [Hm|[Hm|Hm]]; try discriminate. lia.
Qed.

(** C9. For every malformed token envelope (no access token, no domain,
    or an [expires_in] that is missing or not positive) [setTokens] throws
    the validation error before any assignment: the manager, with the
    credentials it held and their [tokenIssuedAt], is left as it was. *)
Theorem setTokens_malformed_leaves_manager (tk : TokenResponse) (nowMs : Z)
  (tm : TokenManager.t) :
  malformed tk ->
  exists m, setTokens tk nowMs tm = (Some m, tm).
Proof.
  intros H. destruct (validateTokenStructure_malformed tk H) as [m Hm].
  exists m. unfold setTokens. rewrite Hm. reflexivity.
Qed.

(** an envelope without domain, offered to a manager that holds credentials *)
Lemma setTokens_malformed_leaves_manager_witness :
  exists m, setTokens noDomain 1700000999000 (holding 1700000000) = (Some m, holding 1700000000).
Proof.
  apply (setTokens_malformed_leaves_manager noDomain 1700000999000 (holding 1700000000)).
  right. left. reflexivity.
Defined.

(** [holding] is what the constructor builds from [heldTokens] *)
Lemma holding_created (issued : Z) :
  TokenManager.create (Some heldTokens) (issued * 1000) = (None, holding issued).
Proof.
  unfold TokenManager.create, setTokens, holding, seconds. cbn.
  rewrite Z.div_mul by lia. reflexivity.
Qed.

(** a well-formed envelope replaces the held set and stamps the instant *)
Lemma setTokens_wellformed (tk : TokenResponse) (nowMs : Z) (tm : TokenManager.t) :
  ~ malformed tk ->
  fst (setTokens tk nowMs tm) = None /\
  tokens (snd (setTokens tk nowMs tm)) = Some tk /\
  tokenIssuedAt (snd (setTokens tk nowMs tm)) = Some (seconds nowMs).
Proof.
  intros H. unfold setTokens.
  destruct (validateTokenStructure tk) as [m|] eqn:Hv; [|cbn; auto].
  exfalso. apply H. unfold malformed. unfold validateTokenStructure in Hv.
  destruct (truthyStr (access_token tk)); [|auto].
  destruct (truthyStr (domain tk)); [|auto].
  right. right. destruct (expires_in tk) as [e|]; [|exact I].
  cbn [truthyNum] in Hv. destruct (Z.eqb_spec e 0); [lia|].
  cbn in Hv. destruct (Z.leb_spec e 0); [lia | discriminate].
Qed.

(** *** The refresh margin *)

Lemma isTokenExpiringSoon_spec (tm : TokenManager.t) (tk : TokenResponse)
  (issued e nowMs : Z) :
  tokens tm = Some tk -> tokenIssuedAt tm = Some issued -> issued <> 0 ->
  expires_in tk = Some e ->
  isTokenExpiringSoon tm nowMs = negb (seconds nowMs <? issued + e - 300).
Proof.
  intros Ht Hi Hz He. unfold isTokenExpiringSoon, isTokenExpired.
  rewrite Ht, Hi, He. destruct (Z.eqb_spec issued 0); [contradiction|].
  destruct (Z.leb_spec (issued + e - 5 * 60) (seconds nowMs));
    destruct (Z.ltb_spec (seconds nowMs) (issued + e - 300)); try reflexivity; lia.
Qed.

Lemma networkRefreshes_app (tm : TokenManager.t) (evs : list TokenManager.Event) :
  length (List.filter isNetworkRefresh (trace tm ++ evs)) =
  (networkRefreshes tm + length (List.filter isNetworkRefresh evs))%nat.
Proof.
  unfold networkRefreshes. rewrite List.filter_app, length_app. reflexivity.
Qed.

(** C4. For credentials held since the instant [issued] (in seconds, of a
    clock past the epoch) that live [e] seconds, [getValidToken] returns
    the current access token as it is exactly when
    [now < issued + e - 300]. With [e = 3600], a call at [issued + 3595]
    finds the token expiring soon and, a refresh token being held, waits
    for a refresh, which it starts (one network call) unless one is in
    flight; a call at [issued + 1000] returns the current access token
    and starts nothing. *)
Theorem refresh_margin_law (tm : TokenManager.t) (tk : TokenResponse)
  (issued e nowMs : Z) :
  tokens tm = Some tk -> tokenIssuedAt tm = Some issued -> 0 < issued ->
  expires_in tk = Some e ->
  (getValidToken_start nowMs tm = (Done (Return (access_token tk)), tm)
     <-> seconds nowMs < issued + e - 300) /\
  (isTokenExpiringSoon tm nowMs = false <-> seconds nowMs < issued + e - 300) /\
  (e = 3600 -> seconds nowMs = issued + 3595 ->
     truthyStr (refresh_token tk) = true ->
     isTokenExpiringSoon tm nowMs = true /\
     (exists p, fst (getValidToken_start nowMs tm) = Await p) /\
     (refreshPromise tm = None ->
        networkRefreshes (snd (getValidToken_start nowMs tm)) = S (networkRefreshes tm))) /\
  (e = 3600 -> seconds nowMs = issued + 1000 ->
     isTokenExpiringSoon tm nowMs = false /\
     getValidToken_start nowMs tm = (Done (Return (access_token tk)), tm)).
Proof.
  intros Ht Hi Hpos He.
  assert (Hsoon := isTokenExpiringSoon_spec tm tk issued e nowMs Ht Hi ltac:(lia) He).
  assert (Hstart : seconds nowMs < issued + e - 300 ->
            getValidToken_start nowMs tm = (Done (Return (access_token tk)), tm)).
  { intros Hlt. unfold getValidToken_start. rewrite Ht, Hsoon.
    destruct (Z.ltb_spec (seconds nowMs) (issued + e - 300)); [reflexivity | lia]. }
  split; [split; [|exact Hstart]|].
  { intros H. unfold getValidToken_start in H. rewrite Ht, Hsoon in H.
    destruct (Z.ltb_spec (seconds nowMs) (issued + e - 300)) as [Hlt|Hge]; [exact Hlt|].
    cbn [negb] in H. destruct (negb (truthyStr (refresh_token tk))); [discriminate|].
    destruct (refreshPromise tm); [discriminate|].
    destruct (refreshTokens_start tm). discriminate. }
  split.
  { rewrite Hsoon.
    destruct (Z.ltb_spec (seconds nowMs) (issued + e - 300)) as [Hlt|Hge]; cbn [negb].
    - split; intros _; [exact Hlt | reflexivity].
    - split; [discriminate | lia]. }
  split.
  - intros -> Hnow Hrefresh.
    assert (Hexp : isTokenExpiringSoon tm nowMs = true).
    { rewrite Hsoon. destruct (Z.ltb_spec (seconds nowMs) (issued + 3600 - 300)); [lia | reflexivity]. }
    split; [exact Hexp|].
    unfold getValidToken_start. rewrite Ht, Hexp, Hrefresh. cbn [negb]. split.
    + destruct (refreshPromise tm); [eexists; reflexivity|].
      destruct (refreshTokens_start tm). eexists; reflexivity.
    + intros Hnone. rewrite Hnone. unfold refreshTokens_start. rewrite Ht.
      destruct (refresh_token tk) as [r|] eqn:Hr; [|discriminate].
      rewrite Hrefresh. unfold networkRefreshes. cbn.
      rewrite List.filter_app, length_app. cbn. lia.
  - intros -> Hnow. split; [|apply Hstart; lia].
    rewrite Hsoon. destruct (Z.ltb_spec (seconds nowMs) (issued + 3600 - 300)); [reflexivity | lia].
Qed.

(** [heldTokens], issued at second 1700000000: usable 1000 s later,
    expiring soon 3595 s later *)
Lemma refresh_margin_law_witness :
  (getValidToken_start 1700001000500 (holding 1700000000)
     = (Done (Return (Some "old-access")), holding 1700000000)
   <-> seconds 1700001000500 < 1700000000 + 3600 - 300) /\
  isTokenExpiringSoon (holding 1700000000) 1700003595000 = true.
Proof.
  split.
  - apply (refresh_margin_law (holding 1700000000) heldTokens 1700000000 3600 1700001000500);
      [reflexivity | reflexivity | lia | reflexivity].
  - apply (refresh_margin_law (holding 1700000000) heldTokens 1700000000 3600 1700003595000);
      [reflexivity | reflexivity | lia | reflexivity | reflexivity | reflexivity | reflexivity].
Defined.

End Credentials.

(** ** Refresh: failures, and concurrent callers *)
Section Refresh.
Import BitrixOAuth2 TokenManager.

(** an [invalid_grant] answer always becomes the same error *)
Lemma refreshToken_invalid_grant (st : Z) (stText : string) (descr : option string)
  (other : TokenResponse) :
  refreshToken (invalidGrant st stText descr other) = Err reauthMessage.
Proof. reflexivity. Qed.

(** whatever the refresh settles with, a failure whose message does not
    contain [invalid_grant] leaves the credentials and rejects with the
    same message *)
Lemma refreshTokens_resume_other_failure (p : nat) (m : string) (nowMs : Z)
  (tm : TokenManager.t) :
  includes m "invalid_grant" = false ->
  promises tm !! p = Some Pending ->
  let tm' := refreshTokens_resume p (Err m) nowMs tm in
  tokens tm' = tokens tm /\ tokenIssuedAt tm' = tokenIssuedAt tm /\
  promises tm' !! p = Some (RejectedWith m).
Proof.
  intros Hinc Hp. unfold refreshTokens_resume. rewrite Hp, Hinc. cbn.
  repeat split. apply list_lookup_insert_eq. eapply lookup_lt_Some; eassumption.
Qed.

(** a failure whose message contains [invalid_grant] clears the
    credentials and rejects with the re-authentication error *)
Lemma refreshTokens_resume_invalid_grant_message (p : nat) (m : string) (nowMs : Z)
  (tm : TokenManager.t) :
  includes m "invalid_grant" = true ->
  promises tm !! p = Some Pending ->
  let tm' := refreshTokens_resume p (Err m) nowMs tm in
  tokens tm' = None /\ tokenIssuedAt tm' = None /\
  promises tm' !! p = Some (RejectedWith "Refresh token expired. Re-authentication required.").
Proof.
  intros Hinc Hp. unfold refreshTokens_resume. rewrite Hp, Hinc. cbn.
  repeat split. apply list_lookup_insert_eq. eapply lookup_lt_Some; eassumption.
Qed.

(** C2. The claim: a refresh that fails because the refresh token is
    invalid or expired (the endpoint's [invalid_grant]) clears the held
    credentials and fails with the re-authentication error; any other
    failure passes unchanged and leaves the credentials. On the code the
    first part fails: [refreshToken] turns an [invalid_grant] answer into
    an error whose message does not contain [invalid_grant], which is
    what [refreshTokens] looks for, so the credentials stay held. *)
Theorem invalid_grant_leaves_credentials_held :
  fst (getValidToken_start 1700003595000 (holding 1700000000)) = Await 0 /\
  refreshToken (invalidGrant 400 "Bad Request" (Some "refresh token revoked") noTokens)
    = Err reauthMessage /\
  includes reauthMessage "invalid_grant" = false /\
  tokens afterInvalidGrant = Some heldTokens /\
  tokenIssuedAt afterInvalidGrant = Some 1700000000 /\
  fst (getValidToken_resume 0 afterInvalidGrant) = Done (Throw reauthMessage) /\
  tokens (snd (getValidToken_resume 0 afterInvalidGrant)) = Some heldTokens.
Proof. vm_compute. repeat split; reflexivity. Qed.

(** *** Concurrent callers *)

(** while a refresh is in flight, a caller that finds the token expiring
    awaits the promise in flight and changes nothing *)
Lemma startAll_in_flight (times : list Z) (tm : TokenManager.t) (tk : TokenResponse) (p : nat) :
  tokens tm = Some tk -> truthyStr (refresh_token tk) = true ->
  refreshPromise tm = Some p ->
  Forall (fun now => isTokenExpiringSoon tm now = true) times ->
  startAll times tm = (repeat (Await p) (length times), tm).
Proof.
  intros Ht Hr Hp. induction 1 as [|now rest Hnow _ IH]; [reflexivity|].
  cbn [startAll]. unfold getValidToken_start. rewrite Ht, Hnow, Hr, Hp. cbn [negb].
  rewrite IH. reflexivity.
Qed.

(** the first caller starts the refresh: one promise, one network call *)
Lemma getValidToken_start_first (nowMs : Z) (tm : TokenManager.t) (tk : TokenResponse) :
  tokens tm = Some tk -> truthyStr (refresh_token tk) = true ->
  refreshPromise tm = None ->
  isTokenExpiringSoon tm nowMs = true ->
  exists r, refresh_token tk = Some r /\
    getValidToken_start nowMs tm = (Await (length (promises tm)), refreshing r tm).
Proof.
  intros Ht Hr Hp Hsoon. destruct (refresh_token tk) as [r|] eqn:Hrt; [|discriminate].
  exists r. split; [reflexivity|].
  unfold getValidToken_start. rewrite Ht, Hsoon, Hrt, Hr, Hp. cbn [negb].
  unfold refreshTokens_start. rewrite Ht, Hrt, Hr.
  unfold withRefreshPromise, refreshing. cbn. rewrite Ht. reflexivity.
Qed.

Lemma networkRefreshes_refreshing (r : string) (tm : TokenManager.t) :
  networkRefreshes (refreshing r tm) = S (networkRefreshes tm).
Proof.
  unfold networkRefreshes at 1. cbn [trace refreshing].
  rewrite networkRefreshes_app. cbn. lia.
Qed.

Lemma resumeAll_await (p : nat) (rest : list Step) (tm : TokenManager.t) :
  resumeAll (Await p :: rest) tm =
  (fst (getValidToken_resume p tm) :: fst (resumeAll rest (snd (getValidToken_resume p tm))),
   snd (resumeAll rest (snd (getValidToken_resume p tm)))).
Proof.
  cbn [resumeAll]. destruct (getValidToken_resume p tm) as [s tm1].
  cbn [fst snd]. destruct (resumeAll rest tm1). reflexivity.
Qed.

(** resuming callers that await a settled promise *)
Lemma resumeAll_fulfilled (p : nat) (newTokens : TokenResponse) (n : nat) :
  forall tm : TokenManager.t,
  promises tm !! p = Some (Fulfilled newTokens) ->
  let res := resumeAll (repeat (Await p) n) tm in
  fst res = repeat (Done (Return (access_token newTokens))) n /\
  promises (snd res) = promises tm /\
  networkRefreshes (snd res) = networkRefreshes tm /\
  (n <> 0%nat -> refreshPromise (snd res) = None /\ tokens (snd res) = Some newTokens).
Proof.
  induction n as [|n IH]; intros tm Hp res; subst res.
  - cbn. repeat split; congruence.
  - cbn [repeat]. rewrite resumeAll_await.
    unfold getValidToken_resume. rewrite Hp. cbn [fst snd].
    match goal with |- context [resumeAll _ ?tm1] =>
      specialize (IH tm1 Hp); set (tm' := tm1) in *
    end.
    cbn zeta in IH. destruct IH as (Hss & Hpr & Hnet & Hlast).
    repeat split.
    + rewrite Hss. reflexivity.
    + rewrite Hpr. reflexivity.
    + rewrite Hnet. subst tm'. unfold withRefreshPromise, networkRefreshes. cbn.
      rewrite List.filter_app, length_app. cbn. lia.
    + destruct n as [|n']; [reflexivity | apply Hlast; discriminate].
    + destruct n as [|n']; [reflexivity | apply Hlast; discriminate].
Qed.

Lemma resumeAll_rejected (p : nat) (m : string) (n : nat) :
  forall tm : TokenManager.t,
  promises tm !! p = Some (RejectedWith m) ->
  let res := resumeAll (repeat (Await p) n) tm in
  fst res = repeat (Done (Throw m)) n /\
  promises (snd res) = promises tm /\
  tokens (snd res) = tokens tm /\
  networkRefreshes (snd res) = networkRefreshes tm /\
  (n <> 0%nat -> refreshPromise (snd res) = None).
Proof.
  induction n as [|n IH]; intros tm Hp res; subst res.
  - cbn. repeat split; congruence.
  - cbn [repeat]. rewrite resumeAll_await.
    unfold getValidToken_resume. rewrite Hp. cbn [fst snd].
    match goal with |- context [resumeAll _ ?tm1] =>
      specialize (IH tm1 Hp); set (tm' := tm1) in *
    end.
    cbn zeta in IH. destruct IH as (Hss & Hpr & Htk & Hnet & Hlast).
    repeat split.
    + rewrite Hss. reflexivity.
    + rewrite Hpr. reflexivity.
    + rewrite Htk. reflexivity.
    + rewrite Hnet. subst tm'. unfold withRefreshPromise, networkRefreshes. cbn.
      rewrite List.filter_app, length_app. cbn. lia.
    + intros _. destruct n as [|n']; [reflexivity | apply Hlast; discriminate].
Qed.

(** C1. Single-flight refresh. Let [n >= 1] calls of [getValidToken]
    enter one after the other, each finding the held token expiring
    within the margin, a refresh token being held and no refresh in
    flight before the first. Then one network refresh is issued, by the
    first; all [n] callers await the same promise; when the refresh has
    settled and the callers are resumed, all [n] return the access token
    of the refreshed credentials, or all [n] fail with the same error;
    no further network refresh has been issued, and [refreshPromise] is
    cleared in either case. *)
Theorem single_flight_refresh (tm : TokenManager.t) (tk : TokenResponse)
  (times : list Z) (s : Settled) (nowSettle : Z) :
  tokens tm = Some tk -> truthyStr (refresh_token tk) = true ->
  refreshPromise tm = None ->
  times <> [] ->
  Forall (fun now => isTokenExpiringSoon tm now = true) times ->
  let n := length times in
  let p := length (promises tm) in
  let started := startAll times tm in
  let settled := refreshTokens_resume p s nowSettle (snd started) in
  let resumed := resumeAll (fst started) settled in
  fst started = repeat (Await p) n /\
  refreshPromise (snd started) = Some p /\
  networkRefreshes (snd started) = S (networkRefreshes tm) /\
  networkRefreshes (snd resumed) = S (networkRefreshes tm) /\
  refreshPromise (snd resumed) = None /\
  match s with
  | Ok newTokens =>
      fst resumed = repeat (Done (Return (access_token newTokens))) n /\
      tokens (snd resumed) = Some newTokens
  | Err m => fst resumed = repeat (Done (Throw (refreshFailure m))) n
  end.
Proof.
  intros Ht Hr Hp Hne Hall n p started settled resumed.
  destruct times as [|t1 rest]; [contradiction|].
  apply Forall_cons in Hall as [H1 Hrest].
  destruct (getValidToken_start_first t1 tm tk Ht Hr Hp H1) as (r & Hrt & Hfirst).
  assert (Hstarted : started = (repeat (Await p) n, refreshing r tm)).
  { subst started n p. cbn [startAll]. rewrite Hfirst.
    rewrite (startAll_in_flight rest (refreshing r tm) tk (length (promises tm)));
      [reflexivity | exact Ht | exact Hr | reflexivity | exact Hrest]. }
  assert (Hpend : promises (refreshing r tm) !! p = Some Pending).
  { cbn [promises refreshing]. subst p. apply list_lookup_middle. reflexivity. }
  assert (Hlt : (p < length (promises (refreshing r tm)))%nat)
    by (eapply lookup_lt_Some; exact Hpend).
  assert (Hn : n <> 0%nat) by (subst n; cbn; discriminate).
  subst resumed settled. rewrite Hstarted. cbn [fst snd].
  split; [reflexivity|]. split; [reflexivity|].
  split; [apply networkRefreshes_refreshing|].
  unfold refreshTokens_resume. rewrite Hpend.
  destruct s as [newTokens|m].
  - match goal with |- context [resumeAll _ ?tm2] =>
      destruct (resumeAll_fulfilled p newTokens n tm2) as (Hres & _ & Hnet & Hlast)
    end.
    { cbn [promises settlePromise]. apply list_lookup_insert_eq. exact Hlt. }
    destruct (Hlast Hn) as [Hrp Htok].
    rewrite Hnet, Hrp, Hres, Htok.
    split; [apply networkRefreshes_refreshing|]. auto.
  - unfold refreshFailure. destruct (includes m "invalid_grant").
    + match goal with |- context [resumeAll _ ?tm2] =>
        destruct (resumeAll_rejected p "Refresh token expired. Re-authentication required."
                    n tm2) as (Hres & _ & _ & Hnet & Hlast)
      end.
      { cbn [promises settlePromise clearTokens]. apply list_lookup_insert_eq. exact Hlt. }
      rewrite Hnet, (Hlast Hn), Hres.
      split; [apply networkRefreshes_refreshing|]. auto.
    + match goal with |- context [resumeAll _ ?tm2] =>
        destruct (resumeAll_rejected p m n tm2) as (Hres & _ & _ & Hnet & Hlast)
      end.
      { cbn [promises settlePromise]. apply list_lookup_insert_eq. exact Hlt. }
      rewrite Hnet, (Hlast Hn), Hres.
      split; [apply networkRefreshes_refreshing|]. auto.
Qed.

(** three callers and a refresh that succeeds: one network call, and the
    new access token for each *)
Lemma single_flight_refresh_witness :
  fst (resumeAll (fst (startAll threeCallers (holding 1700000000)))
         (refreshTokens_resume 0 (Ok refreshedTokens) 1700003597000
            (snd (startAll threeCallers (holding 1700000000)))))
    = repeat (Done (Return (Some "new-access"))) 3 /\
  networkRefreshes (snd (startAll threeCallers (holding 1700000000))) = 1%nat.
Proof.
  destruct (single_flight_refresh (holding 1700000000) heldTokens threeCallers
              (Ok refreshedTokens) 1700003597000)
    as (_ & _ & Hnet & _ & _ & Hres & _);
    [reflexivity | reflexivity | reflexivity | discriminate
    | repeat constructor | ].
  split; [exact Hres | exact Hnet].
Defined.

End Refresh.

(** ** Admission *)
Section Admission.
Import BitrixRateLimiter.

Lemma checkCounter_true_iff (cfg : RateLimitConfig) (st : RateLimitState) :
  fst (checkCounter cfg st) = true <-> requestCounter st < burstLimit cfg.
Proof.
  unfold checkCounter.
  destruct (Z.leb_spec (burstLimit cfg) (requestCounter st)) as [Hle|Hlt]; cbn.
  - split; [discriminate | lia].
  - split; [intros _; exact Hlt | reflexivity].
Qed.

(** [canMakeRequest] answers true exactly when the method is not in
    [blockedMethods], or is and the shared reset instant is unset or
    reached, and the counter is below the burst limit. *)
Lemma canMakeRequest_true_iff (cfg : RateLimitConfig) (m : string) (nowMs : Z)
  (st : RateLimitState) :
  fst (canMakeRequest cfg m nowMs st) = true <->
  (m ∉ blockedMethods st \/ resetPending st nowMs = false) /\
  requestCounter st < burstLimit cfg.
Proof.
  unfold canMakeRequest. case_bool_decide as Hin.
  - destruct (resetPending st nowMs) eqn:Hpend.
    + cbn. split; [discriminate|]. intros [[Hn|Hn] _]; [contradiction|discriminate].
    + rewrite checkCounter_true_iff. cbn. tauto.
  - rewrite checkCounter_true_iff. tauto.
Qed.

(** a block that has run out is lifted: the method leaves the set and
    the shared reset instant is cleared *)
Lemma canMakeRequest_evicts (cfg : RateLimitConfig) (m : string) (nowMs : Z)
  (st : RateLimitState) :
  m ∈ blockedMethods st -> resetPending st nowMs = false ->
  (m ∉ blockedMethods (snd (canMakeRequest cfg m nowMs st))) /\
  operatingResetAt (snd (canMakeRequest cfg m nowMs st)) = None.
Proof.
  intros Hin Hpend. unfold canMakeRequest.
  rewrite bool_decide_eq_true_2 by exact Hin. rewrite Hpend.
  unfold checkCounter.
  destruct (burstLimit cfg <=? _); cbn; (split; [|reflexivity]);
    apply not_elem_of_difference; right; apply elem_of_singleton; reflexivity.
Qed.

(** after [handleResourceLimitExceeded] has read a reset instant [r]
    from the error, the method is denied, and the limiter unchanged, at
    every instant before [r]; from [r] on the counter decides *)
Lemma blocked_until_reset (cfg : RateLimitConfig) (m msg : string) (r nowMs : Z)
  (st : RateLimitState) :
  matchResetAt msg = Some r -> r <> 0 ->
  let st' := handleResourceLimitExceeded m msg st in
  (nowMs < 1000 * r -> canMakeRequest cfg m nowMs st' = (false, st')) /\
  (1000 * r <= nowMs ->
     fst (canMakeRequest cfg m nowMs st') = (requestCounter st <? burstLimit cfg)).
Proof.
  intros Hmatch Hr st'.
  assert (Hin : m ∈ blockedMethods st').
  { subst st'. unfold handleResourceLimitExceeded. rewrite Hmatch. cbn. set_solver. }
  assert (Hreset : operatingResetAt st' = Some r).
  { subst st'. unfold handleResourceLimitExceeded. rewrite Hmatch. reflexivity. }
  assert (Hcount : requestCounter st' = requestCounter st).
  { subst st'. unfold handleResourceLimitExceeded. rewrite Hmatch. reflexivity. }
  split; intros Hnow; unfold canMakeRequest;
    rewrite bool_decide_eq_true_2 by exact Hin;
    unfold resetPending; rewrite Hreset.
  - destruct (Z.eqb_spec r 0); [contradiction|].
    destruct (Z.ltb_spec nowMs (1000 * r)); [reflexivity | lia].
  - destruct (Z.eqb_spec r 0); [contradiction|].
    destruct (Z.ltb_spec nowMs (1000 * r)); [lia|]. cbn [negb andb].
    unfold checkCounter. cbn [requestCounter setReset setMethods].
    rewrite Hcount.
    destruct (Z.leb_spec (burstLimit cfg) (requestCounter st));
      destruct (Z.ltb_spec (requestCounter st) (burstLimit cfg)); try reflexivity; lia.
Qed.

(** C3, as stated, fails twice. After the reset instant (121 s) the
    method is still denied while the counter is at the burst limit; and
    before it (at 11 s) the method is admitted, because the reset instant
    is one variable shared by all methods and a later answer has
    overwritten it. *)
Lemma admit_after_block_counterexample :
  (let w := run busyAfterReset (create burstOne 0) in
   "X" ∈ blockedMethods (state w) /\ operatingResetAt (state w) = Some 121 /\
   1000 * 121 < 121600 /\
   fst (canMakeRequest (config w) "X" 121600 (state w)) = false) /\
  (let w := run (firstn 3 resetOverwritten) (create defaultConfig 0) in
   "X" ∈ blockedMethods (state w) /\ operatingResetAt (state w) = Some 121) /\
  (let w := run resetOverwritten (create defaultConfig 0) in
   11000 < 1000 * 121 /\
   fst (canMakeRequest (config w) "X" 11000 (state w)) = true).
Proof.
  repeat split; try lia; vm_compute; reflexivity.
Qed.

(** C3, amended. [canMakeRequest] returns true iff the method is not in
    [blockedMethods], or the limiter's one shared reset instant is unset
    or reached (the method is then evicted and the instant cleared), and
    the counter is below the burst limit. Right after a resource-exhausted
    answer for a method has recorded the reset instant [r], the method is
    denied at every instant before [r] and, from [r] on, admitted iff the
    counter is below the burst limit. *)
Theorem admission_law (cfg : RateLimitConfig) (m : string) (nowMs : Z)
  (st : RateLimitState) :
  (fst (canMakeRequest cfg m nowMs st) = true <->
     (m ∉ blockedMethods st \/ resetPending st nowMs = false) /\
     requestCounter st < burstLimit cfg) /\
  (m ∈ blockedMethods st /\ resetPending st nowMs = false ->
     (m ∉ blockedMethods (snd (canMakeRequest cfg m nowMs st))) /\
     operatingResetAt (snd (canMakeRequest cfg m nowMs st)) = None) /\
  (forall (msg : string) (r : Z),
     matchResetAt msg = Some r /\ r <> 0 ->
     let st' := handleResourceLimitExceeded m msg st in
     (nowMs < 1000 * r -> canMakeRequest cfg m nowMs st' = (false, st')) /\
     (1000 * r <= nowMs ->
        fst (canMakeRequest cfg m nowMs st') = (requestCounter st <? burstLimit cfg))).
Proof.
  split; [apply canMakeRequest_true_iff|]. split.
  - intros [Hin Hpend]. apply canMakeRequest_evicts; assumption.
  - intros msg r [Hmatch Hr]. apply blocked_until_reset; assumption.
Qed.

(** *** Queueing disabled *)

(** with queueing disabled [executeRequest] dispatches at once *)
Lemma executeRequest_inline (id m : string) (prio nowMs : Z) (w : BitrixRateLimiter.t) :
  enableQueueing (config w) = false ->
  trace (executeRequest id m prio nowMs w) = (trace w ++ [EvDispatched id])%list /\
  requestCounter (state (executeRequest id m prio nowMs w)) = requestCounter (state w) + 1.
Proof.
  intros H. unfold executeRequest. rewrite H. split; reflexivity.
Qed.

(** C6. The claim: with queueing disabled a unit waits for admission
    before it runs. On the code it does not: with the counter at the
    burst limit, so that [canMakeRequest] answers false, the unit
    submitted is dispatched in the same step, and the counter goes beyond
    the limit. *)
Theorem inline_dispatch_ignores_admission :
  enableQueueing (config oneInFlight) = false /\
  requestCounter (state oneInFlight) = burstLimit (config oneInFlight) /\
  fst (canMakeRequest (config oneInFlight) "crm.deal.list" 1001 (state oneInFlight)) = false /\
  trace (step 1001 (CallExecuteRequest "b" "crm.deal.list" 0) oneInFlight)
    = (trace oneInFlight ++ [EvDispatched "b"])%list /\
  requestCounter (state (step 1001 (CallExecuteRequest "b" "crm.deal.list" 0) oneInFlight)) = 2.
Proof. vm_compute. repeat split; reflexivity. Qed.

End Admission.

(** ** The queue and its drain loop *)
Section Queue.
Import BitrixRateLimiter.

Lemma compareFn_before (x y : QueuedRequest) :
  (compareFn x y <? 0) = true -> queueOrder x y.
Proof.
  unfold compareFn, queueOrder. intros H. apply Z.ltb_lt in H.
  destruct (Z.eqb_spec (priority y - priority x) 0); lia.
Qed.

Lemma compareFn_not_before (x y : QueuedRequest) :
  (compareFn x y <? 0) = false -> queueOrder y x.
Proof.
  unfold compareFn, queueOrder. intros H. apply Z.ltb_ge in H.
  destruct (Z.eqb_spec (priority y - priority x) 0); lia.
Qed.

Lemma queueOrder_trans (x y z : QueuedRequest) :
  queueOrder x y -> queueOrder y z -> queueOrder x z.
Proof. unfold queueOrder. lia. Qed.

Lemma insertSorted_Forall (P : QueuedRequest -> Prop) (x : QueuedRequest)
  (l : list QueuedRequest) :
  P x -> Forall P l -> Forall P (insertSorted x l).
Proof.
  intros Hx. induction 1 as [|y l Hy Hl IH]; cbn [insertSorted].
  - repeat constructor. exact Hx.
  - destruct (compareFn x y <? 0); repeat constructor; assumption.
Qed.

Lemma insertSorted_sorted (x : QueuedRequest) (l : list QueuedRequest) :
  StronglySorted queueOrder l -> StronglySorted queueOrder (insertSorted x l).
Proof.
  induction 1 as [|y l Hl IH Hy]; cbn [insertSorted].
  - repeat constructor.
  - destruct (compareFn x y <? 0) eqn:Hc.
    + apply compareFn_before in Hc. constructor.
      * constructor; assumption.
      * constructor; [exact Hc|].
        eapply Forall_impl; [exact Hy|]. intros z Hz. cbn beta.
        eapply queueOrder_trans; eassumption.
    + apply compareFn_not_before in Hc. constructor; [exact IH|].
      apply insertSorted_Forall; assumption.
Qed.

Lemma insertSorted_perm (x : QueuedRequest) (l : list QueuedRequest) :
  Permutation (insertSorted x l) (x :: l).
Proof.
  induction l as [|y l IH]; cbn [insertSorted]; [reflexivity|].
  destruct (compareFn x y <? 0); [reflexivity|].
  rewrite IH. apply perm_swap.
Qed.

Lemma sort_sorted (l : list QueuedRequest) : StronglySorted queueOrder (sort l).
Proof.
  unfold sort. induction (rev l) as [|x l' IH]; cbn [sortRev].
  - constructor.
  - apply insertSorted_sorted. exact IH.
Qed.

Lemma sort_perm (l : list QueuedRequest) : Permutation (sort l) l.
Proof.
  unfold sort. rewrite (Permutation_rev l) at 2.
  induction (rev l) as [|x l' IH]; cbn [sortRev]; [reflexivity|].
  rewrite insertSorted_perm, IH. reflexivity.
Qed.

Lemma filter_sorted (f : QueuedRequest -> bool) (l : list QueuedRequest) :
  StronglySorted queueOrder l -> StronglySorted queueOrder (List.filter f l).
Proof.
  induction 1 as [|y l Hl IH Hy]; cbn [List.filter]; [constructor|].
  destruct (f y); [|exact IH]. constructor; [exact IH|].
  apply Forall_forall. intros z Hz. apply list_elem_of_In, List.filter_In in Hz.
  destruct Hz as [Hz _]. eapply Forall_forall in Hy; [exact Hy|].
  apply list_elem_of_In. exact Hz.
Qed.

(** What one run of the [while] loop does to the queue: it drops expired
    requests from the front, and then either finds the queue empty, or
    stops in front of a request that is not admitted, or takes the first
    request that has not expired. *)
Lemma drain_spec (cfg : RateLimitConfig) (nowMs : Z) (q : list QueuedRequest)
  (st : RateLimitState) :
  exists dropped : list QueuedRequest,
    Forall (fun r => expired cfg nowMs r = true) dropped /\
    match drain cfg nowMs q st with
    | (_, q2, _, LoopExit) => q = dropped /\ q2 = []
    | (_, q2, _, LoopWait) =>
        q = (dropped ++ q2)%list /\
        exists r rest, q2 = r :: rest /\ expired cfg nowMs r = false /\
          fst (canMakeRequest cfg (method r) nowMs st) = false
    | (_, q2, _, LoopExecute r) =>
        q = (dropped ++ r :: q2)%list /\ expired cfg nowMs r = false /\
        fst (canMakeRequest cfg (method r) nowMs st) = true
    end.
Proof.
  induction q as [|r q IH]; cbn [drain].
  - exists []. split; [constructor | split; reflexivity].
  - destruct (expired cfg nowMs r) eqn:Hexp.
    + destruct IH as (dropped & Hdropped & IH).
      destruct (drain cfg nowMs q st) as [[[evs q2] st2] stop].
      exists (r :: dropped). split; [constructor; assumption|].
      destruct stop.
      * destruct IH as [-> ->]. split; reflexivity.
      * destruct IH as [-> IH]. split; [reflexivity | exact IH].
      * destruct IH as [-> IH]. split; [reflexivity | exact IH].
    + exists []. split; [constructor|].
      destruct (canMakeRequest cfg (method r) nowMs st) as [ok st1] eqn:Hcan.
      destruct ok.
      * split; [reflexivity|]. split; [exact Hexp | rewrite Hcan; reflexivity].
      * split; [reflexivity|]. exists r, q. rewrite Hcan.
        split; [reflexivity|]. split; [exact Hexp | reflexivity].
Qed.

Lemma drain_sorted (cfg : RateLimitConfig) (nowMs : Z) (q : list QueuedRequest)
  (st : RateLimitState) :
  StronglySorted queueOrder q ->
  StronglySorted queueOrder (snd (fst (fst (drain cfg nowMs q st)))).
Proof.
  intros Hq. destruct (drain_spec cfg nowMs q st) as (dropped & _ & H).
  destruct (drain cfg nowMs q st) as [[[evs q2] st2] stop]. cbn [fst snd].
  destruct stop.
  - destruct H as [_ ->]. constructor.
  - destruct H as [-> _]. apply StronglySorted_app_1_r in Hq. exact Hq.
  - destruct H as [-> _]. apply StronglySorted_app_1_r in Hq.
    apply StronglySorted_inv in Hq. apply Hq.
Qed.

Lemma processQueue_loop_queue (nowMs : Z) (w : BitrixRateLimiter.t) :
  requestQueue (processQueue_loop nowMs w) =
  snd (fst (fst (drain (config w) nowMs (requestQueue w) (state w)))).
Proof.
  unfold processQueue_loop.
  destruct (drain (config w) nowMs (requestQueue w) (state w)) as [[[evs q2] st2] stop].
  destruct stop; reflexivity.
Qed.

Lemma processQueue_sorted (nowMs : Z) (w : BitrixRateLimiter.t) :
  StronglySorted queueOrder (requestQueue w) ->
  StronglySorted queueOrder (requestQueue (processQueue nowMs w)).
Proof.
  intros H. unfold processQueue.
  destruct (processingQueue w || bool_decide (requestQueue w = [])); [exact H|].
  rewrite processQueue_loop_queue. apply drain_sorted. exact H.
Qed.

Lemma addToQueue_sorted (request : QueuedRequest) (nowMs : Z) (w : BitrixRateLimiter.t) :
  StronglySorted queueOrder (requestQueue w) ->
  StronglySorted queueOrder (requestQueue (addToQueue request nowMs w)).
Proof.
  intros H. unfold addToQueue.
  destruct (maxQueueSize (config w) <=? Z.of_nat (length (requestQueue w))); [exact H|].
  cbn. apply filter_sorted, sort_sorted.
Qed.

Lemma executeQueuedRequest_resume_queue (request : QueuedRequest) (o : Outcome)
  (nowMs : Z) (w : BitrixRateLimiter.t) :
  requestQueue (executeQueuedRequest_resume request o nowMs w) = requestQueue w.
Proof.
  destruct o as [op rs|msg]; [reflexivity|].
  cbn [executeQueuedRequest_resume]. unfold handleRequestError.
  repeat match goal with
  | |- context [if ?b then _ else _] => destruct b
  end; reflexivity.
Qed.

Lemma step_sorted (nowMs : Z) (l : Label) (w : BitrixRateLimiter.t) :
  StronglySorted queueOrder (requestQueue w) ->
  StronglySorted queueOrder (requestQueue (step nowMs l w)).
Proof.
  intros H. destruct l as [id m prio|m| | | |k o|k|k|]; cbn [step]; try exact H.
  - unfold executeRequest. destruct (enableQueueing (config w)); [|exact H].
    apply processQueue_sorted, addToQueue_sorted, H.
  - constructor.
  - destruct (running w !! k) as [[p request]|]; [|exact H].
    rewrite executeQueuedRequest_resume_queue. exact H.
  - destruct (loops w !! k) as [c|]; [|exact H].
    destruct (runnable c w); [|exact H].
    rewrite processQueue_loop_queue. apply drain_sorted. exact H.
  - destruct (timers w !! k) as [request|]; [|exact H].
    apply processQueue_sorted, addToQueue_sorted, H.
  - destruct (counterDecreaseInterval w); exact H.
Qed.

Lemma run_sorted (sched : list (Z * Label)) :
  forall w : BitrixRateLimiter.t,
  StronglySorted queueOrder (requestQueue w) ->
  StronglySorted queueOrder (requestQueue (run sched w)).
Proof.
  induction sched as [|[now l] rest IH]; intros w H; cbn [run]; [exact H|].
  apply IH, step_sorted, H.
Qed.

End Queue.

Section ServiceOrder.
Import BitrixRateLimiter.

(** C7, as stated, fails in its example: on an idle limiter with the
    default configuration the first unit is dispatched inside its own
    [executeRequest], before the other two are enqueued, so the service
    order of priorities [0; 100; -100] is [0; 100; -100]. *)
Lemma service_order_idle_counterexample :
  serviceOrder (trace (run (firstn 1 threeUnits) (create defaultConfig 0))) = ["prio0"] /\
  serviceOrder (trace (run submittedIdle (create defaultConfig 0)))
    = ["prio0"; "prio100"; "prio-100"] /\
  serviceOrder (trace (run submittedIdle (create defaultConfig 0)))
    <> ["prio100"; "prio0"; "prio-100"].
Proof.
  split; [vm_compute; reflexivity|]. split; [vm_compute; reflexivity|].
  vm_compute. discriminate.
Qed.

(** C7, amended. In every state the limiter can reach, the pending queue
    is ordered by priority descending and, among equal priorities, by
    enqueue timestamp ascending; whenever the drain loop dispatches, it
    takes the first request of the queue that has not expired, which
    precedes all that stay queued. A unit submitted to an idle, open
    limiter is dispatched at once, ahead of later submissions whatever
    their priority; units with priorities [0; 100; -100] submitted while
    an earlier unit is in flight are served in the order
    [100; 0; -100]. *)
Theorem queue_order_invariant (cfg : RateLimitConfig) (t0 : Z)
  (sched : list (Z * Label)) (nowMs : Z) :
  let w := run sched (create cfg t0) in
  StronglySorted queueOrder (requestQueue w) /\
  match drain (config w) nowMs (requestQueue w) (state w) with
  | (_, q2, _, LoopExecute r) =>
      exists dropped : list QueuedRequest,
        requestQueue w = (dropped ++ r :: q2)%list /\
        Forall (fun d => expired (config w) nowMs d = true) dropped /\
        expired (config w) nowMs r = false /\
        Forall (queueOrder r) q2
  | _ => True
  end /\
  serviceOrder (trace (run submittedBusy (create defaultConfig 0)))
    = ["earlier"; "prio100"; "prio0"; "prio-100"] /\
  serviceOrder (trace (run submittedIdle (create defaultConfig 0)))
    = ["prio0"; "prio100"; "prio-100"].
Proof.
  intros w.
  assert (Hsorted : StronglySorted queueOrder (requestQueue w)).
  { subst w. apply run_sorted. constructor. }
  split; [exact Hsorted|]. split; [|split; vm_compute; reflexivity].
  destruct (drain_spec (config w) nowMs (requestQueue w) (state w)) as (dropped & Hdropped & H).
  destruct (drain (config w) nowMs (requestQueue w) (state w)) as [[[evs q2] st2] stop].
  destruct stop as [| |r]; try exact I.
  destruct H as (Hq & Hexp & _). exists dropped.
  split; [exact Hq|]. split; [exact Hdropped|]. split; [exact Hexp|].
  rewrite Hq in Hsorted. apply StronglySorted_app_1_r in Hsorted.
  apply StronglySorted_inv in Hsorted. apply Hsorted.
Qed.

End ServiceOrder.

(** ** One drain loop *)
Section DrainLoop.
Import BitrixRateLimiter.

(** a run of the loop either ends, with the flag cleared and the queue
    empty, or suspends once more *)
Lemma processQueue_loop_cases (nowMs : Z) (w : BitrixRateLimiter.t) :
  (processingQueue (processQueue_loop nowMs w) = false /\
   loops (processQueue_loop nowMs w) = loops w /\
   requestQueue (processQueue_loop nowMs w) = []) \/
  (processingQueue (processQueue_loop nowMs w) = processingQueue w /\
   exists c, loops (processQueue_loop nowMs w) = (loops w ++ [c])%list).
Proof.
  unfold processQueue_loop.
  destruct (drain_spec (config w) nowMs (requestQueue w) (state w)) as (dropped & _ & H).
  destruct (drain (config w) nowMs (requestQueue w) (state w)) as [[[evs q2] st2] stop].
  destruct stop as [| |r].
  - left. destruct H as [_ ->]. repeat split.
  - right. split; [reflexivity|]. eexists; reflexivity.
  - right. split; [reflexivity|]. eexists; reflexivity.
Qed.

Lemma addToQueue_flags (request : QueuedRequest) (nowMs : Z) (w : BitrixRateLimiter.t) :
  processingQueue (addToQueue request nowMs w) = processingQueue w /\
  loops (addToQueue request nowMs w) = loops w.
Proof.
  unfold addToQueue.
  destruct (maxQueueSize (config w) <=? Z.of_nat (length (requestQueue w))); split; reflexivity.
Qed.

Lemma executeQueuedRequest_resume_flags (request : QueuedRequest) (o : Outcome)
  (nowMs : Z) (w : BitrixRateLimiter.t) :
  processingQueue (executeQueuedRequest_resume request o nowMs w) = processingQueue w /\
  loops (executeQueuedRequest_resume request o nowMs w) = loops w.
Proof.
  destruct o as [op rs|msg]; [split; reflexivity|].
  cbn [executeQueuedRequest_resume]. unfold handleRequestError.
  repeat match goal with
  | |- context [if ?b then _ else _] => destruct b
  end; split; reflexivity.
Qed.

(** a call of [processQueue] that finds the flag set, or the queue
    empty, returns at once and touches nothing *)
Lemma processQueue_returns (nowMs : Z) (w : BitrixRateLimiter.t) :
  processingQueue w = true \/ requestQueue w = [] -> processQueue nowMs w = w.
Proof.
  intros [H|H]; unfold processQueue; rewrite H; [reflexivity|].
  rewrite bool_decide_eq_true_2 by reflexivity. rewrite orb_true_r. reflexivity.
Qed.

Lemma processQueue_inv (nowMs : Z) (w : BitrixRateLimiter.t) :
  loopInv w -> loopInv (processQueue nowMs w).
Proof.
  intros Hinv. unfold processQueue.
  destruct (processingQueue w) eqn:Hflag; cbn [orb]; [exact Hinv|].
  destruct (bool_decide (requestQueue w = [])); [exact Hinv|].
  destruct Hinv as [[_ Hloops]|[Hcontra _]]; [|congruence].
  destruct (processQueue_loop_cases nowMs (withProcessing true w))
    as [(Hf & Hl & _)|(Hf & c & Hl)]; cbn [loops processingQueue withProcessing] in *.
  - left. split; [exact Hf|]. rewrite Hl. exact Hloops.
  - right. split; [exact Hf|]. exists c. rewrite Hl, Hloops. reflexivity.
Qed.

Lemma loopInv_flags (w w' : BitrixRateLimiter.t) :
  processingQueue w' = processingQueue w -> loops w' = loops w ->
  loopInv w -> loopInv w'.
Proof. unfold loopInv. intros -> ->. tauto. Qed.

Lemma step_inv (nowMs : Z) (l : Label) (w : BitrixRateLimiter.t) :
  loopInv w -> loopInv (step nowMs l w).
Proof.
  intros Hinv. destruct l as [id m prio|m| | | |k o|k|k|]; cbn [step].
  - unfold executeRequest. destruct (enableQueueing (config w)).
    + apply processQueue_inv.
      destruct (addToQueue_flags
                  {| reqId := id; method := m; priority := prio;
                     timestamp := nowMs; retryCount := 0 |} nowMs w) as [Hf Hl].
      eapply loopInv_flags; eassumption.
    + exact Hinv.
  - exact Hinv.
  - exact Hinv.
  - exact Hinv.
  - unfold destroy. destruct (counterDecreaseInterval w); exact Hinv.
  - destruct (running w !! k) as [[p request]|]; [|exact Hinv].
    match goal with |- loopInv (executeQueuedRequest_resume ?r ?o ?n ?w0) =>
      destruct (executeQueuedRequest_resume_flags r o n w0) as [Hf Hl]
    end.
    eapply loopInv_flags; eassumption.
  - destruct (loops w !! k) as [c|] eqn:Hk; [|exact Hinv].
    destruct (runnable c w); [|exact Hinv].
    destruct Hinv as [[_ Hloops]|[Hflag [c' Hloops]]].
    + rewrite Hloops in Hk. discriminate.
    + rewrite Hloops in Hk. destruct k as [|k]; [|discriminate].
      destruct (processQueue_loop_cases nowMs (withLoops (delete 0%nat (loops w)) w))
        as [(Hf & Hl & _)|(Hf & c2 & Hl)];
        rewrite Hloops in *; cbn [loops processingQueue withLoops delete list_delete] in *.
      * left. split; assumption.
      * right. split; [congruence|]. exists c2. exact Hl.
  - destruct (timers w !! k) as [request|]; [|exact Hinv].
    apply processQueue_inv.
    match goal with |- loopInv (addToQueue ?r ?n ?w0) =>
      destruct (addToQueue_flags r n w0) as [Hf Hl]
    end.
    eapply loopInv_flags; eassumption.
  - destruct (counterDecreaseInterval w); exact Hinv.
Qed.

Lemma run_inv (sched : list (Z * Label)) :
  forall w : BitrixRateLimiter.t, loopInv w -> loopInv (run sched w).
Proof.
  induction sched as [|[now l] rest IH]; intros w H; cbn [run]; [exact H|].
  apply IH, step_inv, H.
Qed.

(** a step that clears the flag ends the loop on an empty queue *)
Lemma step_clears_flag (nowMs : Z) (l : Label) (w : BitrixRateLimiter.t) :
  loopInv w -> processingQueue w = true ->
  processingQueue (step nowMs l w) = false ->
  loops (step nowMs l w) = [] /\ requestQueue (step nowMs l w) = [].
Proof.
  intros Hinv Hflag. destruct l as [id m prio|m| | | |k o|k|k|]; cbn [step].
  - unfold executeRequest. destruct (enableQueueing (config w)).
    + rewrite processQueue_returns.
      * rewrite (proj1 (addToQueue_flags _ _ _)). congruence.
      * left. rewrite (proj1 (addToQueue_flags _ _ _)). exact Hflag.
    + cbn. congruence.
  - cbn. congruence.
  - cbn. congruence.
  - cbn. congruence.
  - unfold destroy. destruct (counterDecreaseInterval w); cbn; congruence.
  - destruct (running w !! k) as [[p request]|]; [|congruence].
    rewrite (proj1 (executeQueuedRequest_resume_flags _ _ _ _)). cbn. congruence.
  - destruct (loops w !! k) as [c|] eqn:Hk; [|congruence].
    destruct (runnable c w); [|congruence].
    destruct Hinv as [[Hcontra _]|[_ [c' Hloops]]]; [congruence|].
    rewrite Hloops in Hk. destruct k as [|k]; [|discriminate].
    destruct (processQueue_loop_cases nowMs (withLoops (delete 0%nat (loops w)) w))
      as [(Hf & Hl & Hq)|(Hf & c2 & Hl)];
      rewrite Hloops in *; cbn [loops processingQueue withLoops delete list_delete] in *.
    * intros _. split; assumption.
    * congruence.
  - destruct (timers w !! k) as [request|]; [|congruence].
    rewrite processQueue_returns.
    * rewrite (proj1 (addToQueue_flags _ _ _)). cbn. congruence.
    * left. rewrite (proj1 (addToQueue_flags _ _ _)). exact Hflag.
  - destruct (counterDecreaseInterval w); cbn; congruence.
Qed.

(** one unit submitted to a fresh limiter: the loop is suspended on it,
    and ends once the unit has settled *)
Example drain_loop_starts_and_ends :
  let w := run [(1000, CallExecuteRequest "a" "crm.deal.list" 0)] (create defaultConfig 0) in
  let w' := run [(1100, Settle 0 (Success None None)); (1100, Resume 0)] w in
  processingQueue w = true /\ loops w = [AwaitExec 0] /\
  processingQueue w' = false /\ loops w' = [] /\ requestQueue w' = [].
Proof. vm_compute. repeat split; reflexivity. Qed.

(** C10. In every state the limiter can reach, at most one call of
    [processQueue] is suspended in its loop, and [processingQueue] is
    set exactly then; a call of [processQueue] made while the flag is
    set, or while the queue is empty, returns the limiter as it is, no
    request inspected or popped; and when a step clears the flag, the
    loop has ended and the queue is empty. *)
Theorem single_drain_loop (cfg : RateLimitConfig) (t0 : Z)
  (sched : list (Z * Label)) (nowMs : Z) (l : Label) :
  let w := run sched (create cfg t0) in
  (length (loops w) <= 1)%nat /\
  (processingQueue w = true <-> length (loops w) = 1%nat) /\
  (processingQueue w = true \/ requestQueue w = [] -> processQueue nowMs w = w) /\
  (processingQueue w = true /\ processingQueue (step nowMs l w) = false ->
     loops (step nowMs l w) = [] /\ requestQueue (step nowMs l w) = []).
Proof.
  intros w.
  assert (Hinv : loopInv w).
  { subst w. apply run_inv. left. split; reflexivity. }
  split; [|split; [|split]].
  - destruct Hinv as [[_ ->]|[_ [c ->]]]; cbn; lia.
  - destruct Hinv as [[Hf ->]|[Hf [c ->]]]; cbn; rewrite Hf; split; auto; discriminate.
  - apply processQueue_returns.
  - intros [Hflag Hclear]. apply step_clears_flag; assumption.
Qed.

End DrainLoop.

(** ** The credential manager: the other accessors *)
Section Accessors.
Import BitrixOAuth2 TokenManager.

(** a larger margin finds more tokens expired *)
Lemma isTokenExpired_margin_mono (m1 m2 : Z) (tm : TokenManager.t) (nowMs : Z) :
  m1 <= m2 -> isTokenExpired m1 tm nowMs = true -> isTokenExpired m2 tm nowMs = true.
Proof.
  intros Hle. unfold isTokenExpired.
  destruct (tokens tm) as [tk|]; [|reflexivity].
  destruct (tokenIssuedAt tm) as [issued|]; [|reflexivity].
  destruct (issued =? 0); [reflexivity|].
  destruct (expires_in tk) as [e|]; [|discriminate].
  intros H. apply Z.leb_le in H. apply Z.leb_le. lia.
Qed.

Lemma isTokenExpired_spec (m : Z) (tm : TokenManager.t) (tk : TokenResponse)
  (issued e nowMs : Z) :
  tokens tm = Some tk -> tokenIssuedAt tm = Some issued -> issued <> 0 ->
  expires_in tk = Some e ->
  isTokenExpired m tm nowMs = (issued + e - m * 60 <=? seconds nowMs).
Proof.
  intros Ht Hi Hz He. unfold isTokenExpired. rewrite Ht, Hi, He.
  destruct (Z.eqb_spec issued 0); [contradiction | reflexivity].
Qed.

(** X1. [hasValidTokens] passes 60 to a parameter counted in minutes: for
    credentials held since second [issued] that live [e] seconds it is
    true exactly when [now < issued + e - 3600]. Credentials that live an
    hour or less are therefore never valid for it from their issue on, and
    [apiCallRaw] throws for them. *)
Theorem hasValidTokens_hour_margin (tm : TokenManager.t) (tk : TokenResponse)
  (issued e nowMs : Z) :
  tokens tm = Some tk -> tokenIssuedAt tm = Some issued -> 0 < issued ->
  expires_in tk = Some e ->
  (hasValidTokens tm nowMs = true <-> seconds nowMs < issued + e - 3600) /\
  (e <= 3600 -> issued <= seconds nowMs ->
     hasValidTokens tm nowMs = false /\
     BitrixSDK.apiCallRaw_guard nowMs tm
       = Some "No valid tokens available. Call ensureAuthenticated() first.").
Proof.
  intros Ht Hi Hpos He.
  assert (Hv : hasValidTokens tm nowMs = negb (issued + e - 60 * 60 <=? seconds nowMs)).
  { unfold hasValidTokens. rewrite Ht.
    rewrite (isTokenExpired_spec 60 tm tk issued e nowMs Ht Hi ltac:(lia) He). reflexivity. }
  split.
  - rewrite Hv. destruct (Z.leb_spec (issued + e - 60 * 60) (seconds nowMs)); cbn; split;
      intros; try lia; try discriminate; reflexivity.
  - intros Hle Hnow.
    assert (Hf : hasValidTokens tm nowMs = false).
    { rewrite Hv. destruct (Z.leb_spec (issued + e - 60 * 60) (seconds nowMs)); [reflexivity | lia]. }
    split; [exact Hf|]. unfold BitrixSDK.apiCallRaw_guard. rewrite Hf. reflexivity.
Qed.

(** the one-hour credentials of [holding], one second after their issue *)
Lemma hasValidTokens_hour_margin_witness :
  hasValidTokens (holding 1700000000) 1700000001000 = false /\
  (hasValidTokens (holdingDay 1700000000) 1700000001000 = true
     <-> seconds 1700000001000 < 1700000000 + 86400 - 3600).
Proof.
  split.
  - apply (hasValidTokens_hour_margin (holding 1700000000) heldTokens 1700000000 3600
             1700000001000); [reflexivity | reflexivity | lia | reflexivity | lia | ].
    vm_compute. discriminate.
  - apply (hasValidTokens_hour_margin (holdingDay 1700000000) dayTokens 1700000000 86400
             1700000001000); [reflexivity | reflexivity | lia | reflexivity].
Defined.

(** X2. When [hasValidTokens] answers true, [getValidToken] returns the
    held access token at once, without a refresh and without changing the
    manager, and [ensureAuthenticated] returns at once. *)
Theorem hasValidTokens_then_getValidToken (autoAuth : bool) (tm : TokenManager.t)
  (nowMs : Z) :
  hasValidTokens tm nowMs = true ->
  exists tk, tokens tm = Some tk /\
    getValidToken_start nowMs tm = (Done (Return (access_token tk)), tm) /\
    BitrixSDK.ensureAuthenticated_start autoAuth nowMs tm
      = (BitrixSDK.EnsureDone BitrixSDK.Authenticated, tm).
Proof.
  intros Hv. unfold hasValidTokens in Hv.
  destruct (tokens tm) as [tk|] eqn:Ht; [|discriminate].
  exists tk. split; [reflexivity|]. split.
  - unfold getValidToken_start. rewrite Ht.
    destruct (isTokenExpiringSoon tm nowMs) eqn:Hsoon; [|reflexivity].
    unfold isTokenExpiringSoon in Hsoon.
    rewrite (isTokenExpired_margin_mono 5 60 tm nowMs ltac:(lia) Hsoon) in Hv. discriminate.
  - unfold BitrixSDK.ensureAuthenticated_start, hasValidTokens. rewrite Ht, Hv. reflexivity.
Qed.

Lemma hasValidTokens_then_getValidToken_witness :
  exists tk, tokens (holdingDay 1700000000) = Some tk /\
    getValidToken_start 1700000001000 (holdingDay 1700000000)
      = (Done (Return (access_token tk)), holdingDay 1700000000) /\
    BitrixSDK.ensureAuthenticated_start true 1700000001000 (holdingDay 1700000000)
      = (BitrixSDK.EnsureDone BitrixSDK.Authenticated, holdingDay 1700000000).
Proof.
  apply (hasValidTokens_then_getValidToken true (holdingDay 1700000000) 1700000001000).
  reflexivity.
Defined.

(** X3. [getTokenExpiresIn] is never negative, and for every margin of
    zero minutes or more the token counts as expired exactly when the
    seconds it reports are within the margin; in particular it reports 0
    exactly when [isTokenExpired()] holds. *)
Theorem getTokenExpiresIn_within_margin (marginMinutes : Z) (tm : TokenManager.t)
  (nowMs : Z) :
  0 <= marginMinutes ->
  (isTokenExpired marginMinutes tm nowMs = true <->
     exists n, getTokenExpiresIn tm nowMs = Some n /\ n <= marginMinutes * 60) /\
  (getTokenExpiresIn tm nowMs = Some 0 <-> isTokenExpired 0 tm nowMs = true) /\
  (forall n, getTokenExpiresIn tm nowMs = Some n -> 0 <= n).
Proof.
  intros Hm. unfold isTokenExpired, getTokenExpiresIn.
  destruct (tokens tm) as [tk|].
  2:{ repeat split; intros; try (eexists; split; [reflexivity | lia]); try congruence.
      injection H as <-. lia. }
  destruct (tokenIssuedAt tm) as [issued|].
  2:{ repeat split; intros; try (eexists; split; [reflexivity | lia]); try congruence.
      injection H as <-. lia. }
  destruct (issued =? 0).
  { repeat split; intros; try (eexists; split; [reflexivity | lia]); try congruence.
    injection H as <-. lia. }
  destruct (expires_in tk) as [e|].
  2:{ repeat split; intros; try discriminate. destruct H as (n & H & _). discriminate. }
  split; [|split].
  - split.
    + intros H. apply Z.leb_le in H. eexists. split; [reflexivity | lia].
    + intros (n & [= <-] & Hn). apply Z.leb_le. lia.
  - split.
    + intros [= H]. apply Z.leb_le. lia.
    + intros H. apply Z.leb_le in H. f_equal. lia.
  - intros n [= <-]. lia.
Qed.

Lemma getTokenExpiresIn_within_margin_witness :
  isTokenExpired 5 (holding 1700000000) 1700003595000 = true <->
  exists n, getTokenExpiresIn (holding 1700000000) 1700003595000 = Some n /\ n <= 5 * 60.
Proof.
  apply (getTokenExpiresIn_within_margin 5 (holding 1700000000) 1700003595000). lia.
Defined.

(** X4. A well-formed envelope is accepted by [setTokens]: it replaces the
    held credentials, is stamped with the current second and leaves a
    refresh in flight alone. Right afterwards [getValidToken] returns its
    access token exactly when it lives longer than the five-minute
    margin. *)
Theorem setTokens_then_getValidToken (tk : TokenResponse) (e nowMs : Z)
  (tm : TokenManager.t) :
  ~ malformed tk -> expires_in tk = Some e -> 0 < seconds nowMs ->
  let tm' := snd (setTokens tk nowMs tm) in
  fst (setTokens tk nowMs tm) = None /\
  tokens tm' = Some tk /\ tokenIssuedAt tm' = Some (seconds nowMs) /\
  refreshPromise tm' = refreshPromise tm /\
  (getValidToken_start nowMs tm' = (Done (Return (access_token tk)), tm') <-> 300 < e).
Proof.
  intros Hwf He Hnow tm'.
  assert (Hv : validateTokenStructure tk = None).
  { destruct (validateTokenStructure tk) as [m|] eqn:Hv; [|reflexivity].
    exfalso. apply Hwf. unfold malformed. unfold validateTokenStructure in Hv.
    destruct (truthyStr (access_token tk)); [|auto].
    destruct (truthyStr (domain tk)); [|auto].
    right. right. rewrite He in *. cbn [truthyNum] in Hv.
    destruct (Z.eqb_spec e 0); [lia|]. cbn in Hv.
    destruct (Z.leb_spec e 0); [lia | discriminate]. }
  subst tm'. unfold setTokens. rewrite Hv. cbn [fst snd tokens tokenIssuedAt refreshPromise].
  repeat (split; [reflexivity|]).
  match goal with |- getValidToken_start _ ?t = _ <-> _ => set (tm' := t) end.
  assert (Hsoon : isTokenExpiringSoon tm' nowMs = negb (seconds nowMs <? seconds nowMs + e - 300)).
  { apply (isTokenExpiringSoon_spec tm' tk (seconds nowMs) e nowMs);
      [reflexivity | reflexivity | lia | exact He]. }
  unfold getValidToken_start. cbn [tokens tm']. fold tm'. rewrite Hsoon.
  destruct (Z.ltb_spec (seconds nowMs) (seconds nowMs + e - 300)) as [Hlt|Hge]; cbn [negb].
  - split; [lia | reflexivity].
  - split; [|lia]. intros H.
    destruct (negb (truthyStr (refresh_token tk))); [discriminate|].
    destruct (refreshPromise tm'); [discriminate|].
    destruct (refreshTokens_start tm'). discriminate.
Qed.

Lemma setTokens_then_getValidToken_witness :
  fst (setTokens dayTokens 1700000001000 (holding 1700000000)) = None /\
  tokens (snd (setTokens dayTokens 1700000001000 (holding 1700000000))) = Some dayTokens.
Proof.
  destruct (setTokens_then_getValidToken dayTokens 86400 1700000001000 (holding 1700000000))
    as (H1 & H2 & _).
  - intros [H|[H|H]]; [discriminate H | discriminate H | cbn in H; lia].
  - reflexivity.
  - vm_compute. reflexivity.
  - split; assumption.
Defined.

End Accessors.

(** ** Refresh: how it composes with the other operations *)
Section RefreshComposition.
Import BitrixOAuth2 TokenManager.

Lemma networkRefreshes_emit (tm : TokenManager.t) (evs : list TokenManager.Event) :
  networkRefreshes (Build_t (tokens tm) (tokenIssuedAt tm) (refreshPromise tm) (promises tm)
                            (trace tm ++ evs)) =
  (networkRefreshes tm + length (List.filter isNetworkRefresh evs))%nat.
Proof.
  unfold networkRefreshes. cbn [trace]. rewrite List.filter_app, length_app. reflexivity.
Qed.

(** X5. A refresh in flight is not cancelled by [clearTokens] or
    [setTokens]: whatever the manager holds when the refresh succeeds, the
    caller that awaited it installs the refreshed credentials, stamped with
    the second of the settlement, and returns their access token. *)
Theorem refresh_in_flight_overwrites (tm : TokenManager.t) (p : nat)
  (newTokens other : TokenResponse) (nowSet nowSettle : Z) :
  promises tm !! p = Some Pending ->
  promises (clearTokens tm) !! p = Some Pending /\
  tokens (clearTokens tm) = None /\
  promises (snd (setTokens other nowSet tm)) !! p = Some Pending /\
  forall tm1 : TokenManager.t,
    promises tm1 !! p = Some Pending ->
    let resumed := getValidToken_resume p (refreshTokens_resume p (Ok newTokens) nowSettle tm1) in
    fst resumed = Done (Return (access_token newTokens)) /\
    tokens (snd resumed) = Some newTokens /\
    tokenIssuedAt (snd resumed) = Some (seconds nowSettle) /\
    refreshPromise (snd resumed) = None.
Proof.
  intros Hp. split; [exact Hp|]. split; [reflexivity|]. split.
  - unfold setTokens. destruct (validateTokenStructure other); exact Hp.
  - intros tm1 Hp1 resumed. subst resumed.
    unfold refreshTokens_resume. rewrite Hp1.
    unfold getValidToken_resume. cbn [promises settlePromise].
    rewrite list_lookup_insert_eq by (eapply lookup_lt_Some; exact Hp1).
    repeat split.
Qed.

(** the manager logs out while its refresh is in flight; the refresh then
    succeeds *)
Lemma refresh_in_flight_overwrites_witness :
  tokens (clearTokens refreshInFlight) = None /\
  tokens (snd (getValidToken_resume 0
                 (refreshTokens_resume 0 (Ok refreshedTokens) 1700003597000
                    (clearTokens refreshInFlight)))) = Some refreshedTokens.
Proof.
  destruct (refresh_in_flight_overwrites refreshInFlight 0 refreshedTokens noTokens
              1700003596000 1700003597000) as (Hc & Hnone & _ & Hall);
    [reflexivity|].
  split; [exact Hnone|]. apply (Hall (clearTokens refreshInFlight) Hc).
Defined.

(** X6. After a refresh has succeeded and its caller has resumed, every
    call of [getValidToken] before the refreshed credentials come within
    the margin returns their access token at once and changes nothing. If
    the refreshed credentials live five minutes or less, every later call
    waits for yet another refresh. *)
Theorem refreshed_token_is_served (tm : TokenManager.t) (p : nat)
  (newTokens : TokenResponse) (e nowSettle nowMs : Z) :
  promises tm !! p = Some Pending ->
  expires_in newTokens = Some e ->
  0 < seconds nowSettle ->
  let tm' := snd (getValidToken_resume p (refreshTokens_resume p (Ok newTokens) nowSettle tm)) in
  (seconds nowMs < seconds nowSettle + e - 300 ->
     getValidToken_start nowMs tm' = (Done (Return (access_token newTokens)), tm')) /\
  (e <= 300 -> seconds nowSettle <= seconds nowMs ->
     truthyStr (refresh_token newTokens) = true ->
     fst (getValidToken_start nowMs tm') = Await (length (promises tm')) /\
     networkRefreshes (snd (getValidToken_start nowMs tm')) = S (networkRefreshes tm')).
Proof.
  intros Hp He Hpos tm'.
  assert (Hlt : (p < length (promises tm))%nat) by (eapply lookup_lt_Some; exact Hp).
  assert (Htok : tokens tm' = Some newTokens /\ tokenIssuedAt tm' = Some (seconds nowSettle)
                 /\ refreshPromise tm' = None).
  { subst tm'. unfold refreshTokens_resume. rewrite Hp.
    unfold getValidToken_resume. cbn [promises settlePromise].
    rewrite list_lookup_insert_eq by exact Hlt. repeat split. }
  destruct Htok as (Ht & Hi & Hrp).
  assert (Hsoon := isTokenExpiringSoon_spec tm' newTokens (seconds nowSettle) e nowMs
                     Ht Hi ltac:(lia) He).
  split.
  - intros Hnow. unfold getValidToken_start. rewrite Ht, Hsoon.
    destruct (Z.ltb_spec (seconds nowMs) (seconds nowSettle + e - 300)); [reflexivity | lia].
  - intros Hshort Hnow Hrefresh.
    unfold getValidToken_start. rewrite Ht, Hsoon.
    destruct (Z.ltb_spec (seconds nowMs) (seconds nowSettle + e - 300)); [lia|].
    cbn [negb]. rewrite Hrefresh, Hrp. cbn [negb].
    unfold refreshTokens_start. rewrite Ht.
    destruct (refresh_token newTokens) as [r|]; [|discriminate].
    rewrite Hrefresh. cbn [fst snd]. split; [reflexivity|].
    unfold withRefreshPromise, networkRefreshes. cbn [trace].
    rewrite List.filter_app, length_app. cbn. lia.
Qed.

Lemma refreshed_token_is_served_witness :
  getValidToken_start 1700003600000
    (snd (getValidToken_resume 0
            (refreshTokens_resume 0 (Ok refreshedTokens) 1700003597000 refreshInFlight)))
  = (Done (Return (Some "new-access")),
     snd (getValidToken_resume 0
            (refreshTokens_resume 0 (Ok refreshedTokens) 1700003597000 refreshInFlight))).
Proof.
  apply (refreshed_token_is_served refreshInFlight 0 refreshedTokens 3600
           1700003597000 1700003600000);
    [reflexivity | reflexivity | vm_compute; reflexivity | vm_compute; reflexivity].
Defined.

(** X7. [getValidToken] issues a network refresh in exactly one
    situation: credentials are held and expiring within the margin, a
    refresh token is among them, and no refresh is in flight. Resuming a
    caller and settling a refresh never issue one. *)
Theorem network_refresh_exactly_when (tm : TokenManager.t) (nowMs : Z) (p : nat)
  (s : Settled) :
  networkRefreshes (snd (getValidToken_start nowMs tm)) =
    (networkRefreshes tm + (if startsRefresh tm nowMs then 1 else 0))%nat /\
  networkRefreshes (snd (getValidToken_resume p tm)) = networkRefreshes tm /\
  networkRefreshes (refreshTokens_resume p s nowMs tm) = networkRefreshes tm.
Proof.
  split; [|split].
  - unfold getValidToken_start, startsRefresh.
    destruct (tokens tm) as [tk|] eqn:Ht; [|cbn; lia].
    destruct (isTokenExpiringSoon tm nowMs); [|cbn; lia]. cbn [andb].
    destruct (truthyStr (refresh_token tk)) eqn:Hr; cbn [negb andb].
    + destruct (refreshPromise tm) as [q|] eqn:Hrp.
      * rewrite bool_decide_eq_false_2 by discriminate. cbn. lia.
      * rewrite bool_decide_eq_true_2 by reflexivity.
        unfold refreshTokens_start. rewrite Ht.
        destruct (refresh_token tk) as [r|]; [|discriminate]. rewrite Hr.
        unfold withRefreshPromise, networkRefreshes. cbn [fst snd trace].
        rewrite List.filter_app, length_app. cbn. lia.
    + unfold logEvent, networkRefreshes. cbn [snd trace].
      rewrite List.filter_app, length_app. cbn. lia.
  - unfold getValidToken_resume.
    destruct (promises tm !! p) as [[|newTokens|m]|]; cbn [snd]; try reflexivity;
      unfold withRefreshPromise, logEvent, networkRefreshes; cbn [trace];
      rewrite List.filter_app, length_app; cbn; lia.
  - unfold refreshTokens_resume.
    destruct (promises tm !! p) as [[|newTokens|m]|]; try reflexivity.
    destruct s as [newTokens|m]; [reflexivity|].
    destruct (includes m "invalid_grant"); reflexivity.
Qed.

End RefreshComposition.

(** ** The token endpoint and the facade *)
Section Facade.
Import BitrixOAuth2 TokenManager.

(** when the token endpoint's answer is taken as credentials *)
Lemma exchangeCodeForToken_ok_iff (f : Fetched) (t : TokenResponse) :
  exchangeCodeForToken f = Ok t <->
  exists r o, f = FetchResponse r /\ ok r = true /\ body r = Parsed o /\ j_tokens o = t /\
    truthyStr (access_token t) = true /\ truthyNum (expires_in t) = true.
Proof.
  split.
  - unfold exchangeCodeForToken. destruct f as [m|r]; [discriminate|].
    destruct (ok r) eqn:Hok; cbn [negb].
    + destruct (body r) as [m|o] eqn:Hb; [discriminate|].
      destruct (truthyStr (access_token (j_tokens o))) eqn:Ha; cbn; [|discriminate].
      destruct (truthyNum (expires_in (j_tokens o))) eqn:He; cbn; [|discriminate].
      intros [= <-]. exists r, o. repeat split; assumption.
    + destruct (body r); discriminate.
  - intros (r & o & -> & Hok & Hb & <- & Ha & He).
    unfold exchangeCodeForToken. rewrite Hok, Hb, Ha, He. reflexivity.
Qed.

(** X8. [refreshToken] and [exchangeCodeForToken] yield credentials in
    the same case only: the endpoint answers with an ok status and a body
    that parses to an envelope with a non-empty access token and a
    non-zero [expires_in]. Neither looks at [domain], [refresh_token] or
    the sign of [expires_in]. *)
Theorem token_endpoint_success_iff (f : Fetched) (t : TokenResponse) :
  (refreshToken f = Ok t <->
   exists r o, f = FetchResponse r /\ ok r = true /\ body r = Parsed o /\ j_tokens o = t /\
     truthyStr (access_token t) = true /\ truthyNum (expires_in t) = true) /\
  (exchangeCodeForToken f = Ok t <-> refreshToken f = Ok t).
Proof.
  assert (Hr : refreshToken f = Ok t <->
    exists r o, f = FetchResponse r /\ ok r = true /\ body r = Parsed o /\ j_tokens o = t /\
      truthyStr (access_token t) = true /\ truthyNum (expires_in t) = true).
  { split.
    - unfold refreshToken. destruct f as [m|r]; [discriminate|].
      destruct (ok r) eqn:Hok; cbn [negb].
      + destruct (body r) as [m|o] eqn:Hb; [discriminate|].
        destruct (truthyStr (access_token (j_tokens o))) eqn:Ha; cbn; [|discriminate].
        destruct (truthyNum (expires_in (j_tokens o))) eqn:He; cbn; [|discriminate].
        intros [= <-]. exists r, o. repeat split; assumption.
      + destruct (body r) as [m|o].
        * destruct (includes m "Re-authentication required"); discriminate.
        * destruct (bool_decide (j_error o = Some "invalid_grant")); [|discriminate].
          destruct (includes reauthMessage "Re-authentication required"); discriminate.
    - intros (r & o & -> & Hok & Hb & <- & Ha & He).
      unfold refreshToken. rewrite Hok, Hb, Ha, He. reflexivity. }
  split; [exact Hr|]. rewrite Hr. apply exchangeCodeForToken_ok_iff.
Qed.

(** X9. [BitrixSDK.handleCallback] installs the credentials exactly when
    the endpoint answers ok with an envelope that [validateTokenStructure]
    accepts (access token, domain, positive [expires_in]); in every other
    case it fails and the credential manager is left as it was. *)
Theorem handleCallback_installs_iff (f : Fetched) (nowMs : Z) (tm : TokenManager.t)
  (t : TokenResponse) :
  (fst (BitrixSDK.handleCallback f nowMs tm) = BitrixSDK.Installed t <->
   exists r o, f = FetchResponse r /\ ok r = true /\ body r = Parsed o /\ j_tokens o = t /\
     ~ malformed t) /\
  match BitrixSDK.handleCallback f nowMs tm with
  | (BitrixSDK.Installed t', tm') =>
      tokens tm' = Some t' /\ tokenIssuedAt tm' = Some (seconds nowMs)
  | (BitrixSDK.Failed _, tm') => tm' = tm
  end.
Proof.
  unfold BitrixSDK.handleCallback, handleCallback.
  destruct (exchangeCodeForToken f) as [t0|m] eqn:Hx.
  - apply exchangeCodeForToken_ok_iff in Hx as (r & o & -> & Hok & Hb & Hj & Ha & He).
    unfold setTokens.
    destruct (validateTokenStructure t0) as [m|] eqn:Hv; cbn [fst snd].
    + split; [|reflexivity]. split; [discriminate|].
      intros (r' & o' & [= <-] & _ & Hb' & Hj' & Hwf). exfalso.
      rewrite Hb in Hb'. injection Hb' as <-. rewrite Hj in Hj'. subst t.
      apply Hwf. unfold malformed. unfold validateTokenStructure in Hv.
      rewrite Ha in Hv. destruct (truthyStr (domain t0)); [|auto].
      right. right. destruct (expires_in t0) as [e|]; [|exact I].
      rewrite He in Hv. cbn in Hv. destruct (Z.leb_spec e 0); [lia | discriminate].
    + split; [|split; reflexivity]. split.
      * intros [= <-]. exists r, o. repeat split; try assumption.
        apply validateTokenStructure_wellformed. exact Hv.
      * intros (r' & o' & [= <-] & _ & Hb' & Hj' & _).
        rewrite Hb in Hb'. injection Hb' as <-. congruence.
  - cbn [fst snd]. split; [|reflexivity]. split; [discriminate|].
    intros (r & o & -> & Hok & Hb & Hj & Hwf). exfalso.
    assert (Hok' : exchangeCodeForToken (FetchResponse r) = Ok t).
    { apply exchangeCodeForToken_ok_iff. exists r, o. repeat split; try assumption.
      - destruct (truthyStr (access_token t)) eqn:Ha; [reflexivity|].
        exfalso. apply Hwf. left. exact Ha.
      - destruct (expires_in t) as [e|] eqn:He.
        + cbn. destruct (Z.eqb_spec e 0); [|reflexivity].
          exfalso. apply Hwf. right. right. rewrite He. lia.
        + exfalso. apply Hwf. right. right. rewrite He. exact I. }
    congruence.
Qed.

(** X10. [ensureAuthenticated] ends in one of three ways. When it
    returns, credentials are held. When it goes on to ask for
    authorization, the manager holds no credentials: whenever
    [getValidToken] has thrown, for whatever reason, they have been
    cleared. When it is suspended, it awaits the refresh in flight. *)
Theorem ensureAuthenticated_outcomes (autoAuth : bool) (nowMs : Z) (p : nat)
  (tm : TokenManager.t) :
  match BitrixSDK.ensureAuthenticated_start autoAuth nowMs tm with
  | (BitrixSDK.EnsureDone BitrixSDK.Authenticated, tm') => tokens tm' <> None /\ tm' = tm
  | (BitrixSDK.EnsureDone _, tm') => tokens tm' = None
  | (BitrixSDK.EnsureAwait q, tm') => refreshPromise tm' = Some q /\ tokens tm' = tokens tm
  end /\
  match BitrixSDK.ensureAuthenticated_resume autoAuth p tm with
  | (BitrixSDK.EnsureDone BitrixSDK.Authenticated, tm') =>
      exists newTokens, promises tm !! p = Some (Fulfilled newTokens) /\
        tokens tm' = Some newTokens /\ refreshPromise tm' = None
  | (BitrixSDK.EnsureDone _, tm') =>
      (exists m, promises tm !! p = Some (RejectedWith m)) /\
      tokens tm' = None /\ tokenIssuedAt tm' = None /\ refreshPromise tm' = None
  | (BitrixSDK.EnsureAwait q, tm') => q = p /\ tm' = tm
  end.
Proof.
  split.
  - unfold BitrixSDK.ensureAuthenticated_start.
    destruct (hasValidTokens tm nowMs) eqn:Hv.
    { split; [|reflexivity]. unfold hasValidTokens in Hv.
      destruct (tokens tm); [discriminate | discriminate]. }
    unfold hasTokens. case_bool_decide as Hheld.
    2:{ unfold BitrixSDK.noValidTokens.
        destruct (tokens tm) as [tk|];
          [first [discriminate Hheld | exfalso; apply Hheld; discriminate]|].
        destruct autoAuth; reflexivity. }
    unfold getValidToken_start.
    destruct (tokens tm) as [tk|] eqn:Ht; [|contradiction].
    destruct (isTokenExpiringSoon tm nowMs).
    + destruct (truthyStr (refresh_token tk)) eqn:Hr; cbn [negb].
      * destruct (refreshPromise tm) as [q|] eqn:Hrp.
        -- cbn. split; [exact Hrp | exact Ht].
        -- unfold refreshTokens_start. rewrite Ht.
           destruct (refresh_token tk) as [r|]; [|discriminate]. rewrite Hr.
           cbn. split; reflexivity.
      * cbn. destruct autoAuth; reflexivity.
    + cbn. split; [congruence | reflexivity].
  - unfold BitrixSDK.ensureAuthenticated_resume, getValidToken_resume.
    destruct (promises tm !! p) as [[|newTokens|m]|] eqn:Hp; cbn.
    + split; reflexivity.
    + exists newTokens. repeat split.
    + destruct autoAuth; cbn; (split; [exists m; reflexivity | repeat split]).
    + split; reflexivity.
Qed.

(** X11. [ensureAuthenticated] and [apiCallRaw] disagree on what valid
    credentials are. With credentials whose remaining life is more than
    five minutes and at most an hour, [ensureAuthenticated] returns
    without refreshing anything and leaves the manager as it is, and
    [apiCallRaw] still throws, asking for [ensureAuthenticated] to be
    called first. *)
Theorem ensureAuthenticated_does_not_open_apiCallRaw (autoAuth : bool)
  (tm : TokenManager.t) (tk : TokenResponse) (issued e nowMs : Z) :
  tokens tm = Some tk ->
  tokenIssuedAt tm = Some issued ->
  0 < issued ->
  expires_in tk = Some e ->
  issued + e - 3600 <= seconds nowMs < issued + e - 300 ->
  BitrixSDK.ensureAuthenticated_start autoAuth nowMs tm
    = (BitrixSDK.EnsureDone BitrixSDK.Authenticated, tm) /\
  BitrixSDK.apiCallRaw_guard nowMs tm
    = Some "No valid tokens available. Call ensureAuthenticated() first.".
Proof.
  intros Ht Hi Hpos He Hnow.
  assert (Hsoon := isTokenExpiringSoon_spec tm tk issued e nowMs Ht Hi ltac:(lia) He).
  assert (Hexp := isTokenExpired_spec 60 tm tk issued e nowMs Ht Hi ltac:(lia) He).
  assert (Hv : hasValidTokens tm nowMs = false).
  { unfold hasValidTokens. rewrite Ht, Hexp.
    destruct (Z.leb_spec (issued + e - 60 * 60) (seconds nowMs)); [reflexivity | lia]. }
  split.
  - unfold BitrixSDK.ensureAuthenticated_start. rewrite Hv.
    unfold hasTokens. rewrite Ht. rewrite bool_decide_eq_true_2 by discriminate.
    unfold getValidToken_start. rewrite Ht, Hsoon.
    destruct (Z.ltb_spec (seconds nowMs) (issued + e - 300)); [reflexivity | lia].
  - unfold BitrixSDK.apiCallRaw_guard. rewrite Hv. reflexivity.
Qed.

(** one-hour credentials, ten minutes after they were received *)
Lemma ensureAuthenticated_does_not_open_apiCallRaw_witness :
  BitrixSDK.ensureAuthenticated_start false 1700000600000 (holding 1700000000)
    = (BitrixSDK.EnsureDone BitrixSDK.Authenticated, holding 1700000000) /\
  BitrixSDK.apiCallRaw_guard 1700000600000 (holding 1700000000)
    = Some "No valid tokens available. Call ensureAuthenticated() first.".
Proof.
  apply (ensureAuthenticated_does_not_open_apiCallRaw false (holding 1700000000)
           heldTokens 1700000000 3600 1700000600000);
    [reflexivity | reflexivity | lia | reflexivity | vm_compute; split; [discriminate | reflexivity]].
Defined.

End Facade.

(** ** Classification and retry, end to end *)
Section RetryEndToEnd.
Import ErrorMapper ErrorHandler.

Ltac by_status st :=
  unfold ErrorMapper.mapHttpStatus;
  repeat match goal with
  | |- context [if st =? ?n then _ else _] =>
      destruct (Z.eqb_spec st n) as [->|?];
      [cbn; repeat split; intros; first [reflexivity | discriminate | lia]|]
  end;
  cbn; repeat split; intros; first [reflexivity | discriminate | lia].

Lemma mapHttpStatus_httpStatus (st : Z) : httpStatus (mapHttpStatus st) = st.
Proof. by_status st. Qed.

Lemma mapHttpStatus_not_rate_limit (st : Z) :
  BitrixError.isRateLimitError (mapHttpStatus st) = false.
Proof. by_status st. Qed.

Lemma mapHttpStatus_retryable_iff (st : Z) :
  isRetryable (mapHttpStatus st) = true <-> st = 429 \/ 500 <= st.
Proof. by_status st. Qed.

Lemma mapHttpStatus_isAuthError (st : Z) :
  BitrixError.isAuthError (mapHttpStatus st) = (st =? 401).
Proof. by_status st. Qed.

(** X12. What [mapHttpStatus] makes of a bare status: the status is
    kept, the error is never a system error and never a rate-limit error,
    it is retryable exactly for 429 and for every status from 500 up, and
    it counts as an auth error exactly for 401. *)
Theorem mapHttpStatus_flags (st : Z) :
  httpStatus (mapHttpStatus st) = st /\
  isSystemError (mapHttpStatus st) = false /\
  BitrixError.isRateLimitError (mapHttpStatus st) = false /\
  (isRetryable (mapHttpStatus st) = true <-> st = 429 \/ 500 <= st) /\
  (requiresAuth (mapHttpStatus st) = true <-> st = 401) /\
  (BitrixError.isAuthError (mapHttpStatus st) = true <-> st = 401).
Proof.
  split; [apply mapHttpStatus_httpStatus|].
  split; [by_status st|].
  split; [apply mapHttpStatus_not_rate_limit|].
  split; [apply mapHttpStatus_retryable_iff|].
  split; [by_status st|].
  rewrite mapHttpStatus_isAuthError. apply Z.eqb_eq.
Qed.

Lemma mapApiError_retryable_cases (r : BitrixErrorResponse) (st : Z) :
  isRetryable (mapApiError r st) = true -> In (error r) retryableSystemCodes.
Proof.
  unfold mapApiError, lookup. cbn [isRetryable].
  destruct (assoc (error r) SYSTEM_ERRORS) as [e|] eqn:Ha.
  - cbn [pickFlag]. intros Hr. apply (retryableSystemCodes_complete _ e Ha).
    destruct (p_isRetryable e) as [[|]|]; [reflexivity | discriminate | discriminate].
  - destruct (inList (error r) objectPrototypeKeys); discriminate.
Qed.

(** a classified error that is retryable does not count as an auth error *)
Lemma classified_retryable_not_auth (e : BitrixErrorDetails) :
  classified e -> isRetryable e = true -> BitrixError.isAuthError e = false.
Proof.
  intros [r st|st] Hr.
  - pose proof (mapApiError_retryable_cases r st Hr) as Hin.
    destruct r as [c d]. cbn in Hin.
    destruct Hin as [<-|[<-|[<-|[<-|[]]]]]; reflexivity.
  - rewrite mapHttpStatus_isAuthError.
    apply mapHttpStatus_retryable_iff in Hr. apply Z.eqb_neq. lia.
Qed.

(** X13. How long the retry loop sleeps after a retryable error of the
    classifier: 60 seconds for the two rate-limit codes of the table, the
    configured [retryDelay] for a bare status 429, and 5 seconds in every
    other case. *)
Theorem retry_delay_of_classified (options : ErrorHandlerOptions) (e : BitrixErrorDetails) :
  classified e ->
  isRetryable e = true ->
  delayFor options e =
    if BitrixError.isRateLimitError e then 60000
    else if httpStatus e =? 429 then retryDelay options
    else 5000.
Proof.
  intros [r st|st] Hr.
  - pose proof (mapApiError_retryable_cases r st Hr) as Hin.
    destruct r as [c d]. cbn in Hin.
    destruct Hin as [<-|[<-|[<-|[<-|[]]]]]; reflexivity.
  - apply mapHttpStatus_retryable_iff in Hr.
    unfold delayFor, BitrixError.getRetryAfter.
    rewrite mapHttpStatus_not_rate_limit, mapHttpStatus_httpStatus.
    destruct (Z.leb_spec 500 st); destruct (Z.eqb_spec st 429); cbn; try reflexivity; lia.
Qed.

Lemma retry_delay_of_classified_witness :
  delayFor threeRetries (mapHttpStatus 429) = 1000.
Proof.
  apply (retry_delay_of_classified threeRetries (mapHttpStatus 429));
    [apply classified_status | reflexivity].
Defined.

(** X14. A known table code decides the classification alone: the
    result of [mapApiError] is independent of the transport status
    exactly when the code is an entry of the table. *)
Theorem mapApiError_transport_independent_iff (r : BitrixErrorResponse) :
  (forall st1 st2, mapApiError r st1 = mapApiError r st2) <->
  assoc (error r) SYSTEM_ERRORS <> None.
Proof.
  split.
  - intros Hall Hnone. specialize (Hall 0 1).
    apply (f_equal httpStatus) in Hall. revert Hall.
    unfold mapApiError, lookup. rewrite Hnone.
    destruct (inList (error r) objectPrototypeKeys); cbn; discriminate.
  - intros Hsome st1 st2. unfold mapApiError, lookup.
    destruct (assoc (error r) SYSTEM_ERRORS) as [e|] eqn:Ha; [|contradiction].
    f_equal. revert Ha. unfold SYSTEM_ERRORS; cbn [assoc].
    repeat match goal with
    | |- context [String.eqb ?c ?k] =>
        destruct (String.eqb_spec c k) as [_|_]; [intros [= <-]; reflexivity|]
    end.
    discriminate.
Qed.

Section Loop.
Context {T : Type}.
Variable options : ErrorHandlerOptions.
Variable operation : nat -> Outcome T.

Lemma attemptsOf_app (l1 l2 : list Event) :
  attemptsOf (l1 ++ l2) = (attemptsOf l1 ++ attemptsOf l2)%list.
Proof. apply flat_map_app. Qed.

Lemma sleepsOf_app (l1 l2 : list Event) :
  sleepsOf (l1 ++ l2) = (sleepsOf l1 ++ sleepsOf l2)%list.
Proof. apply flat_map_app. Qed.

Lemma authHooksOf_app (l1 l2 : list Event) :
  authHooksOf (l1 ++ l2) = (authHooksOf l1 ++ authHooksOf l2)%list.
Proof. apply flat_map_app. Qed.

Lemma loop_decided_at (k : nat) :
  (k <= maxRetries options)%nat ->
  (k = maxRetries options \/ retried (operation k) = false) ->
  forall (fuel a : nat) (last : option BitrixErrorDetails),
  (a <= k)%nat -> (k < a + fuel)%nat ->
  (forall j, (a <= j < k)%nat -> retried (operation j) = true) ->
  snd (loop options operation fuel a last) = resultOf (operation k) /\
  attemptsOf (fst (loop options operation fuel a last)) = seq a (S k - a) /\
  sleepsOf (fst (loop options operation fuel a last))
    = flat_map (fun j => pauseAfter options (operation j)) (seq a (k - a)).
Proof.
  intros Hk Hlast. induction fuel as [|fuel IH]; intros a last Ha Hfuel Hbefore; [lia|].
  cbn [loop]. destruct (Nat.eq_dec a k) as [->|Hne].
  - replace (S k - k)%nat with 1%nat by lia. replace (k - k)%nat with 0%nat by lia.
    destruct (operation k) as [v|t] eqn:Hop; [repeat split|].
    destruct (Nat.eqb_spec k (maxRetries options)); [repeat split|].
    destruct Hlast as [?|Hnot]; [contradiction|].
    cbn [retried] in Hnot. rewrite Hnot. repeat split.
  - assert (Hlt : (a < k)%nat) by lia.
    pose proof (Hbefore a ltac:(lia)) as Hretry.
    destruct (operation a) as [v|t] eqn:Hop; [discriminate|].
    cbn [retried] in Hretry.
    destruct (Nat.eqb_spec a (maxRetries options)); [lia|].
    rewrite Hretry. cbn [negb].
    destruct (IH (S a) (Some (ensureBitrixError t)) ltac:(lia) ltac:(lia)
                ltac:(intros j Hj; apply Hbefore; lia)) as (Hres & Hatt & Hsl).
    replace (S k - a)%nat with (S (S k - S a)) by lia.
    replace (k - a)%nat with (S (k - S a)) by lia.
    cbn [seq flat_map]. rewrite Hop. cbn [pauseAfter].
    destruct (BitrixError.isAuthError (ensureBitrixError t));
      destruct (loop options operation fuel (S a) (Some (ensureBitrixError t))) as [evs res];
      cbn [fst snd] in *.
    + split; [exact Hres|]. unfold attemptsOf, sleepsOf in *.
      split; cbn [flat_map app]; [rewrite Hatt | rewrite Hsl]; reflexivity.
    + split; [exact Hres|]. unfold attemptsOf, sleepsOf in *.
      destruct (BitrixError.isRateLimitError (ensureBitrixError t));
        (split; cbn [flat_map app]; [rewrite Hatt | rewrite Hsl]; reflexivity).
Qed.


Lemma loop_auth_hooks_classified :
  throwsClassified operation ->
  forall (fuel a : nat) (last : option BitrixErrorDetails),
  authHooksOf (fst (loop options operation fuel a last)) = [].
Proof.
  intros Hcl. induction fuel as [|fuel IH]; intros a last; [reflexivity|].
  cbn [loop]. destruct (operation a) as [v|t] eqn:Hop; [reflexivity|].
  destruct (Nat.eqb a (maxRetries options)); [reflexivity|].
  destruct (isRetryable (ensureBitrixError t)) eqn:Hr; cbn [negb]; [|reflexivity].
  assert (Hna : BitrixError.isAuthError (ensureBitrixError t) = false).
  { destruct t as [e|msg]; [|discriminate Hr].
    apply classified_retryable_not_auth; [exact (Hcl a e Hop) | exact Hr]. }
  rewrite Hna. specialize (IH (S a) (Some (ensureBitrixError t))).
  destruct (loop options operation fuel (S a) (Some (ensureBitrixError t))) as [evs res].
  cbn [fst] in *.
  destruct (BitrixError.isRateLimitError (ensureBitrixError t)); cbn; exact IH.
Qed.

End Loop.

(** X15. [handleWithRetry] is decided by the first attempt that returns
    or throws an error that is not retryable, or by attempt [maxRetries]
    if there is none before: the attempts made are 0 to [k], the result
    is that of attempt [k] (its value, or its error as a [BitrixError]),
    and the delays slept are those of the retried attempts that were not
    auth errors, in order. *)
Theorem handleWithRetry_decided_at {T : Type} (options : ErrorHandlerOptions)
  (operation : nat -> Outcome T) (k : nat) :
  (k <= maxRetries options)%nat ->
  (forall j, (j < k)%nat -> retried (operation j) = true) ->
  (k = maxRetries options \/ retried (operation k) = false) ->
  snd (handleWithRetry options operation) = resultOf (operation k) /\
  attemptsOf (fst (handleWithRetry options operation)) = seq 0 (S k) /\
  sleepsOf (fst (handleWithRetry options operation))
    = flat_map (fun j => pauseAfter options (operation j)) (seq 0 k).
Proof.
  intros Hk Hbefore Hlast.
  destruct (loop_decided_at options operation k Hk Hlast (S (maxRetries options) - 0) 0 None
              ltac:(lia) ltac:(lia) ltac:(intros j Hj; apply Hbefore; lia))
    as (Hres & Hatt & Hsl).
  unfold handleWithRetry, loopFrom.
  rewrite Hres, Hatt, Hsl. replace (S k - 0)%nat with (S k) by lia.
  replace (k - 0)%nat with k by lia. repeat split.
Qed.

(** the server answers OVERLOAD_LIMIT twice (with HTTP 200), then a
    result: three attempts, two sleeps of a minute *)
Lemma handleWithRetry_decided_at_witness :
  snd (handleWithRetry threeRetries overloadedTwice) = Resolved 7 /\
  attemptsOf (fst (handleWithRetry threeRetries overloadedTwice)) = [0; 1; 2]%nat /\
  sleepsOf (fst (handleWithRetry threeRetries overloadedTwice)) = [60000; 60000].
Proof.
  apply (handleWithRetry_decided_at threeRetries overloadedTwice 2).
  - cbn. lia.
  - intros j Hj. destruct j as [|[|j]]; [reflexivity | reflexivity | lia].
  - right. reflexivity.
Defined.


(** X17. A plain [Error] is treated in two ways. Given to
    [handleWithRetry] as it is, it ends the loop after one call. Thrown
    inside [apiCall], it first goes through the [catch] of
    [executeRequest], which maps it to a retryable status-500 error: the
    operation is then called [maxRetries + 1] times, with a five-second
    sleep after each but the last. *)
Theorem plain_error_retried_inside_apiCall {T : Type} (options : ErrorHandlerOptions)
  (operation : nat -> Outcome T) (msg : nat -> option string) :
  (forall k, operation k = Threw (ThrownOther (msg k))) ->
  handleWithRetry options operation
    = ([EvOperation 0], Rejected (Some (ensureBitrixError (ThrownOther (msg 0%nat))))) /\
  let wrapped := fun k => caught (operation k) in
  snd (handleWithRetry options wrapped) = Rejected (Some (mapHttpStatus 500)) /\
  attemptsOf (fst (handleWithRetry options wrapped)) = seq 0 (S (maxRetries options)) /\
  sleepsOf (fst (handleWithRetry options wrapped)) = repeat 5000 (maxRetries options).
Proof.
  intros Hall. split.
  - unfold handleWithRetry, loopFrom.
    replace (S (maxRetries options) - 0)%nat with (S (maxRetries options)) by lia.
    cbn [loop]. rewrite Hall. cbn.
    destruct (maxRetries options); reflexivity.
  - intros wrapped.
    assert (Hw : forall k, wrapped k = Threw (ThrownBitrix (mapHttpStatus 500))).
    { intros k. unfold wrapped. rewrite Hall. reflexivity. }
    destruct (loop_decided_at options wrapped (maxRetries options) ltac:(lia)
                ltac:(left; reflexivity) (S (maxRetries options) - 0) 0 None
                ltac:(lia) ltac:(lia) ltac:(intros j _; rewrite Hw; reflexivity))
      as (Hres & Hatt & Hsl).
    unfold handleWithRetry, loopFrom. rewrite Hres, Hatt, Hsl, Hw.
    replace (S (maxRetries options) - 0)%nat with (S (maxRetries options)) by lia.
    replace (maxRetries options - 0)%nat with (maxRetries options) by lia.
    split; [reflexivity|]. split; [reflexivity|].
    generalize (maxRetries options). generalize 0%nat.
    intros a n. revert a. induction n as [|n IH]; intros a; [reflexivity|].
    cbn [seq flat_map repeat]. rewrite Hw, IH. reflexivity.
Qed.

(** the unit of work fails with a plain [Error] every time, under the
    options [BitrixSDK] gives its error handler *)
Lemma plain_error_retried_inside_apiCall_witness :
  handleWithRetry BitrixSDK.errorHandlerOptions (alwaysPlainError (Some "socket hang up"))
    = ([EvOperation 0],
       Rejected (Some (ensureBitrixError (ThrownOther (Some "socket hang up"))))) /\
  attemptsOf (fst (handleWithRetry BitrixSDK.errorHandlerOptions
                     (fun k => caught (alwaysPlainError (Some "socket hang up") k))))
    = [0; 1; 2; 3]%nat /\
  sleepsOf (fst (handleWithRetry BitrixSDK.errorHandlerOptions
                   (fun k => caught (alwaysPlainError (Some "socket hang up") k))))
    = [5000; 5000; 5000].
Proof.
  destruct (plain_error_retried_inside_apiCall BitrixSDK.errorHandlerOptions
              (alwaysPlainError (Some "socket hang up")) (fun _ => Some "socket hang up"))
    as (Hplain & _ & Hatt & Hsl); [reflexivity|].
  split; [exact Hplain|]. split; [exact Hatt | exact Hsl].
Defined.

(** X18. As long as the unit of work throws nothing but errors built by
    [ErrorMapper] and plain values, [handleWithRetry] never invokes the
    auth-required hook: no error of the classifier is both retryable and
    an auth error, and the retryable test comes first. *)
Theorem auth_hook_never_fires_for_classified {T : Type} (options : ErrorHandlerOptions)
  (operation : nat -> Outcome T) :
  throwsClassified operation ->
  authHooksOf (fst (handleWithRetry options operation)) = [].
Proof.
  intros Hcl. unfold handleWithRetry, loopFrom.
  apply loop_auth_hooks_classified. exact Hcl.
Qed.

Lemma auth_hook_never_fires_for_classified_witness :
  authHooksOf (fst (handleWithRetry threeRetries alwaysUnauthorized)) = [].
Proof.
  apply (auth_hook_never_fires_for_classified threeRetries alwaysUnauthorized).
  intros k e [= <-]. apply classified_api.
Defined.

End RetryEndToEnd.

(** ** The limiter over every schedule *)
Section LimiterInvariants.
Import BitrixRateLimiter.

Lemma settledCount_app (l1 l2 : list Event) :
  settledCount (l1 ++ l2) = (settledCount l1 + settledCount l2)%nat.
Proof. unfold settledCount. rewrite List.filter_app, length_app. reflexivity. Qed.

Lemma settledCount_rejected {A : Type} (f : A -> string) (msg : string) (l : list A) :
  settledCount (map (fun r => EvRejected (f r) msg) l) = length l.
Proof. induction l as [|x l IH]; [reflexivity|]. cbn. f_equal. exact IH. Qed.

Lemma filter_length_split {A : Type} (f : A -> bool) (l : list A) :
  (length (List.filter f l) + length (List.filter (fun x => negb (f x)) l))%nat = length l.
Proof.
  induction l as [|x l IH]; [reflexivity|]. cbn. destruct (f x); cbn; lia.
Qed.

Lemma Forall_filter_list {A : Type} (P : A -> Prop) (f : A -> bool) (l : list A) :
  Forall P l -> Forall P (List.filter f l).
Proof.
  intros H. apply List.Forall_forall. intros x Hx. apply List.filter_In in Hx.
  destruct Hx as [Hx _]. revert x Hx. apply List.Forall_forall. exact H.
Qed.

Lemma canMakeRequest_counter (cfg : RateLimitConfig) (m : string) (nowMs : Z)
  (st : RateLimitState) :
  requestCounter (snd (canMakeRequest cfg m nowMs st)) = requestCounter st.
Proof.
  unfold canMakeRequest, checkCounter.
  repeat match goal with
  | |- context [if ?b then _ else _] => destruct b
  end; reflexivity.
Qed.

Lemma canMakeRequest_window (cfg : RateLimitConfig) (m : string) (nowMs : Z)
  (st : RateLimitState) :
  operatingWindowStart (snd (canMakeRequest cfg m nowMs st)) = operatingWindowStart st.
Proof.
  unfold canMakeRequest, checkCounter.
  repeat match goal with
  | |- context [if ?b then _ else _] => destruct b
  end; reflexivity.
Qed.

Lemma waitForAvailability_settles_nothing (cfg : RateLimitConfig) (m : string) (nowMs : Z)
  (st : RateLimitState) :
  settledCount (waitForAvailability cfg m nowMs st) = 0%nat.
Proof.
  unfold waitForAvailability.
  repeat match goal with
  | |- context [if ?b then _ else _] => destruct b
  end; reflexivity.
Qed.

(** what one synchronous run of the [while] loop does to the counts *)
Lemma drain_effect (cfg : RateLimitConfig) (nowMs : Z) (q : list QueuedRequest)
  (st : RateLimitState) :
  match drain cfg nowMs q st with
  | (evs, q2, st2, stop) =>
      requestCounter st2 = requestCounter st /\
      operatingWindowStart st2 = operatingWindowStart st /\
      length q = (settledCount evs + length q2 +
                  match stop with LoopExecute _ => 1 | _ => 0 end)%nat /\
      match stop with
      | LoopExecute r => requestCounter st < burstLimit cfg /\
                         exists dropped, q = (dropped ++ r :: q2)%list
      | _ => exists dropped, q = (dropped ++ q2)%list
      end
  end.
Proof.
  induction q as [|r q IH]; cbn [drain].
  - split; [reflexivity|]. split; [reflexivity|]. split; [reflexivity|].
    exists []. reflexivity.
  - destruct (expired cfg nowMs r).
    + destruct (drain cfg nowMs q st) as [[[evs q2] st2] stop].
      destruct IH as (Hc & Hw & Hlen & Hstop). split; [exact Hc|]. split; [exact Hw|]. split.
      * cbn [length]. rewrite Hlen.
        change (EvRejected (reqId r) "Request timeout in queue" :: evs)
          with ([EvRejected (reqId r) "Request timeout in queue"] ++ evs)%list.
        rewrite settledCount_app. cbn. lia.
      * destruct stop as [| |r'].
        -- destruct Hstop as [dropped ->]. exists (r :: dropped). reflexivity.
        -- destruct Hstop as [dropped ->]. exists (r :: dropped). reflexivity.
        -- destruct Hstop as [Hlt [dropped ->]]. split; [exact Hlt|].
           exists (r :: dropped). reflexivity.
    + pose proof (canMakeRequest_counter cfg (method r) nowMs st) as Hc.
      pose proof (canMakeRequest_window cfg (method r) nowMs st) as Hw.
      pose proof (canMakeRequest_true_iff cfg (method r) nowMs st) as Hiff.
      destruct (canMakeRequest cfg (method r) nowMs st) as [ok st1].
      cbn [fst snd] in *. destruct ok.
      * split; [exact Hc|]. split; [exact Hw|]. split; [cbn; lia|]. split.
        -- apply Hiff. reflexivity.
        -- exists []. reflexivity.
      * split; [exact Hc|]. split; [exact Hw|]. split.
        -- rewrite waitForAvailability_settles_nothing. cbn. lia.
        -- exists []. reflexivity.
Qed.

#[local] Arguments settledCount _ : simpl never.

Lemma processQueue_loop_effect (nowMs : Z) (w : BitrixRateLimiter.t) :
  config (processQueue_loop nowMs w) = config w /\
  timers (processQueue_loop nowMs w) = timers w /\
  counterDecreaseInterval (processQueue_loop nowMs w) = counterDecreaseInterval w /\
  (pendingCount (processQueue_loop nowMs w) + settledCount (trace (processQueue_loop nowMs w))
   = pendingCount w + settledCount (trace w))%nat /\
  (length (requestQueue (processQueue_loop nowMs w)) <= length (requestQueue w))%nat /\
  (forall P : QueuedRequest -> Prop,
     Forall P (requestQueue w) -> Forall P (map snd (running w)) ->
     Forall P (requestQueue (processQueue_loop nowMs w)) /\
     Forall P (map snd (running (processQueue_loop nowMs w)))) /\
  (requestCounter (state (processQueue_loop nowMs w)) = requestCounter (state w) \/
   requestCounter (state (processQueue_loop nowMs w)) = requestCounter (state w) + 1 /\
   requestCounter (state w) < burstLimit (config w)) /\
  operatingWindowStart (state (processQueue_loop nowMs w)) = operatingWindowStart (state w).
Proof.
  unfold processQueue_loop.
  pose proof (drain_effect (config w) nowMs (requestQueue w) (state w)) as H.
  destruct (drain (config w) nowMs (requestQueue w) (state w)) as [[[evs q2] st2] stop].
  destruct H as (Hc & Hw & Hlen & Hstop).
  destruct stop as [| |r]; unfold pendingCount; cbn.
  - destruct Hstop as [dropped Hq]. repeat split; try reflexivity.
    + rewrite settledCount_app, Hlen. lia.
    + lia.
    + rewrite Hq in H. apply List.Forall_app in H. apply H.
    + assumption.
    + left. exact Hc.
    + exact Hw.
  - destruct Hstop as [dropped Hq]. repeat split; try reflexivity.
    + rewrite settledCount_app, Hlen. lia.
    + lia.
    + rewrite Hq in H. apply List.Forall_app in H. apply H.
    + assumption.
    + left. exact Hc.
    + exact Hw.
  - destruct Hstop as [Hlt [dropped Hq]]. repeat split; try reflexivity.
    + rewrite !settledCount_app, !length_app, Hlen. unfold settledCount. cbn. lia.
    + lia.
    + rewrite Hq in H. apply List.Forall_app in H. destruct H as [_ H].
      apply List.Forall_cons_iff in H. apply H.
    + rewrite map_app. apply List.Forall_app. split; [assumption|].
      rewrite Hq in H. apply List.Forall_app in H. destruct H as [_ H].
      apply List.Forall_cons_iff in H. cbn. constructor; [apply H | constructor].
    + right. split; [rewrite Hc; reflexivity | exact Hlt].
    + exact Hw.
Qed.

Lemma processQueue_effect (nowMs : Z) (w : BitrixRateLimiter.t) :
  config (processQueue nowMs w) = config w /\
  timers (processQueue nowMs w) = timers w /\
  counterDecreaseInterval (processQueue nowMs w) = counterDecreaseInterval w /\
  (pendingCount (processQueue nowMs w) + settledCount (trace (processQueue nowMs w))
   = pendingCount w + settledCount (trace w))%nat /\
  (length (requestQueue (processQueue nowMs w)) <= length (requestQueue w))%nat /\
  (forall P : QueuedRequest -> Prop,
     Forall P (requestQueue w) -> Forall P (map snd (running w)) ->
     Forall P (requestQueue (processQueue nowMs w)) /\
     Forall P (map snd (running (processQueue nowMs w)))) /\
  (requestCounter (state (processQueue nowMs w)) = requestCounter (state w) \/
   requestCounter (state (processQueue nowMs w)) = requestCounter (state w) + 1 /\
   requestCounter (state w) < burstLimit (config w)) /\
  operatingWindowStart (state (processQueue nowMs w)) = operatingWindowStart (state w).
Proof.
  unfold processQueue.
  destruct (processingQueue w || bool_decide (requestQueue w = [])).
  - repeat split; try reflexivity; try assumption; lia.
  - exact (processQueue_loop_effect nowMs (withProcessing true w)).
Qed.

Lemma sort_length (l : list QueuedRequest) : length (sort l) = length l.
Proof. apply Permutation_length, sort_perm. Qed.

Lemma sort_Forall (P : QueuedRequest -> Prop) (l : list QueuedRequest) :
  Forall P l -> Forall P (sort l).
Proof.
  intros H. eapply Permutation_Forall; [|exact H]. symmetry. apply sort_perm.
Qed.

Lemma addToQueue_effect (request : QueuedRequest) (nowMs : Z) (w : BitrixRateLimiter.t) :
  config (addToQueue request nowMs w) = config w /\
  state (addToQueue request nowMs w) = state w /\
  timers (addToQueue request nowMs w) = timers w /\
  running (addToQueue request nowMs w) = running w /\
  counterDecreaseInterval (addToQueue request nowMs w) = counterDecreaseInterval w /\
  (pendingCount (addToQueue request nowMs w) + settledCount (trace (addToQueue request nowMs w))
   = S (pendingCount w + settledCount (trace w)))%nat /\
  (Z.of_nat (length (requestQueue w)) <= Z.max 0 (maxQueueSize (config w)) ->
   Z.of_nat (length (requestQueue (addToQueue request nowMs w)))
     <= Z.max 0 (maxQueueSize (config w))) /\
  (forall P : QueuedRequest -> Prop,
     Forall P (requestQueue w) -> P request ->
     Forall P (requestQueue (addToQueue request nowMs w))).
Proof.
  unfold addToQueue.
  destruct (Z.leb_spec (maxQueueSize (config w)) (Z.of_nat (length (requestQueue w))))
    as [Hfull|Hroom].
  - unfold pendingCount. cbn. repeat split; try reflexivity; try (intros; assumption).
    rewrite settledCount_app. unfold settledCount. cbn. lia.
  - unfold cleanupExpiredRequests, pendingCount. cbn.
    pose proof (filter_length_split (expired (config w) nowMs)
                  (sort (requestQueue w ++ [request]))) as Hsplit.
    rewrite sort_length, length_app in Hsplit. cbn in Hsplit.
    repeat split; try reflexivity.
    + rewrite settledCount_app, settledCount_rejected. lia.
    + intros _. lia.
    + intros P Hq Hr. apply Forall_filter_list, sort_Forall, List.Forall_app.
      split; [exact Hq | constructor; [exact Hr | constructor]].
Qed.

Lemma processResponseTimeInfo_counter (cfg : RateLimitConfig) (operating : option Q)
  (reset : option Z) (nowMs : Z) (st : RateLimitState) :
  requestCounter (processResponseTimeInfo cfg operating reset nowMs st) = requestCounter st.
Proof.
  unfold processResponseTimeInfo.
  repeat match goal with
  | |- context [match ?b with _ => _ end] => destruct b
  end; reflexivity.
Qed.

Lemma handleRequestError_effect (request : QueuedRequest) (msg : string)
  (w : BitrixRateLimiter.t) :
  config (handleRequestError request msg w) = config w /\
  requestQueue (handleRequestError request msg w) = requestQueue w /\
  running (handleRequestError request msg w) = running w /\
  counterDecreaseInterval (handleRequestError request msg w) = counterDecreaseInterval w /\
  requestCounter (state (handleRequestError request msg w)) = requestCounter (state w) /\
  operatingWindowStart (state (handleRequestError request msg w))
    = operatingWindowStart (state w) /\
  (pendingCount (handleRequestError request msg w)
   + settledCount (trace (handleRequestError request msg w))
   = S (pendingCount w + settledCount (trace w)))%nat /\
  (timers (handleRequestError request msg w) = timers w \/
   timers (handleRequestError request msg w) = (timers w ++ [request])%list /\
   retryCount request < maxRetries (config w)).
Proof.
  unfold handleRequestError, handleResourceLimitExceeded, pendingCount.
  destruct (includes msg "QUERY_LIMIT_EXCEEDED" || includes msg "503");
    cbn [andb]; [destruct (enableRetry (config w)); cbn [andb];
                 [destruct (Z.ltb_spec (retryCount request) (maxRetries (config w)))|]|];
    try (destruct (includes msg "operating_reset_at"); [destruct (matchResetAt msg)|]);
    cbn; rewrite ?settledCount_app, ?length_app; unfold settledCount; cbn;
    repeat split; try lia; auto.
Qed.

Lemma executeQueuedRequest_resume_effect (request : QueuedRequest) (o : Outcome)
  (nowMs : Z) (w : BitrixRateLimiter.t) :
  config (executeQueuedRequest_resume request o nowMs w) = config w /\
  requestQueue (executeQueuedRequest_resume request o nowMs w) = requestQueue w /\
  running (executeQueuedRequest_resume request o nowMs w) = running w /\
  counterDecreaseInterval (executeQueuedRequest_resume request o nowMs w)
    = counterDecreaseInterval w /\
  requestCounter (state (executeQueuedRequest_resume request o nowMs w))
    = requestCounter (state w) /\
  (pendingCount (executeQueuedRequest_resume request o nowMs w)
   + settledCount (trace (executeQueuedRequest_resume request o nowMs w))
   = S (pendingCount w + settledCount (trace w)))%nat /\
  (timers (executeQueuedRequest_resume request o nowMs w) = timers w \/
   timers (executeQueuedRequest_resume request o nowMs w) = (timers w ++ [request])%list /\
   retryCount request < maxRetries (config w)).
Proof.
  destruct o as [operating reset|msg]; cbn [executeQueuedRequest_resume].
  - unfold pendingCount. cbn. rewrite processResponseTimeInfo_counter, settledCount_app.
    unfold settledCount. cbn. repeat split; try lia. left. reflexivity.
  - destruct (handleRequestError_effect request msg w) as (H1 & H2 & H3 & H4 & H5 & _ & H7 & H8).
    repeat split; assumption.
Qed.


(** what a step leaves of the configuration *)
Lemma step_config (nowMs : Z) (l : Label) (w : BitrixRateLimiter.t) :
  config (step nowMs l w) =
  match l with
  | CallSetEnterprisePlan => setPlan 5 250 (config w)
  | CallSetStandardPlan => setPlan 2 50 (config w)
  | _ => config w
  end.
Proof.
  destruct l as [id m prio|m| | | |k o|k|k|]; cbn [step]; try reflexivity.
  - unfold executeRequest. destruct (enableQueueing (config w)); [|reflexivity].
    match goal with |- context [processQueue _ (addToQueue ?r ?n ?w0)] =>
      destruct (addToQueue_effect r n w0) as (Hcfg & _);
      destruct (processQueue_effect n (addToQueue r n w0)) as (Hc & _)
    end.
    rewrite Hc, Hcfg. reflexivity.
  - unfold destroy. destruct (counterDecreaseInterval w); reflexivity.
  - destruct (running w !! k) as [[p request]|]; [|reflexivity].
    match goal with |- context [executeQueuedRequest_resume ?r ?o ?n ?w0] =>
      destruct (executeQueuedRequest_resume_effect r o n w0) as (Hc & _)
    end.
    rewrite Hc. reflexivity.
  - destruct (loops w !! k) as [c0|]; [|reflexivity].
    destruct (runnable c0 w); [|reflexivity].
    destruct (processQueue_loop_effect nowMs (withLoops (delete k (loops w)) w)) as (Hc & _).
    rewrite Hc. reflexivity.
  - destruct (timers w !! k) as [request|]; [|reflexivity].
    match goal with |- context [processQueue _ (addToQueue ?r ?n ?w0)] =>
      destruct (addToQueue_effect r n w0) as (Hcfg & _);
      destruct (processQueue_effect n (addToQueue r n w0)) as (Hc & _)
    end.
    rewrite Hc, Hcfg. reflexivity.
  - destruct (counterDecreaseInterval w); reflexivity.
Qed.



Lemma step_total (nowMs : Z) (l : Label) (w : BitrixRateLimiter.t) :
  (pendingCount (step nowMs l w) + settledCount (trace (step nowMs l w))
   = pendingCount w + settledCount (trace w) + (if isSubmit l then 1 else 0))%nat.
Proof.
  destruct l as [id m prio|m| | | |k o|k|k|]; cbn [step isSubmit];
    try (unfold pendingCount; cbn; lia).
  - unfold executeRequest. destruct (enableQueueing (config w)).
    + match goal with |- context [processQueue _ (addToQueue ?r ?n ?w0)] =>
        destruct (addToQueue_effect r n w0) as (_ & _ & _ & _ & _ & Hadd & _);
        destruct (processQueue_effect n (addToQueue r n w0)) as (_ & _ & _ & Hp & _)
      end.
      rewrite Hp, Hadd. lia.
    + unfold pendingCount. cbn. rewrite settledCount_app, length_app.
      unfold settledCount. cbn. lia.
  - unfold destroy, pendingCount.
    destruct (counterDecreaseInterval w); cbn;
      rewrite settledCount_app, settledCount_rejected; lia.
  - destruct (running w !! k) as [[p request]|] eqn:Hk; [|lia].
    match goal with |- context [executeQueuedRequest_resume ?r ?o ?n ?w0] =>
      destruct (executeQueuedRequest_resume_effect r o n w0) as (_ & _ & _ & _ & _ & Hr & _)
    end.
    rewrite Hr. unfold pendingCount. cbn.
    rewrite length_delete by (eexists; exact Hk).
    apply lookup_lt_Some in Hk. lia.
  - destruct (loops w !! k) as [c0|]; [|lia].
    destruct (runnable c0 w); [|lia].
    destruct (processQueue_loop_effect nowMs (withLoops (delete k (loops w)) w))
      as (_ & _ & _ & Hp & _).
    rewrite Hp. unfold pendingCount. cbn. lia.
  - destruct (timers w !! k) as [request|] eqn:Hk; [|lia].
    match goal with |- context [processQueue _ (addToQueue ?r ?n ?w0)] =>
      destruct (addToQueue_effect r n w0) as (_ & _ & _ & _ & _ & Hadd & _);
      destruct (processQueue_effect n (addToQueue r n w0)) as (_ & _ & _ & Hp & _)
    end.
    rewrite Hp, Hadd. unfold pendingCount. cbn.
    rewrite length_delete by (eexists; exact Hk).
    apply lookup_lt_Some in Hk. lia.
  - destruct (counterDecreaseInterval w); unfold pendingCount; cbn; lia.
Qed.

(** X20. Requests are conserved in number: over every schedule, the
    calls of [executeRequest] made so far are as many as the requests
    queued, in flight or waiting for a retry timer, plus the calls of
    [resolve] and [reject]. *)
Theorem every_request_accounted_for (cfg : RateLimitConfig) (t0 : Z)
  (sched : list (Z * Label)) :
  (pendingCount (run sched (create cfg t0))
   + settledCount (trace (run sched (create cfg t0))) = submitted sched)%nat.
Proof.
  assert (Hgen : forall w,
    (pendingCount (run sched w) + settledCount (trace (run sched w))
     = pendingCount w + settledCount (trace w) + submitted sched)%nat).
  { induction sched as [|[now l] rest IH]; intros w; cbn [run].
    - unfold submitted. cbn. lia.
    - rewrite IH, step_total. unfold submitted. cbn [List.filter snd].
      destruct (isSubmit l); cbn [length]; lia. }
  rewrite Hgen. reflexivity.
Qed.

Lemma step_capacity (nowMs : Z) (l : Label) (w : BitrixRateLimiter.t) :
  Z.of_nat (length (requestQueue w)) <= Z.max 0 (maxQueueSize (config w)) ->
  maxQueueSize (config (step nowMs l w)) = maxQueueSize (config w) /\
  Z.of_nat (length (requestQueue (step nowMs l w))) <= Z.max 0 (maxQueueSize (config w)).
Proof.
  intros Hcap. split.
  { rewrite step_config. destruct l; reflexivity. }
  destruct l as [id m prio|m| | | |k o|k|k|]; cbn [step]; try exact Hcap.
  - unfold executeRequest. destruct (enableQueueing (config w)); [|exact Hcap].
    match goal with |- context [processQueue _ (addToQueue ?r ?n ?w0)] =>
      destruct (addToQueue_effect r n w0) as (_ & _ & _ & _ & _ & _ & Hadd & _);
      destruct (processQueue_effect n (addToQueue r n w0)) as (_ & _ & _ & _ & Hp & _)
    end.
    specialize (Hadd Hcap). lia.
  - unfold destroy. destruct (counterDecreaseInterval w); cbn; lia.
  - destruct (running w !! k) as [[p request]|]; [|exact Hcap].
    match goal with |- context [executeQueuedRequest_resume ?r ?o ?n ?w0] =>
      destruct (executeQueuedRequest_resume_effect r o n w0) as (_ & Hq & _)
    end.
    rewrite Hq. exact Hcap.
  - destruct (loops w !! k) as [c0|]; [|exact Hcap].
    destruct (runnable c0 w); [|exact Hcap].
    destruct (processQueue_loop_effect nowMs (withLoops (delete k (loops w)) w))
      as (_ & _ & _ & _ & Hp & _).
    cbn in Hp. lia.
  - destruct (timers w !! k) as [request|]; [|exact Hcap].
    match goal with |- context [processQueue _ (addToQueue ?r ?n ?w0)] =>
      destruct (addToQueue_effect r n w0) as (_ & _ & _ & _ & _ & _ & Hadd & _);
      destruct (processQueue_effect n (addToQueue r n w0)) as (_ & _ & _ & _ & Hp & _)
    end.
    specialize (Hadd Hcap). cbn in Hadd. lia.
  - destruct (counterDecreaseInterval w); exact Hcap.
Qed.

(** X21. The queue never holds more than [maxQueueSize] requests, over
    every schedule; with a [maxQueueSize] of zero or less it stays
    empty. *)
Theorem queue_within_capacity (cfg : RateLimitConfig) (t0 : Z)
  (sched : list (Z * Label)) :
  Z.of_nat (length (requestQueue (run sched (create cfg t0)))) <= Z.max 0 (maxQueueSize cfg).
Proof.
  assert (Hgen : forall w, maxQueueSize (config w) = maxQueueSize cfg ->
    Z.of_nat (length (requestQueue w)) <= Z.max 0 (maxQueueSize cfg) ->
    Z.of_nat (length (requestQueue (run sched w))) <= Z.max 0 (maxQueueSize cfg)).
  { induction sched as [|[now l] rest IH]; intros w Hcfg Hcap; cbn [run]; [exact Hcap|].
    rewrite <- Hcfg in Hcap.
    destruct (step_capacity now l w Hcap) as [Hcfg' Hcap'].
    apply IH; [congruence | rewrite <- Hcfg; exact Hcap']. }
  apply Hgen; [reflexivity | cbn; lia].
Qed.

Lemma Forall_running_delete (P : QueuedRequest -> Prop) (k : nat)
  (l : list (nat * QueuedRequest)) :
  Forall P (map snd l) -> Forall P (map snd (delete k l)).
Proof.
  rewrite !List.Forall_map. apply Forall_delete.
Qed.

Lemma step_retry_counts (cfg : RateLimitConfig) (nowMs : Z) (l : Label)
  (w : BitrixRateLimiter.t) :
  maxRetries (config w) = maxRetries cfg ->
  Forall (retryBounded cfg) (requestQueue w) ->
  Forall (retryBounded cfg) (map snd (running w)) ->
  Forall (retryLeft cfg) (timers w) ->
  maxRetries (config (step nowMs l w)) = maxRetries cfg /\
  Forall (retryBounded cfg) (requestQueue (step nowMs l w)) /\
  Forall (retryBounded cfg) (map snd (running (step nowMs l w))) /\
  Forall (retryLeft cfg) (timers (step nowMs l w)).
Proof.
  intros Hcfg Hq Hr Ht. split.
  { rewrite step_config. destruct l; exact Hcfg. }
  destruct l as [id m prio|m| | | |k o|k|k|]; cbn [step]; try (repeat split; assumption).
  - assert (Hnew : retryBounded cfg {| reqId := id; method := m; priority := prio;
                                       timestamp := nowMs; retryCount := 0 |})
      by (unfold retryBounded; cbn; lia).
    unfold executeRequest. destruct (enableQueueing (config w)).
    + match goal with |- context [processQueue _ (addToQueue ?r ?n ?w0)] =>
        destruct (addToQueue_effect r n w0) as (_ & _ & Hat & Har & _ & _ & _ & Haq);
        destruct (processQueue_effect n (addToQueue r n w0)) as (_ & Hpt & _ & _ & _ & Hpq & _)
      end.
      rewrite Hpt, Hat. split; [|split; [|exact Ht]]; apply Hpq;
        try (apply Haq; assumption); rewrite Har; exact Hr.
    + cbn. split; [exact Hq|]. split; [|exact Ht].
      rewrite map_app. apply List.Forall_app. split; [exact Hr|].
      cbn. constructor; [exact Hnew | constructor].
  - unfold destroy. destruct (counterDecreaseInterval w); cbn;
      (split; [constructor | split; assumption]).
  - destruct (running w !! k) as [[p request]|] eqn:Hk; [|repeat split; assumption].
    assert (Hreq : retryBounded cfg request).
    { rewrite List.Forall_map in Hr. exact (Forall_lookup_1 _ _ _ _ Hr Hk). }
    match goal with |- context [executeQueuedRequest_resume ?r ?o ?n ?w0] =>
      destruct (executeQueuedRequest_resume_effect r o n w0)
        as (_ & Hrq & Hrr & _ & _ & _ & Hrt)
    end.
    rewrite Hrq, Hrr. cbn [requestQueue running timers withRunning config] in *.
    split; [exact Hq|]. split; [apply Forall_running_delete; exact Hr|].
    destruct Hrt as [->|[-> Hlt]]; [exact Ht|].
    apply List.Forall_app. split; [exact Ht|].
    constructor; [|constructor]. unfold retryLeft, retryBounded in *. lia.
  - destruct (loops w !! k) as [c0|]; [|repeat split; assumption].
    destruct (runnable c0 w); [|repeat split; assumption].
    destruct (processQueue_loop_effect nowMs (withLoops (delete k (loops w)) w))
      as (_ & Hpt & _ & _ & _ & Hpq & _).
    rewrite Hpt. split; [|split; [|exact Ht]]; apply Hpq; assumption.
  - destruct (timers w !! k) as [request|] eqn:Hk; [|repeat split; assumption].
    assert (Hreq : retryBounded cfg (bumpRetry request)).
    { pose proof (Forall_lookup_1 _ _ _ _ Ht Hk) as Hleft.
      unfold retryLeft, retryBounded in *. cbn. lia. }
    match goal with |- context [processQueue _ (addToQueue ?r ?n ?w0)] =>
      destruct (addToQueue_effect r n w0) as (_ & _ & Hat & Har & _ & _ & _ & Haq);
      destruct (processQueue_effect n (addToQueue r n w0)) as (_ & Hpt & _ & _ & _ & Hpq & _)
    end.
    rewrite Hpt, Hat. cbn [timers withTimers].
    split; [|split; [|apply Forall_delete; exact Ht]]; apply Hpq;
      try (apply Haq; assumption); rewrite Har; exact Hr.
  - destruct (counterDecreaseInterval w); repeat split; assumption.
Qed.

(** X22. Retries are bounded, over every schedule: every request queued
    or in flight has been retried at most [maxRetries] times, and every
    request waiting for its retry timer has a retry left. *)
Theorem retry_counts_bounded (cfg : RateLimitConfig) (t0 : Z) (sched : list (Z * Label)) :
  Forall (retryBounded cfg) (requestQueue (run sched (create cfg t0))) /\
  Forall (retryBounded cfg) (map snd (running (run sched (create cfg t0)))) /\
  Forall (retryLeft cfg) (timers (run sched (create cfg t0))).
Proof.
  assert (Hgen : forall w,
    maxRetries (config w) = maxRetries cfg ->
    Forall (retryBounded cfg) (requestQueue w) ->
    Forall (retryBounded cfg) (map snd (running w)) ->
    Forall (retryLeft cfg) (timers w) ->
    Forall (retryBounded cfg) (requestQueue (run sched w)) /\
    Forall (retryBounded cfg) (map snd (running (run sched w))) /\
    Forall (retryLeft cfg) (timers (run sched w))).
  { induction sched as [|[now l] rest IH]; intros w Hcfg Hq Hr Ht; cbn [run];
      [repeat split; assumption|].
    destruct (step_retry_counts cfg now l w Hcfg Hq Hr Ht) as (H1 & H2 & H3 & H4).
    apply IH; assumption. }
  apply Hgen; [reflexivity | constructor | constructor | constructor].
Qed.

(** X23. Decay: while nothing else happens, [n] firings of the interval
    take the counter from [c] to [max 0 (c - n * maxRequestsPerSecond)],
    and once it has reached zero the limiter is no longer blocked. With a
    rate of zero the counter never decays. *)
Theorem counter_decay (times : list Z) (w : BitrixRateLimiter.t) :
  counterDecreaseInterval w = true ->
  0 <= requestCounter (state w) ->
  0 <= maxRequestsPerSecond (config w) ->
  let n := Z.of_nat (length times) in
  let w' := run (ticks times) w in
  requestCounter (state w')
    = Z.max 0 (requestCounter (state w) - n * maxRequestsPerSecond (config w)) /\
  (times <> [] -> requestCounter (state w) <= n * maxRequestsPerSecond (config w) ->
   isBlocked (state w') = false).
Proof.
  intros Hint Hc Hr. cbv zeta.
  assert (Htick : forall now w0, counterDecreaseInterval w0 = true ->
            0 <= requestCounter (state w0) -> 0 <= maxRequestsPerSecond (config w0) ->
            let w1 := step now Tick w0 in
            counterDecreaseInterval w1 = true /\ config w1 = config w0 /\
            requestCounter (state w1)
              = Z.max 0 (requestCounter (state w0) - maxRequestsPerSecond (config w0)) /\
            (requestCounter (state w1) = 0 -> isBlocked (state w1) = false)).
  { intros now w0 Hi Hc0 Hr0. cbn [step]. rewrite Hi. unfold counterDecrease. cbn.
    destruct (Z.ltb_spec 0 (requestCounter (state w0))); cbn.
    - destruct (Z.eqb_spec (Z.max 0 (requestCounter (state w0)
                                     - maxRequestsPerSecond (config w0))) 0);
        cbn; repeat split; try assumption; try reflexivity; try lia.
    - destruct (Z.eqb_spec (requestCounter (state w0)) 0);
        cbn; repeat split; try assumption; try reflexivity; try lia. }
  revert w Hint Hc Hr.
  induction times as [|now rest IH]; intros w Hint Hc Hr.
  - cbn. split; [lia | intros Hne; contradiction].
  - cbn [ticks map run]. fold (ticks rest).
    destruct (Htick now w Hint Hc Hr) as (Hi1 & Hcfg1 & Hc1 & Hb1).
    cbn [step] in *. rewrite Hint in *.
    set (w1 := withState (counterDecrease (config w) (state w)) w) in *.
    destruct (IH w1 Hi1 ltac:(lia) ltac:(rewrite Hcfg1; exact Hr)) as [IHc IHb].
    rewrite Hcfg1 in IHc, IHb. rewrite Hc1 in IHc, IHb.
    assert (Hprod : 0 <= Z.of_nat (length rest) * maxRequestsPerSecond (config w))
      by (apply Z.mul_nonneg_nonneg; lia).
    replace (Z.of_nat (length (now :: rest)) * maxRequestsPerSecond (config w))
      with (Z.of_nat (length rest) * maxRequestsPerSecond (config w)
            + maxRequestsPerSecond (config w)) by (cbn [length]; lia).
    split; [lia|]. intros _ Hle.
    destruct rest as [|now2 rest2].
    + cbn. apply Hb1. rewrite Hc1. cbn in Hle. lia.
    + apply IHb; [discriminate | lia].
Qed.

(** 7 requests on the counter, 2 per second: four firings clear it *)
Lemma counter_decay_witness :
  requestCounter (state (run (ticks [1000; 2000; 3000; 4000])
                           (withState (setCounter 7 (state (create defaultConfig 0)))
                              (create defaultConfig 0)))) = 0.
Proof.
  apply (counter_decay [1000; 2000; 3000; 4000]
           (withState (setCounter 7 (state (create defaultConfig 0)))
              (create defaultConfig 0)));
    [reflexivity | cbn; lia | cbn; lia].
Defined.


Lemma destroy_effects_aux (w : BitrixRateLimiter.t) :
  requestQueue (destroy w) = [] /\
  timers (destroy w) = timers w /\
  processingQueue (destroy w) = processingQueue w /\
  config (destroy w) = config w /\
  state (destroy w) = state w /\
  running (destroy w) = running w /\
  nextPromise (destroy w) = nextPromise w.
Proof.
  unfold destroy. destruct (counterDecreaseInterval w); repeat split.
Qed.

(** X24. [destroy] rejects every queued request and stops the decay of
    the counter, and that is all: requests in flight, pending retry
    timers, the suspended drain loop and its flag are left as they are.
    A second [destroy] changes nothing. *)
Theorem destroy_effects (nowMs : Z) (w : BitrixRateLimiter.t) :
  requestQueue (destroy w) = [] /\
  trace (destroy w)
    = (trace w ++ map (fun r => EvRejected (reqId r) "Rate limiter destroyed")
                      (requestQueue w))%list /\
  step nowMs Tick (destroy w) = destroy w /\
  running (destroy w) = running w /\
  timers (destroy w) = timers w /\
  loops (destroy w) = loops w /\
  processingQueue (destroy w) = processingQueue w /\
  state (destroy w) = state w /\
  destroy (destroy w) = destroy w.
Proof.
  unfold destroy. destruct (counterDecreaseInterval w) eqn:Hi; cbn; rewrite ?Hi;
    repeat split; unfold withQueue, emit; cbn; rewrite app_nil_r; reflexivity.
Qed.

(** X25. A retry timer outlives [destroy]: when it fires afterwards, on
    a limiter that is idle and open, its request is put back in the queue
    and dispatched. *)
Theorem retry_timer_outlives_destroy (nowMs : Z) (k : nat) (r : QueuedRequest)
  (w : BitrixRateLimiter.t) :
  timers w !! k = Some r ->
  processingQueue w = false ->
  0 < maxQueueSize (config w) ->
  expired (config w) nowMs r = false ->
  fst (canMakeRequest (config w) (method r) nowMs (state w)) = true ->
  let w' := step nowMs (Timer k) (destroy w) in
  trace w' = (trace (destroy w) ++ [EvDispatched (reqId r)])%list /\
  running w' = (running w ++ [(nextPromise w, bumpRetry r)])%list /\
  timers w' = delete k (timers w).
Proof.
  intros Hk Hflag Hsize Hexp Hcan. cbv zeta.
  destruct (destroy_effects_aux w) as (Hq & Ht & Hf & Hcfg & Hst & Hrun & Hnp).
  remember (destroy w) as d eqn:Hd. clear Hd.
  cbn [step]. rewrite Ht, Hk.
  unfold addToQueue. cbn [config requestQueue withTimers]. rewrite Hcfg, Hq.
  destruct (Z.leb_spec (maxQueueSize (config w)) (Z.of_nat (length (@nil QueuedRequest))));
    [cbn in *; lia|].
  unfold cleanupExpiredRequests.
  cbn [app sort rev sortRev insertSorted requestQueue withQueue config withTimers emit
       List.filter map].
  rewrite Hcfg.
  assert (Hexp' : expired (config w) nowMs (bumpRetry r) = false) by exact Hexp.
  rewrite Hexp'. cbn [negb map List.filter].
  unfold processQueue. cbn [processingQueue withQueue emit withTimers requestQueue].
  rewrite Hf, Hflag. cbn [orb]. rewrite bool_decide_eq_false_2 by discriminate.
  unfold processQueue_loop.
  cbn [config withProcessing withQueue emit withTimers requestQueue state drain].
  rewrite Hcfg, Hst, Hexp'. change (method (bumpRetry r)) with (method r).
  destruct (canMakeRequest (config w) (method r) nowMs (state w)) as [ok st1].
  cbn [fst] in Hcan. subst ok.
  cbn. rewrite Hrun, Hnp, !app_nil_r. repeat split.
Qed.

(** a retried request is dispatched after [destroy] *)
Lemma retry_timer_outlives_destroy_witness :
  trace (step 2100 (Timer 0) (destroy retryPending))
    = (trace (destroy retryPending) ++ [EvDispatched "a"])%list /\
  map snd (running (step 2100 (Timer 0) (destroy retryPending)))
    = [ {| reqId := "a"; method := "crm.deal.list"; priority := 0;
           timestamp := 1000; retryCount := 1 |} ].
Proof.
  destruct (retry_timer_outlives_destroy 2100 0
              {| reqId := "a"; method := "crm.deal.list"; priority := 0;
                 timestamp := 1000; retryCount := 0 |} retryPending)
    as (Htr & Hrun & _);
    [reflexivity | reflexivity | vm_compute; reflexivity | reflexivity
     | vm_compute; reflexivity |].
  split; [exact Htr | rewrite Hrun; reflexivity].
Defined.

Lemma within_window (nowMs t0 window : Z) :
  nowMs <= 1000 * (t0 + window) ->
  Qle_bool (inject_Z nowMs / 1000 - inject_Z t0) (inject_Z window) = true.
Proof.
  intros H. apply Qle_bool_iff.
  unfold Qle, Qminus, Qplus, Qopp, Qdiv, Qmult, Qinv, inject_Z. cbn. lia.
Qed.

Lemma processResponseTimeInfo_window (cfg : RateLimitConfig) (operating : option Q)
  (reset : option Z) (nowMs t0 : Z) (st : RateLimitState) :
  operatingWindowStart st = inject_Z t0 ->
  nowMs <= 1000 * (t0 + operatingTimeWindow cfg) ->
  operatingWindowStart (processResponseTimeInfo cfg operating reset nowMs st) = inject_Z t0 /\
  operatingTimeUsed (processResponseTimeInfo cfg operating reset nowMs st)
    = match operating with
      | Some op => if truthyQ operating then (operatingTimeUsed st + op)%Q
                   else operatingTimeUsed st
      | None => operatingTimeUsed st
      end.
Proof.
  intros Hw Hnow. unfold processResponseTimeInfo.
  destruct operating as [op|]; [|split; [exact Hw | reflexivity]].
  destruct (truthyQ (Some op)); [|split; [exact Hw | reflexivity]].
  rewrite Hw, (within_window nowMs t0 _ Hnow). cbn [negb].
  destruct (truthyNum reset); cbn; split; try exact Hw; reflexivity.
Qed.

Lemma step_window (cfg : RateLimitConfig) (t0 nowMs : Z) (l : Label)
  (w : BitrixRateLimiter.t) :
  operatingTimeWindow (config w) = operatingTimeWindow cfg ->
  operatingWindowStart (state w) = inject_Z t0 ->
  nowMs <= 1000 * (t0 + operatingTimeWindow cfg) ->
  operatingTimeWindow (config (step nowMs l w)) = operatingTimeWindow cfg /\
  operatingWindowStart (state (step nowMs l w)) = inject_Z t0.
Proof.
  intros Hcfg Hw Hnow. split.
  { rewrite step_config. destruct l; exact Hcfg. }
  destruct l as [id m prio|m| | | |k o|k|k|]; cbn [step]; try exact Hw.
  - unfold executeRequest. destruct (enableQueueing (config w)); [|exact Hw].
    match goal with |- context [processQueue _ (addToQueue ?r ?n ?w0)] =>
      destruct (addToQueue_effect r n w0) as (_ & Hst & _);
      destruct (processQueue_effect n (addToQueue r n w0)) as (_ & _ & _ & _ & _ & _ & _ & Hp)
    end.
    rewrite Hp, Hst. exact Hw.
  - cbn. rewrite canMakeRequest_window. exact Hw.
  - unfold destroy. destruct (counterDecreaseInterval w); exact Hw.
  - destruct (running w !! k) as [[p request]|]; [|exact Hw].
    destruct o as [operating reset|msg]; cbn [executeQueuedRequest_resume].
    + cbn [state emit withState config withRunning].
      apply processResponseTimeInfo_window; [exact Hw | rewrite Hcfg; exact Hnow].
    + match goal with |- context [handleRequestError ?r ?m ?w0] =>
        destruct (handleRequestError_effect r m w0) as (_ & _ & _ & _ & _ & Hh & _)
      end.
      rewrite Hh. exact Hw.
  - destruct (loops w !! k) as [c0|]; [|exact Hw].
    destruct (runnable c0 w); [|exact Hw].
    destruct (processQueue_loop_effect nowMs (withLoops (delete k (loops w)) w))
      as (_ & _ & _ & _ & _ & _ & _ & Hp).
    rewrite Hp. exact Hw.
  - destruct (timers w !! k) as [request|]; [|exact Hw].
    match goal with |- context [processQueue _ (addToQueue ?r ?n ?w0)] =>
      destruct (addToQueue_effect r n w0) as (_ & Hst & _);
      destruct (processQueue_effect n (addToQueue r n w0)) as (_ & _ & _ & _ & _ & _ & _ & Hp)
    end.
    rewrite Hp, Hst. exact Hw.
  - destruct (counterDecreaseInterval w); [|exact Hw].
    unfold counterDecrease. cbn.
    repeat match goal with
    | |- context [if ?b then _ else _] => destruct b
    end; exact Hw.
Qed.

(** X26. The operating-time window is never restarted. The constructor
    stores the start of the window in milliseconds and
    [processResponseTimeInfo] compares it with an instant in seconds, so
    for a limiter created at millisecond [t0], at every instant up to
    second [t0 + operatingTimeWindow] the start of the window is still the
    one of the constructor, and a response that reports an operating time
    adds it to [operatingTimeUsed], however long ago the window began. *)
Theorem operating_window_never_restarts (cfg : RateLimitConfig) (t0 : Z)
  (sched : list (Z * Label)) :
  instantsUpTo (1000 * (t0 + operatingTimeWindow cfg)) sched ->
  let w := run sched (create cfg t0) in
  operatingWindowStart (state w) = inject_Z t0 /\
  forall (op : Q) (reset : option Z) (nowMs : Z),
    truthyQ (Some op) = true ->
    nowMs <= 1000 * (t0 + operatingTimeWindow cfg) ->
    operatingTimeUsed (processResponseTimeInfo cfg (Some op) reset nowMs (state w))
      = (operatingTimeUsed (state w) + op)%Q.
Proof.
  intros Hsched. cbv zeta.
  assert (Hgen : forall w0,
    operatingTimeWindow (config w0) = operatingTimeWindow cfg ->
    operatingWindowStart (state w0) = inject_Z t0 ->
    operatingWindowStart (state (run sched w0)) = inject_Z t0).
  { induction sched as [|[now l] rest IH]; intros w0 Hcfg Hw; cbn [run]; [exact Hw|].
    apply List.Forall_cons_iff in Hsched. destruct Hsched as [Hnow Hrest]. cbn [fst] in Hnow.
    destruct (step_window cfg t0 now l w0 Hcfg Hw Hnow) as [Hcfg' Hw'].
    apply (IH Hrest); assumption. }
  assert (Hstart := Hgen (create cfg t0) eq_refl eq_refl).
  split; [exact Hstart|]. intros op reset nowMs Hop Hnow.
  destruct (processResponseTimeInfo_window cfg (Some op) reset nowMs t0 _ Hstart Hnow)
    as [_ Hused].
  rewrite Hused, Hop. reflexivity.
Qed.

Lemma operating_window_never_restarts_witness :
  operatingWindowStart (state (run twoSlowResponses (create defaultConfig 1700000000000)))
    = inject_Z 1700000000000.
Proof.
  assert (H : instantsUpTo (1000 * (1700000000000 + operatingTimeWindow defaultConfig))
                twoSlowResponses).
  { unfold instantsUpTo, twoSlowResponses. repeat constructor; cbn; lia. }
  destruct (operating_window_never_restarts defaultConfig 1700000000000 twoSlowResponses H)
    as [Hstart _].
  exact Hstart.
Defined.

(** X27. A resource-limit error from which no reset instant can be
    read blocks nothing: the method enters [blockedMethods], and unless a
    reset instant stored earlier is still ahead, the next [canMakeRequest]
    for it takes it out again and lets the counter alone decide. *)
Theorem block_without_reset_is_void (cfg : RateLimitConfig) (m msg : string) (nowMs : Z)
  (st : RateLimitState) :
  matchResetAt msg = None ->
  resetPending st nowMs = false ->
  let st' := handleResourceLimitExceeded m msg st in
  m ∈ blockedMethods st' /\
  (fst (canMakeRequest cfg m nowMs st') = true <-> requestCounter st < burstLimit cfg) /\
  (m ∉ blockedMethods (snd (canMakeRequest cfg m nowMs st'))).
Proof.
  intros Hmatch Hpend. cbv zeta. unfold handleResourceLimitExceeded. rewrite Hmatch.
  set (st' := setMethods (blockedMethods st ∪ {[m]}) st).
  assert (Hin : m ∈ blockedMethods st') by (cbn; set_solver).
  assert (Hpend' : resetPending st' nowMs = false) by exact Hpend.
  split; [exact Hin|]. split.
  - rewrite canMakeRequest_true_iff. rewrite Hpend'. cbn [requestCounter st' setMethods].
    split; [intros [_ H]; exact H | intros H; split; [right; reflexivity | exact H]].
  - apply canMakeRequest_evicts; assumption.
Qed.

Lemma block_without_reset_is_void_witness :
  fst (canMakeRequest defaultConfig "crm.deal.list" 5000
         (handleResourceLimitExceeded "crm.deal.list" "operating_reset_at: soon"
            (state (create defaultConfig 0)))) = true.
Proof.
  apply (block_without_reset_is_void defaultConfig "crm.deal.list"
           "operating_reset_at: soon" 5000 (state (create defaultConfig 0)));
    [vm_compute; reflexivity | reflexivity | cbn; lia].
Defined.

(** X28. The drain loop never spins: whenever [canMakeRequest] denies
    the request at the head of the queue and the configured rate is
    positive, [waitForAvailability] sleeps, for a positive time: until the
    reset instant when the method is blocked and its reset is ahead, and
    for [ceil(1000 / maxRequestsPerSecond)] milliseconds otherwise. *)
Theorem denied_request_sleeps (cfg : RateLimitConfig) (m : string) (nowMs : Z)
  (st : RateLimitState) :
  fst (canMakeRequest cfg m nowMs st) = false ->
  0 < maxRequestsPerSecond cfg ->
  exists d, 0 < d /\
    waitForAvailability cfg m nowMs (snd (canMakeRequest cfg m nowMs st)) = [EvSleep (Some d)] /\
    d = if bool_decide (m ∈ blockedMethods st) && resetPending st nowMs
        then 1000 * default 0 (operatingResetAt st) - nowMs
        else - ((-1000) / maxRequestsPerSecond cfg).
Proof.
  intros Hdeny Hrate.
  assert (Hbase : 0 < - ((-1000) / maxRequestsPerSecond cfg)).
  { assert ((-1000) / maxRequestsPerSecond cfg < 0)
      by (apply Z.div_lt_upper_bound; lia).
    lia. }
  assert (Hbd : baseDelay cfg = Some (- ((-1000) / maxRequestsPerSecond cfg))).
  { unfold baseDelay. destruct (Z.eqb_spec (maxRequestsPerSecond cfg) 0); [lia | reflexivity]. }
  revert Hdeny. unfold canMakeRequest. case_bool_decide as Hin; cbn [andb].
  - destruct (resetPending st nowMs) eqn:Hpend.
    + intros _. cbn [snd]. unfold resetPending in Hpend.
      destruct (operatingResetAt st) as [r|] eqn:Hr; [|discriminate].
      apply andb_true_iff in Hpend. destruct Hpend as [Hnz Hlt].
      apply Z.ltb_lt in Hlt.
      exists (1000 * r - nowMs). split; [lia|]. split; [|reflexivity].
      unfold waitForAvailability. rewrite Hr, Hnz.
      rewrite bool_decide_eq_true_2 by exact Hin. cbn [andb].
      replace (Z.max 0 (1000 * r - nowMs)) with (1000 * r - nowMs) by lia.
      destruct (Z.ltb_spec 0 (1000 * r - nowMs)); [reflexivity | lia].
    + unfold checkCounter.
      destruct (burstLimit cfg <=? _); cbn [fst snd]; [intros _ | discriminate].
      exists (- ((-1000) / maxRequestsPerSecond cfg)).
      split; [exact Hbase|]. split; [|reflexivity].
      unfold waitForAvailability. cbn. rewrite Hbd. reflexivity.
  - unfold checkCounter.
    destruct (burstLimit cfg <=? _); cbn [fst snd]; [intros _ | discriminate].
    exists (- ((-1000) / maxRequestsPerSecond cfg)).
    split; [exact Hbase|]. split; [|reflexivity].
    unfold waitForAvailability. cbn [operatingResetAt blockedMethods isBlocked setBlocked].
    rewrite bool_decide_eq_false_2 by exact Hin. cbn [andb].
    destruct (operatingResetAt st); cbn; rewrite Hbd; reflexivity.
Qed.

(** the counter is at the burst limit: half a second at two requests
    per second *)
Lemma denied_request_sleeps_witness :
  waitForAvailability defaultConfig "crm.deal.list" 5000
    (snd (canMakeRequest defaultConfig "crm.deal.list" 5000
            (setCounter 50 (state (create defaultConfig 0)))))
  = [EvSleep (Some 500)].
Proof.
  destruct (denied_request_sleeps defaultConfig "crm.deal.list" 5000
              (setCounter 50 (state (create defaultConfig 0))))
    as (d & _ & Hwait & Hd); [reflexivity | cbn; lia |].
  rewrite Hwait, Hd. reflexivity.
Defined.

End LimiterInvariants.

(** ** Batches *)
Section Batches.

Lemma chunkLoop_spec {A : Type} (calls : list A) (fuel i : nat) :
  (length calls <= i + fuel)%nat ->
  concat (BitrixSDK.chunkLoop fuel i calls) = skipn i calls /\
  Forall (fun c => (1 <= length c <= BitrixSDK.chunkSize)%nat)
         (BitrixSDK.chunkLoop fuel i calls) /\
  (length calls - i <= BitrixSDK.chunkSize * length (BitrixSDK.chunkLoop fuel i calls)
   < length calls - i + BitrixSDK.chunkSize)%nat.
Proof.
  unfold BitrixSDK.chunkSize. revert i.
  induction fuel as [|fuel IH]; intros i Hfuel; cbn [BitrixSDK.chunkLoop];
    unfold BitrixSDK.chunkSize.
  - rewrite skipn_all2 by lia. split; [reflexivity|]. split; [constructor | cbn; lia].
  - destruct (Nat.ltb_spec i (length calls)) as [Hlt|Hge].
    + destruct (IH (i + 50)%nat ltac:(lia)) as (Hcat & Hall & Hlen).
      unfold BitrixSDK.slice. replace (i + 50 - i)%nat with 50%nat by lia.
      split; [|split].
      * cbn [concat]. rewrite Hcat.
        replace (i + 50)%nat with (50 + i)%nat by lia.
        rewrite <- List.skipn_skipn. apply firstn_skipn.
      * constructor; [|exact Hall].
        rewrite length_firstn, length_skipn. lia.
      * cbn [length]. lia.
    + rewrite skipn_all2 by lia. split; [reflexivity|]. split; [constructor | cbn; lia].
Qed.

(** X29. [batchWithChunking] cuts the calls into consecutive chunks
    that together are the calls, in order; every chunk has at least one
    and at most 50 calls, and there are [ceil(n / 50)] of them. *)
Theorem chunks_partition {A : Type} (calls : list A) :
  concat (BitrixSDK.chunks calls) = calls /\
  Forall (fun c => (1 <= length c <= BitrixSDK.chunkSize)%nat) (BitrixSDK.chunks calls) /\
  (length calls <= BitrixSDK.chunkSize * length (BitrixSDK.chunks calls)
   < length calls + BitrixSDK.chunkSize)%nat.
Proof.
  destruct (chunkLoop_spec calls (length calls) 0 ltac:(lia)) as (Hcat & Hall & Hlen).
  unfold BitrixSDK.chunks. split; [exact Hcat|]. split; [exact Hall|]. lia.
Qed.

End Batches.
